(** * Escape-index dashboard and server: a shallow embedding

    The JavaScript sources of the bull-top escape-index project are embedded
    as Rocq functions:

    - [JSNum]: JavaScript numbers as IEEE 754 binary64 values
      ([spec_float] with precision 53 and maximal exponent 1024), with the
      exact rounding of [+], [-], [*], [/], and the [Math] and [Number]
      helpers the sources call;
    - [JSVal]: the primitive values found in rows decoded from CSV or JSON,
      with [ToBoolean], [ToNumber] and the host built-ins as a type class;
    - [JSDate]: [Date] objects as time values, with the calendar functions;
    - [Server]: the two versions of the [/api/data] route;
    - [Dashboard]: [parseRow], [downsampleEven], [aggregateByPeriod], the
      fetch pipeline and the chart series;
    - [Stats]: [StatisticsPanel]'s summary and [getRiskLevel];
    - [Mock]: the row built by [generateMockData];
    - [Imperative]: [downsampleEven] and [aggregateByPeriod] once more,
      over a store of mutable arrays.

    Definitions come first, the theorems about them after. *)

From Stdlib Require Import ZArith List String Ascii Bool Lia.
From Stdlib Require Import Floats.SpecFloat.
From Stdlib Require Import Sorting.Sorted.
From Stdlib Require Import QArith Qpower Lqa.
From stdpp Require Import base list strings pretty.
Import ListNotations.

Local Open Scope string_scope.
Local Open Scope list_scope.

(** ** JavaScript numbers *)

Module JSNum.

(** A Number is a binary64 value. *)
Definition number : Type := spec_float.

Definition prec : Z := 53.
Definition emax : Z := 1024.

Definition NaN : number := S754_nan.
Definition Infinity : number := S754_infinity false.
Definition pzero : number := S754_zero false.
Definition nzero : number := S754_zero true.

(** The Number nearest to an integer (an integer literal of the source). *)
Definition of_Z (z : Z) : number := binary_normalize prec emax z 0 false.

Definition add (a b : number) : number := SFadd prec emax a b.
Definition sub (a b : number) : number := SFsub prec emax a b.
Definition mul (a b : number) : number := SFmul prec emax a b.
Definition div (a b : number) : number := SFdiv prec emax a b.

(** The correctly rounded quotient of two integers: the value of a decimal
    literal such as [74.99] = 7499/100, or [0.1] = 1/10. *)
Definition of_ratio (p : Z) (q : positive) : number :=
  match p with
  | Z0 => pzero
  | Zpos m => div (S754_finite false m 0) (S754_finite false q 0)
  | Zneg m => div (S754_finite true m 0) (S754_finite false q 0)
  end.

(** Relational operators; every comparison with NaN is false. *)
Definition lt (a b : number) : bool := SFltb a b.
Definition le (a b : number) : bool := SFleb a b.
Definition gt (a b : number) : bool := SFltb b a.
Definition ge (a b : number) : bool := SFleb b a.

(** [a === b] on numbers. *)
Definition strict_eq (a b : number) : bool := SFeqb a b.

Definition is_nan (a : number) : bool :=
  match a with S754_nan => true | _ => false end.

(** [Number.isFinite]. *)
Definition isFinite (a : number) : bool :=
  match a with
  | S754_zero _ | S754_finite _ _ _ => true
  | S754_infinity _ | S754_nan => false
  end.

(** [ToBoolean] on a number: [+0], [-0] and NaN are falsy. *)
Definition truthy (a : number) : bool :=
  match a with
  | S754_zero _ | S754_nan => false
  | _ => true
  end.

(** [Math.max] and [Math.min] of two arguments: NaN if either is NaN,
    [+0] counts as larger than [-0]. *)
Definition Math_max (a b : number) : number :=
  match SFcompare a b with
  | None => NaN
  | Some Lt => b
  | Some Gt => a
  | Some Eq =>
      match a, b with
      | S754_zero true, S754_zero false => b
      | _, _ => a
      end
  end.

Definition Math_min (a b : number) : number :=
  match SFcompare a b with
  | None => NaN
  | Some Lt => a
  | Some Gt => b
  | Some Eq =>
      match a, b with
      | S754_zero false, S754_zero true => b
      | _, _ => a
      end
  end.

(** [Math.max(...values)] and [Math.min(...values)]: the fold starts from
    [-Infinity], respectively [+Infinity]. *)
Definition Math_max_list (l : list number) : number :=
  fold_left Math_max l (S754_infinity true).

Definition Math_min_list (l : list number) : number :=
  fold_left Math_min l (S754_infinity false).

(** The integer [floor(x + 1/2)] of a finite value [±m·2^e]. *)
Definition round_half_up (s : bool) (m : positive) (e : Z) : Z :=
  let v := cond_Zopp s (Zpos m) in
  match e with
  | Zneg k => (2 * v + 2 ^ Zpos k) / 2 ^ (Zpos k + 1)
  | _ => v * 2 ^ e
  end.

(** [Math.round]: the nearest integer, ties towards [+Infinity]; a result
    of zero keeps the sign of the argument. *)
Definition Math_round (a : number) : number :=
  match a with
  | S754_finite s m e =>
      if (0 <=? e)%Z then a
      else match round_half_up s m e with
           | Z0 => S754_zero s
           | r => of_Z r
           end
  | _ => a
  end.

(** [Math.floor] of a finite value, as an integer. *)
Definition floor_Z (s : bool) (m : positive) (e : Z) : Z :=
  let v := cond_Zopp s (Zpos m) in
  match e with
  | Zneg k => v / 2 ^ Zpos k
  | _ => v * 2 ^ e
  end.

Definition Math_floor (a : number) : number :=
  match a with
  | S754_finite s m e =>
      if (0 <=? e)%Z then a
      else match floor_Z s m e with
           | Z0 => S754_zero s
           | r => of_Z r
           end
  | _ => a
  end.

(** The integer part of a number used as an array index or a length
    ([ToIntegerOrInfinity], NaN and infinities left out). *)
Definition to_Z (a : number) : option Z :=
  match a with
  | S754_zero _ => Some 0%Z
  | S754_finite s m e =>
      Some (cond_Zopp s (match e with
                         | Zneg k => Zpos m / 2 ^ Zpos k
                         | _ => Zpos m * 2 ^ e
                         end))
  | _ => None
  end.

(** [Number(x.toFixed(4))].  [toFixed(4)] picks the integer [n] with
    [n / 10^4] nearest to [|x|] (the larger one on a tie) and prints
    [n / 10^4] with the sign of [x]; [Number] reads the decimal back,
    correctly rounded.  From [10^21] on, [toFixed] prints the number
    itself. *)
Definition toFixed4_digits (m : positive) (e : Z) : Z :=
  match e with
  | Zneg k => (2 * (Zpos m * 10000) + 2 ^ Zpos k) / 2 ^ (Zpos k + 1)
  | _ => Zpos m * 2 ^ e * 10000
  end.

Definition Number_toFixed4 (a : number) : number :=
  match a with
  | S754_finite s m e =>
      if le (of_Z (10 ^ 21)) (SFabs a) then a
      else match toFixed4_digits m e with
           | Zpos n => div (S754_finite s n 0) (S754_finite false 10000 0)
           | _ => S754_zero s
           end
  | S754_zero _ => pzero
  | _ => a
  end.

End JSNum.

(** ** JavaScript values, objects and the host built-ins *)

Module JSVal.
Import JSNum.

(** The values a cell of a row decoded from CSV or JSON can hold.  An
    array or plain object is kept as the string its [ToPrimitive]
    conversion yields ([[]] gives the empty string, [[7]] gives ["7"],
    [{}] gives ["[object Object]"]). *)
Inductive jsval : Type :=
| VUndef
| VNull
| VBool (b : bool)
| VNum (n : number)
| VStr (s : string)
| VObj (prim : string).

(** Built-ins of the host that the sources call and that are not
    reproduced here: the [StringToNumber] grammar, [Date.parse] and the
    offset of local time from UTC in milliseconds, [LocalTZA(t, isUTC)]:
    the offset in force at [t], where [t] is a time value when [isUTC]
    holds and a local time otherwise.  In a zone with daylight saving the
    offset changes with [t]. *)
Class Host : Type := {
  StringToNumber : string -> number;
  Date_parse : string -> option Z;
  LocalTZA : Z -> bool -> Z
}.

Definition ToBoolean (v : jsval) : bool :=
  match v with
  | VUndef | VNull => false
  | VBool b => b
  | VNum n => truthy n
  | VStr s => negb (String.eqb s "")
  | VObj _ => true
  end.

(** [Number(v)]. *)
Definition ToNumber `{Host} (v : jsval) : number :=
  match v with
  | VUndef => NaN
  | VNull => pzero
  | VBool true => of_Z 1
  | VBool false => pzero
  | VNum n => n
  | VStr s => StringToNumber s
  | VObj p => StringToNumber p
  end.

(** The global [isNaN(v)]. *)
Definition isNaN `{Host} (v : jsval) : bool := is_nan (ToNumber v).

(** [a === b].  The sources compare cells with primitive constants only;
    two objects are taken to be distinct. *)
Definition strict_eq (a b : jsval) : bool :=
  match a, b with
  | VUndef, VUndef => true
  | VNull, VNull => true
  | VBool x, VBool y => Bool.eqb x y
  | VNum x, VNum y => JSNum.strict_eq x y
  | VStr x, VStr y => String.eqb x y
  | _, _ => false
  end.

(** [a || b]. *)
Definition or_else (a b : jsval) : jsval := if ToBoolean a then a else b.

(** An object with string keys, as the list of its own properties in the
    order [Object.keys] enumerates them. *)
Definition object : Type := list (string * jsval).

Definition keys (o : object) : list string := map fst o.

(** [o[k]]: [undefined] for a missing property. *)
Fixpoint get (o : object) (k : string) : jsval :=
  match o with
  | [] => VUndef
  | (k', v) :: o' => if String.eqb k' k then v else get o' k
  end.

(** An array seen as an object: its indices are its keys. *)
Definition array_object (cells : list jsval) : object :=
  imap (fun i v => (pretty i, v)) cells.

(** A numeric cell of a parsed row: a number, [null], or no property at
    all ([undefined]). *)
Inductive cell : Type :=
| Absent
| Null
| Num (n : number).

(** [c || 0] on a numeric cell. *)
Definition or_zero (c : cell) : number :=
  match c with
  | Num n => if truthy n then n else pzero
  | _ => pzero
  end.

(** Results of code that can throw. *)
Inductive res (A : Type) : Type :=
| Ok (a : A)
| Throw (err : string).
Arguments Ok {A} a.
Arguments Throw {A} err.

Definition bind {A B} (r : res A) (f : A -> res B) : res B :=
  match r with
  | Ok a => f a
  | Throw e => Throw e
  end.

Fixpoint mapM {A B} (f : A -> res B) (l : list A) : res (list B) :=
  match l with
  | [] => Ok []
  | x :: l' => bind (f x) (fun y => bind (mapM f l') (fun ys => Ok (y :: ys)))
  end.

(** *** [String.prototype.trim] on UTF-8 encoded strings *)

Definition bytes (l : list nat) : list ascii := map ascii_of_nat l.

(** White space and line terminators: TAB, LF, VT, FF, CR, SP, U+00A0,
    U+1680, U+2000..U+200A, U+2028, U+2029, U+202F, U+205F, U+3000 and
    U+FEFF (the byte order mark). *)
Definition white_space : list (list ascii) :=
  map bytes
    ([[9]; [10]; [11]; [12]; [13]; [32]; [194; 160]; [225; 154; 128]]
     ++ map (fun b => [226; 128; b]) (seq 128 11)
     ++ [[226; 128; 168]; [226; 128; 169]; [226; 128; 175];
         [226; 129; 159]; [227; 128; 128]; [239; 187; 191]])%nat.

Fixpoint strip_prefix (p s : list ascii) : option (list ascii) :=
  match p, s with
  | [], _ => Some s
  | a :: p', b :: s' => if Ascii.eqb a b then strip_prefix p' s' else None
  | _ :: _, [] => None
  end.

Fixpoint strip_any (ws : list (list ascii)) (s : list ascii)
  : option (list ascii) :=
  match ws with
  | [] => None
  | w :: ws' =>
      match strip_prefix w s with
      | Some s' => Some s'
      | None => strip_any ws' s
      end
  end.

Fixpoint trim_start_fuel (ws : list (list ascii)) (fuel : nat)
  (s : list ascii) : list ascii :=
  match fuel with
  | O => s
  | S fuel' =>
      match strip_any ws s with
      | Some s' => trim_start_fuel ws fuel' s'
      | None => s
      end
  end.

Definition trim_start (ws : list (list ascii)) (s : list ascii) : list ascii :=
  trim_start_fuel ws (length s) s.

Definition trim (s : string) : string :=
  let l := trim_start white_space (list_ascii_of_string s) in
  let r := trim_start (map (@rev ascii) white_space) (rev l) in
  string_of_list_ascii (rev r).

End JSVal.

(** ** Dates *)

Module JSDate.
Import JSNum JSVal.
Local Open Scope Z_scope.

(** A [Date] object holds a time value: milliseconds since the epoch, or
    NaN ([None]) for an invalid date. *)
Definition jsdate : Type := option Z.

Definition msPerDay : Z := 86400000.

Definition Day (t : Z) : Z := t / msPerDay.
Definition TimeWithinDay (t : Z) : Z := t mod msPerDay.
Definition WeekDay (t : Z) : Z := (Day t + 4) mod 7.

(** Year, month (1..12) and day of month of a day number, in the
    proleptic Gregorian calendar. *)
Definition civil_from_days (z : Z) : Z * Z * Z :=
  let z := z + 719468 in
  let era := z / 146097 in
  let doe := z - era * 146097 in
  let yoe := (doe - doe / 1460 + doe / 36524 - doe / 146096) / 365 in
  let doy := doe - (365 * yoe + yoe / 4 - yoe / 100) in
  let mp := (5 * doy + 2) / 153 in
  let d := doy - (153 * mp + 2) / 5 + 1 in
  let m := if mp <? 10 then mp + 3 else mp - 9 in
  let y := yoe + era * 400 in
  (if m <=? 2 then y + 1 else y, m, d).

Definition days_from_civil (y m d : Z) : Z :=
  let y := if m <=? 2 then y - 1 else y in
  let era := y / 400 in
  let yoe := y - era * 400 in
  let doy := (153 * (if 2 <? m then m - 3 else m + 9) + 2) / 5 + d - 1 in
  let doe := yoe * 365 + yoe / 4 - yoe / 100 + doy in
  era * 146097 + doe - 719468.

Definition YearFromTime (t : Z) : Z := fst (fst (civil_from_days (Day t))).
(** Zero-based, as [getMonth] returns it. *)
Definition MonthFromTime (t : Z) : Z := snd (fst (civil_from_days (Day t))) - 1.
Definition DateFromTime (t : Z) : Z := snd (civil_from_days (Day t)).

(** [MakeDay(year, month, date)] with a zero-based month. *)
Definition MakeDay (year month date : Z) : Z :=
  days_from_civil (year + month / 12) (month mod 12 + 1) 1 + date - 1.

Definition MakeDate (day time : Z) : Z := day * msPerDay + time.

Definition TimeClip (t : Z) : jsdate :=
  if Z.abs t <=? 8640000000000000 then Some t else None.

Section Local.
Context `{Host}.

Definition LocalTime (t : Z) : Z := t + LocalTZA t true.
Definition UTC (t : Z) : Z := t - LocalTZA t false.

(** The getters return a number, NaN ([None]) on an invalid date. *)
Definition getFullYear (d : jsdate) : option Z :=
  option_map (fun t => YearFromTime (LocalTime t)) d.
Definition getMonth (d : jsdate) : option Z :=
  option_map (fun t => MonthFromTime (LocalTime t)) d.
Definition getDate (d : jsdate) : option Z :=
  option_map (fun t => DateFromTime (LocalTime t)) d.
Definition getDay (d : jsdate) : option Z :=
  option_map (fun t => WeekDay (LocalTime t)) d.

(** [d.setDate(dt)], returning the new time value of [d]. *)
Definition setDate (d : jsdate) (dt : option Z) : jsdate :=
  match d, dt with
  | Some t, Some dt =>
      let l := LocalTime t in
      TimeClip (UTC (MakeDate (MakeDay (YearFromTime l) (MonthFromTime l) dt)
                              (TimeWithinDay l)))
  | _, _ => None
  end.

(** [d.setFullYear(year)], returning the new time value of [d]: month,
    day and time of the day are kept in local time; a day that the new
    year lacks runs over into the next month. *)
Definition setFullYear (d : jsdate) (year : option Z) : jsdate :=
  match d, year with
  | Some t, Some y =>
      let l := LocalTime t in
      TimeClip (UTC (MakeDate (MakeDay y (MonthFromTime l) (DateFromTime l))
                              (TimeWithinDay l)))
  | _, _ => None
  end.

(** [new Date(v)]: a string is parsed, any other value is converted to
    a number and clipped. *)
Definition Date_new (v : jsval) : jsdate :=
  match v with
  | VStr s => Date_parse s
  | VObj p => Date_parse p
  | _ => match to_Z (ToNumber v) with
         | Some t => TimeClip t
         | None => None
         end
  end.
End Local.

Definition getTime (d : jsdate) : option Z := d.

Definition pad_start (n : nat) (s : string) : string :=
  string_of_list_ascii
    (replicate (n - String.length s)%nat "0"%char ++ list_ascii_of_string s).

(** The year of an ISO string: four digits from 0 to 9999, otherwise a
    sign and six digits. *)
Definition iso_year (y : Z) : string :=
  if (0 <=? y) && (y <=? 9999) then pad_start 4 (pretty y)
  else (if y <? 0 then "-" else "+") ++ pad_start 6 (pretty (Z.abs y)).

(** [d.toISOString().slice(0, 10)]; [toISOString] throws a RangeError on
    an invalid date. *)
Definition toISOString_slice10 (d : jsdate) : res string :=
  match d with
  | None => Throw "RangeError: Invalid time value"
  | Some t =>
      let '(y, m, dd) := civil_from_days (Day t) in
      Ok (String.substring 0 10
            (iso_year y ++ "-" ++ pad_start 2 (pretty m) ++ "-"
             ++ pad_start 2 (pretty dd)))
  end.

(** [String(n)] for the integer or NaN a getter returns. *)
Definition int_to_string (n : option Z) : string :=
  match n with
  | Some z => pretty z
  | None => "NaN"
  end.

(** The date-only ISO form [YYYY-MM-DD] of [Date.parse], read as UTC
    midnight.  Other forms are left to the host. *)
Definition digit (a : ascii) : option Z :=
  let n := nat_of_ascii a in
  if (48 <=? n)%nat && (n <=? 57)%nat then Some (Z.of_nat n - 48) else None.

Fixpoint digits (l : list ascii) (acc : Z) : option Z :=
  match l with
  | [] => Some acc
  | a :: l' =>
      match digit a with
      | Some d => digits l' (10 * acc + d)
      | None => None
      end
  end.

Definition days_in_month (y m : Z) : Z :=
  days_from_civil (if m =? 12 then y + 1 else y) (if m =? 12 then 1 else m + 1) 1
  - days_from_civil y m 1.

Definition parse_iso_date (s : string) : option Z :=
  match list_ascii_of_string s with
  | [y1; y2; y3; y4; "-"%char; m1; m2; "-"%char; d1; d2] =>
      match digits [y1; y2; y3; y4] 0, digits [m1; m2] 0, digits [d1; d2] 0 with
      | Some y, Some m, Some d =>
          if (1 <=? m) && (m <=? 12) && (1 <=? d) && (d <=? days_in_month y m)
          then Some (days_from_civil y m d * msPerDay)
          else None
      | _, _, _ => None
      end
  | _ => None
  end.

End JSDate.


(** ** The server: [/api/data] *)

Module Server.
Import JSNum JSVal.

(** The module-level variables of the server. *)
Record state : Type := {
  cachedData : option (list object);
  accessCount : nat
}.

Definition initial : state := {| cachedData := None; accessCount := 0 |}.

(** The promise of [getCsvDataAsJson]: resolved with the rows of the CSV
    file, or rejected. *)
Inductive csv_outcome : Type :=
| Resolved (rows : list object)
| Rejected (err : string).

(** [loadDataAndCache]: a failed load leaves [null] in the cache. *)
Definition loadDataAndCache (o : csv_outcome) (st : state) : state :=
  match o with
  | Resolved rows => {| cachedData := Some rows; accessCount := accessCount st |}
  | Rejected _ => {| cachedData := None; accessCount := accessCount st |}
  end.

(** The object handed to [res.json]. *)
Inductive body : Type :=
| Columnar (status : string) (columns : list string)
    (data : list (list jsval)) (count : nat)
| Rows (status : string) (data : list object) (count : nat)
| Failure (status : string) (message : string).

Record response : Type := { code : nat; json : body }.

Definition load_failed : string :=
  "服务器未能成功加载数据，请稍后重试或检查CSV文件".

(** The route of the first unnamed source (columnar payload). *)
Definition api_data (st : state) : response :=
  match cachedData st with
  | Some ((first :: _) as rows) =>
      let columns := keys first in
      let data := map (fun row => map (fun col => get row col) columns) rows in
      {| code := 200; json := Columnar "success" columns data (length rows) |}
  | _ => {| code := 500; json := Failure "error" load_failed |}
  end.

(** The route of [bullTopServer/serverHttps.js]: any array, also an empty
    one, is truthy. *)
Definition api_data_https (st : state) : response :=
  match cachedData st with
  | Some rows => {| code := 200; json := Rows "success" rows (length rows) |}
  | None => {| code := 500; json := Failure "error" load_failed |}
  end.

Definition is_success (r : response) : bool :=
  match json r with
  | Columnar _ _ _ _ | Rows _ _ _ => true
  | Failure _ _ => false
  end.

(** What a client does to rebuild row [i]: pair each column with its cell. *)
Definition zip_row (columns : list string) (cells : list jsval) : object :=
  combine columns cells.

End Server.

(** ** The dashboard *)

Module Dashboard.
Import JSNum JSVal JSDate.

(** The object built by [parseRow]; the points built by
    [aggregateByPeriod] have the same shape with fewer properties. *)
Record row : Type := {
  date : jsdate;
  dateStr : jsval;
  hs300_close : cell;
  shanghai_close : cell;
  hs300_ret : cell;
  hs300_turnover_log : cell;
  hs300_amplitude : cell;
  hs300_turnover_rate : cell;
  margin_total : cell;
  douyin_search : cell;
  crowding_z : cell;
  escape_index_0_100 : cell;
  escape_signal : option bool;
  escape_level : jsval;
  raw : object
}.

Definition date_key : string := "日期".

Section Parse.
Context `{Host}.

Definition safeNum (v : jsval) : cell :=
  if strict_eq v VNull || strict_eq v VUndef
     || strict_eq v (VStr "") || strict_eq v (VStr "NaN")
  then Null
  else
    let n := ToNumber v in
    if isFinite n then Num n else Null.

(** The date key is the first key that is ["日期"] once trimmed (a byte
    order mark is white space).  The older copy of the dashboard has the
    same function without [shanghai_close]. *)
Definition parseRow (r : object) : row :=
  let dateKey :=
    match List.find (fun k => String.eqb (trim k) date_key) (keys r) with
    | Some k => k
    | None => date_key
    end in
  let dateRaw := or_else (get r dateKey) (get r date_key) in
  let date := Date_new dateRaw in
  {| date := date;
     dateStr := dateRaw;
     hs300_close := safeNum (get r "hs300_close");
     shanghai_close := safeNum (get r "shanghai_close");
     hs300_ret := safeNum (get r "hs300_ret");
     hs300_turnover_log := safeNum (get r "hs300_turnover_log");
     hs300_amplitude := safeNum (get r "hs300_amplitude");
     hs300_turnover_rate := safeNum (get r "hs300_turnover_rate");
     margin_total := safeNum (get r "margin_total");
     douyin_search := safeNum (get r "douyin_search");
     crowding_z := safeNum (get r "crowding_z");
     escape_index_0_100 := safeNum (get r "escape_index_0_100");
     escape_signal :=
       Some (strict_eq (get r "escape_signal") (VStr "1")
             || strict_eq (get r "escape_signal") (VBool true)
             || strict_eq (get r "escape_signal") (VStr "true"));
     escape_level :=
       or_else (or_else (get r "escape_level") (get r "escape_level")) (VStr "");
     raw := r |}.

End Parse.

(** [r.date && !Number.isNaN(r.date.getTime())]; a Date object is truthy. *)
Definition valid_date (r : row) : bool :=
  match getTime (date r) with
  | Some _ => true
  | None => false
  end.

(** [a.date - b.date > 0]; the difference is NaN when a date is invalid,
    and a comparator result of NaN counts as 0. *)
Definition date_after (a b : row) : bool :=
  match date a, date b with
  | Some x, Some y => (y <? x)%Z
  | _, _ => false
  end.

(** [Array.prototype.sort] is stable: an element goes before the first
    one it does not come after. *)
Fixpoint insert_by_date (x : row) (l : list row) : list row :=
  match l with
  | [] => [x]
  | y :: l' => if date_after x y then y :: insert_by_date x l' else x :: y :: l'
  end.

Definition sort_by_date (l : list row) : list row :=
  fold_right insert_by_date [] l.

(** *** [downsampleEven] *)

Section Downsample.
Context {A : Type}.
(** [undefined], and [a === b] on the elements. *)
Variable undef : A.
Variable same : A -> A -> bool.

(** [data[i]]. *)
Definition index (data : list A) (i : nat) : A :=
  match data !! i with
  | Some x => x
  | None => undef
  end.

(** [out[out.length - 1]]; on an empty array this reads property [-1]. *)
Definition last_elem (out : list A) : A :=
  match out with
  | [] => undef
  | _ => index out (length out - 1)%nat
  end.

(** [out[out.length - 1] = v]; on an empty array this stores [v] under the
    property [-1], which is no element: the array stays empty. *)
Definition set_last (out : list A) (v : A) : list A :=
  match out with
  | [] => []
  | _ => <[(length out - 1)%nat := v]> out
  end.

(** The [for] loop: [i] runs from 0 to [target - 1]. *)
Definition pick (data : list A) (n target : nat) : list A :=
  fold_left (fun out i => out ++ [index data (i * n / target)%nat])
    (seq 0 target) [].

Definition downsampleEven (data : list A) (target : nat) : list A :=
  let n := length data in
  if (n <=? target)%nat then data
  else
    let out := pick data n target in
    if negb (same (last_elem out) (index data (n - 1)%nat))
    then set_last out (index data (n - 1)%nat)
    else out.

End Downsample.

(** *** [aggregateByPeriod] *)

Section Aggregate.
Context `{Host}.

(** The key of a row; it stays [undefined] for an unknown period.  For a
    week the source first builds a [YYYY-Wn] key, which cannot throw and
    is overwritten by the date of the Monday. *)
Definition period_key (period : string) (d : row) : res (option string) :=
  let yy := getFullYear (date d) in
  let mm := option_map (fun m => (m + 1)%Z) (getMonth (date d)) in
  if String.eqb period "week" then
    let temp := date d in
    let day := option_map (fun g => ((g + 6) mod 7)%Z) (getDay temp) in
    let temp :=
      setDate temp
        (match getDate temp, day with
         | Some a, Some b => Some (a - b)%Z
         | _, _ => None
         end) in
    bind (toISOString_slice10 temp) (fun key => Ok (Some key))
  else if String.eqb period "month" then
    Ok (Some (int_to_string yy ++ "-" ++ pad_start 2 (int_to_string mm))%string)
  else if String.eqb period "year" then
    Ok (Some (int_to_string yy))
  else Ok None.

Definition key_eqb (a b : option string) : bool :=
  match a, b with
  | Some x, Some y => String.eqb x y
  | None, None => true
  | _, _ => false
  end.

(** [arr = map.get(key) || []; arr.push(d); map.set(key, arr)] on a [Map]
    kept in insertion order. *)
Fixpoint group_push (key : option string) (d : row)
  (m : list (option string * list row)) : list (option string * list row) :=
  match m with
  | [] => [(key, [d])]
  | (k, arr) :: m' =>
      if key_eqb k key then (k, arr ++ [d]) :: m'
      else (k, arr) :: group_push key d m'
  end.

Fixpoint group_rows (period : string) (data : list row)
  (m : list (option string * list row))
  : res (list (option string * list row)) :=
  match data with
  | [] => Ok m
  | d :: data' =>
      bind (period_key period d) (fun key =>
        group_rows period data' (group_push key d m))
  end.

(** [arr.reduce((s, x) => s + (x.escape_index_0_100 || 0), 0) / arr.length] *)
Definition meanEscape (arr : list row) : number :=
  div (fold_left (fun s x => add s (or_zero (escape_index_0_100 x))) arr pzero)
      (of_Z (Z.of_nat (length arr))).

(** The point of a group. *)
Definition aggregate_point (arr : list row) : res row :=
  match last arr with
  | None => Throw "TypeError: Cannot read properties of undefined"
  | Some l =>
      Ok {| date := date l;
            dateStr := dateStr l;
            escape_index_0_100 := Num (Number_toFixed4 (meanEscape arr));
            hs300_close := hs300_close l;
            shanghai_close := shanghai_close l;
            douyin_search := douyin_search l;
            margin_total := margin_total l;
            hs300_turnover_rate := hs300_turnover_rate l;
            crowding_z := crowding_z l;
            raw := raw l;
            hs300_ret := Absent;
            hs300_turnover_log := Absent;
            hs300_amplitude := Absent;
            escape_signal := None;
            escape_level := VUndef |}
  end.

Definition aggregateByPeriod (data : list row) (period : string)
  : res (list row) :=
  if String.eqb period "day" then Ok data
  else
    bind (group_rows period data []) (fun m =>
    bind (mapM (fun '(_, arr) => aggregate_point arr) m) (fun out =>
    Ok (sort_by_date out))).

End Aggregate.

(** *** [fetchData] *)

(** What [fetch] and [res.json()] deliver: a rejected request, a status
    that is not ok, a body without [data], or the rows of [json.data]. *)
Inductive fetch_outcome : Type :=
| NetworkError (message : string)
| HttpStatus (status : nat)
| NoData
| Data (rows : list object).

Record view_state : Type := {
  rawData : option (list row);
  rangeStart : option string;
  rangeEnd : option string;
  error : option string
}.

Section Fetch.
Context `{Host}.

(** [json.data.map(parseRow).filter(...)], then sorted in place. *)
Definition parsed_rows (data : list object) : list row :=
  sort_by_date (List.filter valid_date (map parseRow data)).

(** What the [catch] block leaves when the [try] block threw after
    changing [stored]: the error is the message of the exception. *)
Definition failed (stored : view_state) (message : string) : view_state :=
  {| rawData := rawData stored;
     rangeStart := rangeStart stored;
     rangeEnd := rangeEnd stored;
     error := Some message |}.

(** [setRawData(parsed)] runs first.  Then [parsed[parsed.length - 1].date]
    throws on an empty table; [setRangeEnd] gets the date of the latest
    row; [defaultStart] is that date with the year before, and its
    [toISOString] throws when that date is out of range, after the end of
    the range has been set. *)
Definition fetchData (o : fetch_outcome) (st : view_state) : view_state :=
  match o with
  | NetworkError message =>
      failed st (if String.eqb message "" then "获取数据失败" else message)
  | HttpStatus status => failed st (pretty status)
  | NoData => failed st "格式错误: 返回没有data字段"
  | Data rows =>
      let parsed := parsed_rows rows in
      let st1 := {| rawData := Some parsed; rangeStart := rangeStart st;
                    rangeEnd := rangeEnd st; error := None |} in
      match last parsed with
      | None => failed st1 "Cannot read properties of undefined (reading 'date')"
      | Some l =>
          let latest := date l in
          match toISOString_slice10 latest with
          | Throw _ => failed st1 "Invalid time value"
          | Ok end_ =>
              let st2 := {| rawData := Some parsed; rangeStart := rangeStart st;
                            rangeEnd := Some end_; error := None |} in
              let defaultStart :=
                setFullYear latest
                  (option_map (fun y => (y - 1)%Z) (getFullYear latest)) in
              match toISOString_slice10 defaultStart with
              | Throw _ => failed st2 "Invalid time value"
              | Ok start =>
                  {| rawData := Some parsed; rangeStart := Some start;
                     rangeEnd := Some end_; error := None |}
              end
          end
      end
  end.

End Fetch.

End Dashboard.

(** ** The chart series *)

Module Chart.
Import JSNum JSVal JSDate.

(** A point of the series; [overlay] holds the properties that
    [processedChartData] adds under the key of an overlay. *)
Record chart_point : Type := {
  date : string;
  escape : cell;
  hs300_close : cell;
  shanghai_close : cell;
  raw : object;
  overlay : list (string * cell)
}.

Record overlay_option : Type := {
  key : string;
  scale : string;
  minValue : option number;
  maxValue : option number
}.

Definition OVERLAY_OPTIONS : list overlay_option :=
  [ {| key := "hs300_close"; scale := "linear";
       minValue := Some (of_Z 0); maxValue := None |};
    {| key := "shanghai_close"; scale := "linear";
       minValue := Some (of_Z 0); maxValue := None |};
    {| key := "hs300_turnover_rate"; scale := "log";
       minValue := Some (of_ratio 1 10); maxValue := Some (of_Z 10) |};
    {| key := "margin_total"; scale := "linear";
       minValue := Some (of_Z 0); maxValue := None |};
    {| key := "douyin_search"; scale := "linear";
       minValue := Some (of_Z 0); maxValue := None |};
    {| key := "crowding_z"; scale := "linear";
       minValue := Some (of_Z (-3)); maxValue := Some (of_Z 3) |};
    {| key := "hs300_amplitude"; scale := "linear";
       minValue := Some (of_Z 0); maxValue := Some (of_Z 10) |} ].

Section Series.
Context `{Host}.

(** The memo [chartData].  The elements of an array can be [undefined]
    ([None]).  The points are objects, for which [===] is identity: when
    it holds in [downsampleEven], storing the same reference again changes
    nothing, so the test is taken to be false. *)
Definition chartData (filtered : list Dashboard.row) (view : string)
  (maxPoints : nat) : res (list (option chart_point)) :=
  bind (Dashboard.aggregateByPeriod filtered view) (fun agg =>
  bind (mapM (fun d =>
          bind (toISOString_slice10 (Dashboard.date d)) (fun s =>
          Ok {| date := s;
                escape := Dashboard.escape_index_0_100 d;
                hs300_close := Dashboard.hs300_close d;
                shanghai_close := Dashboard.shanghai_close d;
                raw := Dashboard.raw d;
                overlay := [] |})) agg) (fun series =>
  Ok (Dashboard.downsampleEven None (fun _ _ => false) (map Some series)
        maxPoints))).

(** [Math.log]. *)
Variable Math_log : number -> number.

(** [d.raw?.[overlayKey]]; reading [raw] of [undefined] throws. *)
Definition raw_value (overlayKey : string) (d : option chart_point) : res jsval :=
  match d with
  | Some p => Ok (get (raw p) overlayKey)
  | None => Throw "TypeError: Cannot read properties of undefined (reading 'raw')"
  end.

(** [v === null || v === undefined || isNaN(v)] *)
Definition missing (v : jsval) : bool :=
  strict_eq v VNull || strict_eq v VUndef || isNaN v.

Fixpoint assoc_set (k : string) (v : cell) (l : list (string * cell))
  : list (string * cell) :=
  match l with
  | [] => [(k, v)]
  | (k', v') :: l' =>
      if String.eqb k' k then (k, v) :: l' else (k', v') :: assoc_set k v l'
  end.

(** [{ ...d, [overlayKey]: v }] *)
Definition with_overlay (d : chart_point) (overlayKey : string) (v : cell)
  : chart_point :=
  if String.eqb overlayKey "hs300_close" then
    {| date := date d; escape := escape d; hs300_close := v;
       shanghai_close := shanghai_close d; raw := raw d; overlay := overlay d |}
  else if String.eqb overlayKey "shanghai_close" then
    {| date := date d; escape := escape d; hs300_close := hs300_close d;
       shanghai_close := v; raw := raw d; overlay := overlay d |}
  else
    {| date := date d; escape := escape d; hs300_close := hs300_close d;
       shanghai_close := shanghai_close d; raw := raw d;
       overlay := assoc_set overlayKey v (overlay d) |}.

(** [a || b] on an option value of the table and a number. *)
Definition or_number (a : option number) (b : number) : number :=
  match a with
  | Some n => if truthy n then n else b
  | None => b
  end.

(** [a !== null ? a : b] *)
Definition unless_null (a : option number) (b : number) : number :=
  match a with
  | Some n => n
  | None => b
  end.

Definition normalizedValue (option : overlay_option) (range_min range_max : number)
  (rawValue : jsval) : number :=
  if String.eqb (scale option) "log" then
    let minVal := Math_max (or_number (minValue option) (of_ratio 1 10)) range_min in
    let maxVal := or_number (maxValue option) range_max in
    div (sub (Math_log (ToNumber rawValue)) (Math_log minVal))
        (sub (Math_log maxVal) (Math_log minVal))
  else
    let minVal := unless_null (minValue option) range_min in
    let maxVal := unless_null (maxValue option) range_max in
    div (sub (ToNumber rawValue) minVal) (sub maxVal minVal).

(** [Math.max(0, Math.min(100, x))] *)
Definition clamp100 (x : number) : number :=
  Math_max (of_Z 0) (Math_min (of_Z 100) x).

(** The body of [selectedOverlays.forEach]. *)
Definition apply_overlay (chartData processedData : list (option chart_point))
  (overlayKey : string) : res (list (option chart_point)) :=
  match List.find (fun opt => String.eqb (key opt) overlayKey) OVERLAY_OPTIONS with
  | None => Ok processedData
  | Some option =>
      bind (mapM (raw_value overlayKey) chartData) (fun raws =>
      let values := List.filter (fun v => negb (missing v)) raws in
      if (length values =? 0)%nat then Ok processedData
      else
        let range_min := Math_min_list (map ToNumber values) in
        let range_max := Math_max_list (map ToNumber values) in
        mapM (fun d =>
          bind (raw_value overlayKey d) (fun rawValue =>
          match d with
          | None => Throw "TypeError"
          | Some p =>
              if missing rawValue then Ok (Some (with_overlay p overlayKey Null))
              else
                Ok (Some (with_overlay p overlayKey
                      (Num (clamp100
                         (mul (normalizedValue option range_min range_max rawValue)
                              (of_Z 100))))))
          end)) processedData)
  end.

Fixpoint apply_overlays (chartData processedData : list (option chart_point))
  (selected : list string) : res (list (option chart_point)) :=
  match selected with
  | [] => Ok processedData
  | overlayKey :: rest =>
      bind (apply_overlay chartData processedData overlayKey) (fun processedData =>
      apply_overlays chartData processedData rest)
  end.

Definition processedChartData (chartData : list (option chart_point))
  (selectedOverlays : list string) : res (list (option chart_point)) :=
  if (length selectedOverlays =? 0)%nat then Ok chartData
  else apply_overlays chartData chartData selectedOverlays.

End Series.

(** The value stored under [k] by [with_overlay]. *)
Definition overlay_value (d : chart_point) (k : string) : option cell :=
  if String.eqb k "hs300_close" then Some (hs300_close d)
  else if String.eqb k "shanghai_close" then Some (shanghai_close d)
  else
    match List.find (fun kv => String.eqb (fst kv) k) (overlay d) with
    | Some kv => Some (snd kv)
    | None => None
    end.

End Chart.

(** ** [StatisticsPanel] *)

Module Stats.
Import JSNum JSVal.

Record stats : Type := {
  current : number;
  min : cell;
  max : cell;
  avg : number;
  median : cell;
  percentile90 : cell;
  percentile75 : cell;
  percentile25 : cell;
  percentile10 : cell
}.

(** [v !== null] *)
Definition not_null (c : cell) : bool :=
  match c with
  | Null => false
  | _ => true
  end.

(** The number a cell behaves as under [+] and [-]. *)
Definition cell_number (c : cell) : number :=
  match c with
  | Num n => n
  | Null => pzero
  | Absent => NaN
  end.

(** [sort((a, b) => a - b)]: stable, [undefined] elements go last without
    being compared. *)
Fixpoint insert_number (x : number) (l : list number) : list number :=
  match l with
  | [] => [x]
  | y :: l' =>
      if gt (sub x y) pzero then y :: insert_number x l' else x :: y :: l'
  end.

Definition numbers_of (l : list cell) : list number :=
  omap (fun c => match c with Num n => Some n | _ => None end) l.

Definition sort_cells (l : list cell) : list cell :=
  map Num (fold_right insert_number [] (numbers_of l))
  ++ List.filter (fun c => match c with Absent => true | _ => false end) l.

(** [sorted[Math.floor(x)]] *)
Definition at_floor (sorted : list cell) (x : number) : cell :=
  match to_Z (Math_floor x) with
  | Some i =>
      if (i <? 0)%Z then Absent
      else match sorted !! Z.to_nat i with
           | Some c => c
           | None => Absent
           end
  | None => Absent
  end.

(** The memo [stats]; [None] is its [null]. *)
Definition compute_stats (data : list Dashboard.row) (latestData : Dashboard.row)
  : option stats :=
  let values := List.filter not_null (map Dashboard.escape_index_0_100 data) in
  if (length values =? 0)%nat then None
  else
    let sorted := sort_cells values in
    let len := of_Z (Z.of_nat (length sorted)) in
    Some {|
      current := or_zero (Dashboard.escape_index_0_100 latestData);
      min := at_floor sorted pzero;
      max := at_floor sorted (of_Z (Z.of_nat (length sorted) - 1));
      avg := div (fold_left (fun a b => add a (cell_number b)) values pzero)
                 (of_Z (Z.of_nat (length values)));
      median := at_floor sorted (div len (of_Z 2));
      percentile90 := at_floor sorted (mul len (of_ratio 9 10));
      percentile75 := at_floor sorted (mul len (of_ratio 3 4));
      percentile25 := at_floor sorted (mul len (of_ratio 1 4));
      percentile10 := at_floor sorted (mul len (of_ratio 1 10))
    |}.

Record risk : Type := { level : string; color : string; bg : string }.

Definition getRiskLevel (value : number) : risk :=
  if ge value (of_Z 80) then
    {| level := "极高风险"; color := "text-red-600"; bg := "bg-red-50" |}
  else if ge value (of_Z 70) then
    {| level := "高风险"; color := "text-orange-600"; bg := "bg-orange-50" |}
  else if ge value (of_Z 60) then
    {| level := "中等风险"; color := "text-yellow-600"; bg := "bg-yellow-50" |}
  else if ge value (of_Z 40) then
    {| level := "低风险"; color := "text-blue-600"; bg := "bg-blue-50" |}
  else
    {| level := "极低风险"; color := "text-green-600"; bg := "bg-green-50" |}.

End Stats.

(** ** [generateMockData] *)

Module Mock.
Import JSNum JSVal.

(** The cells of a generated row that depend on the index; the other
    cells are independent random draws. *)
Record mock_row : Type := {
  escape_index_0_100 : number;
  escape_signal : string;
  escape_level : string
}.

(** What the host gives the generator: [Math.sin] of a finite number is
    a Number from -1 to 1, and [Math.random()] is a Number from 0
    inclusive to 1 exclusive. *)
Definition is_sine (x : number) : bool :=
  valid_binary prec emax x && le (of_Z (-1)) x && le x (of_Z 1).

Definition is_random (x : number) : bool :=
  valid_binary prec emax x && le (of_Z 0) x && lt x (of_Z 1).

(** [sine] is the value of [Math.sin(...)] for the day, [random] the draw
    of [Math.random()] for the noise. *)
Definition baseIndex (sine : number) : number :=
  add (of_Z 30) (mul sine (of_Z 20)).

Definition noise (random : number) : number :=
  mul (sub random (of_ratio 1 2)) (of_Z 10).

Definition escapeIndex (sine random : number) : number :=
  Math_max (of_Z 0) (Math_min (of_Z 100) (add (baseIndex sine) (noise random))).

(** The three cells, from the value of [escapeIndex]. *)
Definition index_cells (escapeIndex : number) : mock_row :=
  {| escape_index_0_100 :=
       div (Math_round (mul escapeIndex (of_Z 100))) (of_Z 100);
     escape_signal := if gt escapeIndex (of_Z 70) then "1" else "0";
     escape_level :=
       if gt escapeIndex (of_Z 80) then "极高风险"
       else if gt escapeIndex (of_Z 60) then "高风险"
       else if gt escapeIndex (of_Z 40) then "中等风险"
       else "低风险" |}.

Definition generate_cells (sine random : number) : mock_row :=
  index_cells (escapeIndex sine random).


End Mock.

(** ** A host for running the functions

    Decimal literals without exponent for [StringToNumber], date-only ISO
    strings for [Date.parse], and China Standard Time (UTC+8). *)

Module DemoHost.
Import JSNum JSVal JSDate.

Fixpoint split_dot (l : list ascii) : list ascii * option (list ascii) :=
  match l with
  | [] => ([], None)
  | a :: l' =>
      if Ascii.eqb a "."%char then ([], Some l')
      else let '(i, f) := split_dot l' in (a :: i, f)
  end.

Definition decimal_literal (s : string) : number :=
  match list_ascii_of_string (trim s) with
  | [] => pzero
  | l =>
      let '(neg, body) :=
        match l with
        | "-"%char :: r => (true, r)
        | "+"%char :: r => (false, r)
        | _ => (false, l)
        end in
      let '(ip, fp) := split_dot body in
      let fp := match fp with Some f => f | None => [] end in
      match ip ++ fp with
      | [] => NaN
      | _ =>
          match digits ip 0, digits fp 0 with
          | Some a, Some b =>
              let k := Z.of_nat (length fp) in
              match (a * 10 ^ k + b)%Z with
              | Zpos m => of_ratio (cond_Zopp neg (Zpos m)) (Z.to_pos (10 ^ k))
              | _ => S754_zero neg
              end
          | _, _ => NaN
          end
      end
  end.

(** China Standard Time: eight hours ahead of UTC all year. *)
Definition cst : Host := {|
  StringToNumber := decimal_literal;
  Date_parse := parse_iso_date;
  LocalTZA := fun _ _ => 28800000%Z
|}.

(** A zone five hours behind UTC all year. *)
Definition est : Host := {|
  StringToNumber := decimal_literal;
  Date_parse := parse_iso_date;
  LocalTZA := fun _ _ => (-18000000)%Z
|}.

(** New York around the end of daylight saving in 2024: four hours
    behind UTC until 2024-11-03 06:00 UTC, which is 02:00 local time, and
    five hours behind from then on. *)
Definition new_york : Host := {|
  StringToNumber := decimal_literal;
  Date_parse := parse_iso_date;
  LocalTZA := fun t isUTC =>
    if isUTC then (if t <? 1730613600000 then -14400000 else -18000000)%Z
    else (if t <? 1730599200000 then -14400000 else -18000000)%Z
|}.

End DemoHost.

(** ** The arrays as mutable objects

    [downsampleEven] and [aggregateByPeriod] build their results by
    mutation: [push], an assignment to the last element, [sort] in place,
    and arrays shared with a [Map].  Here the arrays live in a store and a
    variable holds a reference, so that the effect of a call on the arrays
    that existed before it can be stated. *)

Module Imperative.
Import JSNum JSVal Dashboard.

Definition ref : Type := nat.

(** The arrays allocated so far; a reference is a position. *)
Abbreviation store A := (list (list A)).

Definition St (A B : Type) : Type := store A -> B * store A.

Section Store.
Context {A : Type}.

Definition ret {B} (b : B) : St A B := fun h => (b, h).

Definition st_bind {B C} (m : St A B) (k : B -> St A C) : St A C :=
  fun h => let '(b, h') := m h in k b h'.

(** [[]]: a new empty array. *)
Definition alloc : St A ref := fun h => (length h, h ++ [[]]).

(** The elements of an array. *)
Definition read (r : ref) : St A (list A) :=
  fun h => (match h !! r with Some l => l | None => [] end, h).

(** A mutation of an array in place. *)
Definition update (r : ref) (f : list A -> list A) : St A unit :=
  fun h => (tt, alter f r h).

Definition push (r : ref) (x : A) : St A unit := update r (fun l => l ++ [x]).

Fixpoint for_each {B} (l : list B) (body : B -> St A unit) : St A unit :=
  match l with
  | [] => ret tt
  | b :: l' => st_bind (body b) (fun _ => for_each l' body)
  end.

End Store.

Notation "'let*' x ':=' m 'in' k" := (st_bind m (fun x => k))
  (at level 10, x name, m at level 100, k at level 200).

Section Downsample.
Context {A : Type}.
Variable undef : A.
Variable same : A -> A -> bool.

Definition downsampleEven (data : ref) (target : nat) : St A ref :=
  let* d := read data in
  let n := length d in
  if (n <=? target)%nat then ret data
  else
    let* out := alloc in
    let* _ := for_each (seq 0 target) (fun i =>
                let* d := read data in
                push out (index undef d (i * n / target)%nat)) in
    let* o := read out in
    let* d := read data in
    let* _ := (if negb (same (last_elem undef o) (index undef d (n - 1)%nat))
               then update out (fun o => set_last o (index undef d (n - 1)%nat))
               else ret tt) in
    ret out.

End Downsample.

Section Aggregate.
Context `{Host}.

(** The [Map]: its keys in insertion order, each with the reference of
    its array. *)
Definition groups : Type := list (option string * ref).

Fixpoint map_get (key : option string) (m : groups) : option ref :=
  match m with
  | [] => None
  | (k, r) :: m' => if key_eqb k key then Some r else map_get key m'
  end.

Fixpoint map_set (key : option string) (arr : ref) (m : groups) : groups :=
  match m with
  | [] => [(key, arr)]
  | (k, r) :: m' =>
      if key_eqb k key then (k, arr) :: m' else (k, r) :: map_set key arr m'
  end.

(** [map.get(key) || []] *)
Definition get_or_new (key : option string) (m : groups) : St row ref :=
  match map_get key m with
  | Some arr => ret arr
  | None => alloc
  end.

Fixpoint group_loop (period : string) (data : list row) (m : groups)
  : St row (res groups) :=
  match data with
  | [] => ret (Ok m)
  | d :: data' =>
      match period_key period d with
      | Throw e => ret (Throw e)
      | Ok key =>
          let* arr := get_or_new key m in
          let* _ := push arr d in
          group_loop period data' (map_set key arr m)
      end
  end.

Fixpoint point_loop (m : groups) (out : ref) : St row (res unit) :=
  match m with
  | [] => ret (Ok tt)
  | (_, arr) :: m' =>
      let* a := read arr in
      match aggregate_point a with
      | Throw e => ret (Throw e)
      | Ok p =>
          let* _ := push out p in
          point_loop m' out
      end
  end.

Definition aggregateByPeriod (data : ref) (period : string)
  : St row (res ref) :=
  if String.eqb period "day" then ret (Ok data)
  else
    let* d := read data in
    let* gr := group_loop period d [] in
    match gr with
    | Throw e => ret (Throw e)
    | Ok m =>
        let* out := alloc in
        let* pr := point_loop m out in
        match pr with
        | Throw e => ret (Throw e)
        | Ok _ =>
            let* _ := update out sort_by_date in
            ret (Ok out)
        end
    end.

End Aggregate.

(** The references that [group_loop] gives to the groups it creates from
    a store of [base] arrays: consecutive, from [base] on. *)
Fixpoint number_from (base : nat) (m : list (option string * list row)) : groups :=
  match m with
  | [] => []
  | (k, _) :: m' => (k, base) :: number_from (S base) m'
  end.

(** The elements of the array a call returned, in the store it left. *)
Definition contents {A} (r : ref * store A) : option (list A) :=
  snd r !! fst r.

Definition contents_res {A} (r : res ref * store A) : res (option (list A)) :=
  match fst r with
  | Ok out => Ok (snd r !! out)
  | Throw e => Throw e
  end.

End Imperative.

(** ** The other routes of the server and its access log *)

Module Routes.
Import JSNum JSVal Server.
Local Open Scope Z_scope.

(** What [getClientIP] reads of a request.  A header or an address that
    is not there is [undefined] ([None]); [connection_socket] is the
    object [req.connection.socket] with its [remoteAddress], which a
    connection may not have. *)
Record request : Type := {
  x_forwarded_for : option string;
  x_real_ip : option string;
  x_client_ip : option string;
  connection_remoteAddress : option string;
  socket_remoteAddress : option string;
  connection_socket : option (option string)
}.

(** [ToBoolean] on a string or [undefined]. *)
Definition truthy_string (s : option string) : bool :=
  match s with
  | Some s => negb (String.eqb s "")
  | None => false
  end.

(** [a || rest] *)
Definition or_string (a : option string) (rest : res string) : res string :=
  match a with
  | Some s => if String.eqb s "" then rest else Ok s
  | None => rest
  end.

(** [s.split(',')[0]] *)
Fixpoint before_comma (l : list ascii) : list ascii :=
  match l with
  | [] => []
  | a :: l' => if Ascii.eqb a ","%char then [] else a :: before_comma l'
  end.

Definition first_segment (s : string) : string :=
  string_of_list_ascii (before_comma (list_ascii_of_string s)).

(** Reading [remoteAddress] of [undefined] throws. *)
Definition getClientIP (req : request) : res string :=
  bind
    (or_string (x_forwarded_for req)
    (or_string (x_real_ip req)
    (or_string (x_client_ip req)
    (or_string (connection_remoteAddress req)
    (or_string (socket_remoteAddress req)
       (match connection_socket req with
        | Some address => or_string address (Ok "未知IP")
        | None =>
            Throw "TypeError: Cannot read properties of undefined (reading 'remoteAddress')"
        end))))))
    (fun s => Ok (trim (first_segment s))).

(** The module-level variables and the constant [startTime], in
    milliseconds.  Times are integers below 2^53, on which the arithmetic
    of Numbers is exact. *)
Record server : Type := {
  vars : Server.state;
  startTime : Z
}.

Inductive route : Type :=
| ApiData
| ApiStats
| Health.

(** Hours, minutes and seconds of [/api/stats]: [Math.floor] of a
    quotient, and [%], which takes the sign of the dividend. *)
Definition uptime_parts (uptime : Z) : Z * Z * Z :=
  (uptime / (1000 * 60 * 60),
   Z.rem uptime (1000 * 60 * 60) / (1000 * 60),
   Z.rem uptime (1000 * 60) / 1000).

Definition uptime_text (uptime : Z) : string :=
  let '(h, m, s) := uptime_parts uptime in
  (pretty h ++ "小时" ++ pretty m ++ "分" ++ pretty s ++ "秒")%string.

Record stats_payload : Type := {
  totalAccess : nat;
  uptime : string;
  cachedDataCount : nat;
  cachedDataAvailable : bool
}.

Record health_payload : Type := {
  health_uptime : Z;
  health_accessCount : nat;
  dataCached : bool
}.

Inductive reply : Type :=
| DataReply (r : response)
| StatsReply (s : stats_payload)
| HealthReply (h : health_payload)
| Unhandled (err : string).

(** The middleware: the address is read first, then the counter is
    incremented; an exception goes to the error handler of the framework
    and the route is not reached. *)
Definition accessLogger (req : request) (s : server) : res server :=
  bind (getClientIP req) (fun _ =>
    Ok {| vars := {| cachedData := cachedData (vars s);
                     accessCount := S (accessCount (vars s)) |};
          startTime := startTime s |}).

Definition api_stats (now : Z) (s : server) : stats_payload :=
  {| totalAccess := accessCount (vars s);
     uptime := uptime_text (now - startTime s);
     cachedDataCount :=
       match cachedData (vars s) with
       | Some rows => length rows
       | None => 0%nat
       end;
     cachedDataAvailable :=
       match cachedData (vars s) with
       | Some rows => (0 <? length rows)%nat
       | None => false
       end |}.

Definition health (now : Z) (s : server) : health_payload :=
  {| health_uptime := now - startTime s;
     health_accessCount := accessCount (vars s);
     dataCached :=
       match cachedData (vars s) with
       | Some _ => true
       | None => false
       end |}.

(** One request: the middleware, then the route.  [now] is [Date.now()]. *)
Definition handle (now : Z) (req : request) (r : route) (s : server)
  : server * reply :=
  match accessLogger req s with
  | Throw e => (s, Unhandled e)
  | Ok s' =>
      (s', match r with
           | ApiData => DataReply (api_data (vars s'))
           | ApiStats => StatsReply (api_stats now s')
           | Health => HealthReply (health now s')
           end)
  end.

(** A run of requests. *)
Fixpoint serve (reqs : list (Z * request * route)) (s : server)
  : server * list reply :=
  match reqs with
  | [] => (s, [])
  | (now, req, r) :: reqs' =>
      let '(s', a) := handle now req r s in
      let '(s'', l) := serve reqs' s' in
      (s'', a :: l)
  end.

End Routes.

(** ** [update-data.js] *)

Module UpdateData.
Import JSNum JSVal Server.

(** What [JSON.stringify] and [JSON.parse] make of a cell: [undefined] in
    an array and a number that is not finite become [null], [-0] becomes
    [0]. *)
Definition jsonify_cell (v : jsval) : jsval :=
  match v with
  | VUndef => VNull
  | VNum n =>
      match n with
      | S754_zero _ => VNum pzero
      | S754_finite _ _ _ => VNum n
      | _ => VNull
      end
  | _ => v
  end.

(** In an object a property whose value is [undefined] is left out. *)
Definition jsonify_object (o : object) : object :=
  omap (fun kv => match snd kv with
                  | VUndef => None
                  | v => Some (fst kv, jsonify_cell v)
                  end) o.

Definition jsonify (b : body) : body :=
  match b with
  | Columnar status columns data count =>
      Columnar status columns (map (map jsonify_cell) data) count
  | Rows status data count => Rows status (map jsonify_object data) count
  | Failure status message => Failure status message
  end.

(** The outcome of [fetch] and [response.json()]: a rejected request, or a
    status with the decoded body ([None] when the body is not JSON). *)
Inductive fetched : Type :=
| FetchRejected
| Response (status : nat) (data : option body).

(** A response of the server as the script receives it. *)
Definition over_the_wire (r : response) : fetched :=
  Response (code r) (Some (jsonify (json r))).

(** [response.ok] *)
Definition ok (status : nat) : bool := (200 <=? status)%nat && (status <=? 299)%nat.

(** [data && data.columns && data.data]: arrays are truthy. *)
Definition well_formed (data : body) : bool :=
  match data with
  | Columnar _ _ _ _ => true
  | Rows _ _ _ | Failure _ _ => false
  end.

(** [updateLocalData]: its result and the content of the local file
    afterwards ([None]: no file); the file system calls are taken to
    succeed. *)
Definition updateLocalData (f : fetched) (local : option body)
  : bool * option body :=
  match f with
  | Response status (Some data) =>
      if ok status && well_formed data then (true, Some data)
      else (match local with Some _ => true | None => false end, local)
  | _ => (match local with Some _ => true | None => false end, local)
  end.

(** The exit code of [main]. *)
Definition main (f : fetched) (local : option body) : nat * option body :=
  let '(success, local') := updateLocalData f local in
  (if success then 0 else 1, local').

End UpdateData.

(** ** The derived state of the dashboard *)

Module View.
Import JSNum JSVal JSDate Dashboard.

(** [a >= b] on two dates. *)
Definition date_ge (a b : jsdate) : bool :=
  match a, b with
  | Some x, Some y => (y <=? x)%Z
  | _, _ => false
  end.

Section WithHost.
Context `{Host}.

(** [range ? new Date(range) : row.date], where [row] is an element of
    [rawData] that may be [undefined]. *)
Definition bound (range : option string) (row : option row) : res jsdate :=
  match range with
  | Some s =>
      if String.eqb s "" then
        match row with
        | Some r => Ok (date r)
        | None => Throw "TypeError: Cannot read properties of undefined (reading 'date')"
        end
      else Ok (Date_new (VStr s))
  | None =>
      match row with
      | Some r => Ok (date r)
      | None => Throw "TypeError: Cannot read properties of undefined (reading 'date')"
      end
  end.

(** The memo [filtered]. *)
Definition filtered (rawData : option (list row)) (rangeStart rangeEnd : option string)
  : res (option (list row)) :=
  match rawData with
  | None => Ok None
  | Some rawData =>
      bind (bound rangeStart (head rawData)) (fun start =>
      bind (bound rangeEnd (last rawData)) (fun end_ =>
      Ok (Some (List.filter
                  (fun r => date_ge (date r) start && date_ge end_ (date r))
                  rawData))))
  end.

End WithHost.

(** The memo [latestSummary]; the last element of an empty array is
    [undefined]. *)
Definition latestSummary (rawData : option (list row)) : option row :=
  match rawData with
  | None => None
  | Some rawData => last rawData
  end.

Record trend : Type := {
  change : number;
  changePercent : number;
  trend_name : string;
  direction : string
}.

(** [data.slice(-days)]; [slice(-0)] is the whole array. *)
Definition slice_last (data : list row) (days : nat) : list row :=
  match days with
  | O => data
  | _ => drop (length data - days) data
  end.

(** [calculateTrend]; [None] is its [null]. *)
Definition calculateTrend (data : list row) (days : nat) : res (option trend) :=
  if (length data <? days)%nat then Ok None
  else
    let recent := slice_last data days in
    match head recent, last recent with
    | Some f, Some l =>
        let first := or_zero (escape_index_0_100 f) in
        let last := or_zero (escape_index_0_100 l) in
        let change := sub last first in
        Ok (Some {|
          change := change;
          changePercent :=
            if gt first (of_Z 0) then mul (div change first) (of_Z 100)
            else of_Z 0;
          trend_name :=
            if gt change (of_Z 0) then "up"
            else if lt change (of_Z 0) then "down" else "flat";
          direction :=
            if gt change (of_Z 0) then "上升"
            else if lt change (of_Z 0) then "下降" else "持平" |})
    | _, _ =>
        Throw "TypeError: Cannot read properties of undefined (reading 'escape_index_0_100')"
    end.

(** [handleOverlayToggle] of the selector builds the new list, and
    [handleOverlayChange] of the dashboard refuses more than three. *)
Definition handleOverlayToggle (selectedOverlays : list string) (key : string)
  : list string :=
  if existsb (String.eqb key) selectedOverlays
  then List.filter (fun k => negb (String.eqb k key)) selectedOverlays
  else selectedOverlays ++ [key].

Definition handleOverlayChange (selectedOverlays newOverlays : list string)
  : list string :=
  if (3 <? length newOverlays)%nat then selectedOverlays else newOverlays.

(** A click on an overlay in the selector. *)
Definition click (selectedOverlays : list string) (key : string) : list string :=
  handleOverlayChange selectedOverlays (handleOverlayToggle selectedOverlays key).

End View.

(** ** [MarketSentimentPanel] *)

Module Sentiment.
Import JSNum JSVal Dashboard.

(** [v !== null && v !== undefined] *)
Definition has_value (c : cell) : bool :=
  match c with
  | Num _ => true
  | Null | Absent => false
  end.

(** [findPrevWithValue(key)]: [i] runs from [idx - 1] down to 0; [field]
    reads the property [key] of a row.  The argument [idx] is the number
    of rows before [latestData]. *)
Fixpoint findPrevWithValue (field : row -> cell) (data : list row) (idx : nat)
  : res cell :=
  match idx with
  | O => Ok Null
  | S i =>
      match data !! i with
      | Some d =>
          if has_value (field d) then Ok (field d)
          else findPrevWithValue field data i
      | None => Throw "TypeError: Cannot read properties of undefined"
      end
  end.

Record change_of : Type := {
  change : number;
  percent : number;
  trend : string
}.

Definition calculateChange (currentVal prevVal : cell) : change_of :=
  match currentVal, prevVal with
  | Num c, Num p =>
      let change := sub c p in
      {| change := change;
         percent :=
           if negb (JSNum.strict_eq p (of_Z 0)) then mul (div change p) (of_Z 100)
           else of_Z 0;
         trend :=
           if gt change (of_Z 0) then "up"
           else if lt change (of_Z 0) then "down" else "flat" |}
  | _, _ => {| change := of_Z 0; percent := of_Z 0; trend := "flat" |}
  end.

Record sentiment : Type := {
  douyin : change_of;
  margin : change_of;
  turnover : change_of;
  crowding : change_of
}.

(** The memo [sentiment], for [latestData] at position [idx] of [data]. *)
Definition compute_sentiment (data : list row) (latestData : row) (idx : nat)
  : res sentiment :=
  bind (findPrevWithValue douyin_search data idx) (fun d =>
  bind (findPrevWithValue margin_total data idx) (fun m =>
  bind (findPrevWithValue hs300_turnover_rate data idx) (fun t =>
  bind (findPrevWithValue crowding_z data idx) (fun c =>
  Ok {| douyin := calculateChange (douyin_search latestData) d;
        margin := calculateChange (margin_total latestData) m;
        turnover := calculateChange (hs300_turnover_rate latestData) t;
        crowding := calculateChange (crowding_z latestData) c |})))).

(** [[...filtered].reverse().find(d => d.douyin_search !== null &&
    d.douyin_search !== undefined)], with the position of the row found. *)
Fixpoint latest_with_douyin (filtered : list row) : option (nat * row) :=
  match filtered with
  | [] => None
  | d :: rest =>
      match latest_with_douyin rest with
      | Some (i, r) => Some (S i, r)
      | None => if has_value (douyin_search d) then Some (O, d) else None
      end
  end.

End Sentiment.

(** ** Auxiliary definitions for the theorems *)

(** The order of the numbers, through integer keys. *)
Module NumOrder.
Import JSNum.
Local Open Scope Z_scope.

(** A number that is not NaN, as a triple ordered lexicographically: its
    class (infinities, finite of either sign, zero), then the exponent and
    the mantissa of a finite value, negated for a negative one. *)
Definition key (a : number) : option (Z * Z * Z) :=
  match a with
  | S754_nan => None
  | S754_zero _ => Some (0, 0, 0)
  | S754_infinity false => Some (2, 0, 0)
  | S754_infinity true => Some (-2, 0, 0)
  | S754_finite false m e => Some (1, e, Zpos m)
  | S754_finite true m e => Some (-1, - e, Zneg m)
  end.

Definition lex3 (x y : Z * Z * Z) : comparison :=
  let '(x1, x2, x3) := x in
  let '(y1, y2, y3) := y in
  match x1 ?= y1 with
  | Eq => match x2 ?= y2 with
          | Eq => x3 ?= y3
          | c => c
          end
  | c => c
  end.

Definition lexlt (x y : Z * Z * Z) : Prop :=
  let '(x1, x2, x3) := x in
  let '(y1, y2, y3) := y in
  x1 < y1 \/ (x1 = y1 /\ (x2 < y2 \/ (x2 = y2 /\ x3 < y3))).

(** [Math.max(lo, Math.min(hi, x))] *)
Definition clamp (lo hi x : number) : number := Math_max lo (Math_min hi x).

End NumOrder.

(** The tier lookup in the words of the specification. *)
Module SpecTiers.
Import JSNum.

(** The ordered lookup of the specification: the tier of a value is the
    number of breakpoints it has reached. *)
Definition tier_lookup (breakpoints : list number) (value : number) : nat :=
  length (List.filter (fun b => ge value b) breakpoints).

(** The tiers of [getRiskLevel], lowest first. *)
Definition rank (level : string) : nat :=
  if String.eqb level "极高风险" then 4
  else if String.eqb level "高风险" then 3
  else if String.eqb level "中等风险" then 2
  else if String.eqb level "低风险" then 1
  else 0.

Definition panel_breakpoints : list number := [of_Z 40; of_Z 60; of_Z 70; of_Z 80].
Definition spec_breakpoints : list number := [of_Z 40; of_Z 60; of_Z 75; of_Z 85].

End SpecTiers.

(** Strictly increasing positions in a list. *)
Module Positions.

(** Indices that increase strictly, starting at [k] or later. *)
Fixpoint inc_from (k : nat) (l : list nat) : Prop :=
  match l with
  | [] => True
  | i :: l' => k <= i /\ inc_from (S i) l'
  end.

End Positions.

(** Tables used as examples. *)
Module Samples.
Import JSVal.

(** A row with 0 written in place of a missing index. *)
Definition zero_fill (x : Dashboard.row) : Dashboard.row :=
  {| Dashboard.date := Dashboard.date x;
     Dashboard.dateStr := Dashboard.dateStr x;
     Dashboard.hs300_close := Dashboard.hs300_close x;
     Dashboard.shanghai_close := Dashboard.shanghai_close x;
     Dashboard.hs300_ret := Dashboard.hs300_ret x;
     Dashboard.hs300_turnover_log := Dashboard.hs300_turnover_log x;
     Dashboard.hs300_amplitude := Dashboard.hs300_amplitude x;
     Dashboard.hs300_turnover_rate := Dashboard.hs300_turnover_rate x;
     Dashboard.margin_total := Dashboard.margin_total x;
     Dashboard.douyin_search := Dashboard.douyin_search x;
     Dashboard.crowding_z := Dashboard.crowding_z x;
     Dashboard.escape_index_0_100 := Num (or_zero (Dashboard.escape_index_0_100 x));
     Dashboard.escape_signal := Dashboard.escape_signal x;
     Dashboard.escape_level := Dashboard.escape_level x;
     Dashboard.raw := Dashboard.raw x |}.

(** A table in which the second row has a cell beyond the header;
    [csv-parser] names it [_1]. *)
Definition ragged : list object :=
  [ [("date", VStr "2024-01-02")];
    [("date", VStr "2024-01-03"); ("_1", VStr "61.5")] ].

(** One fully populated row, one row without the sentiment proxy, one row
    whose derived cells are empty. *)
Definition three_rows : list object :=
  [ [("日期", VStr "2024-01-02"); ("hs300_close", VStr "3386.35");
     ("douyin_search", VStr "120000"); ("crowding_z", VStr "0.42");
     ("escape_index_0_100", VStr "41.27"); ("escape_signal", VStr "0");
     ("escape_level", VStr "低风险")];
    [("日期", VStr "2024-01-03"); ("hs300_close", VStr "3378.32");
     ("douyin_search", VStr ""); ("crowding_z", VStr "0.40");
     ("escape_index_0_100", VStr "40.95"); ("escape_signal", VStr "0");
     ("escape_level", VStr "低风险")];
    [("日期", VStr "2024-01-04"); ("hs300_close", VStr "3347.05");
     ("douyin_search", VStr "98000"); ("crowding_z", VStr "");
     ("escape_index_0_100", VStr ""); ("escape_signal", VStr "");
     ("escape_level", VStr "")] ].

(** A table whose second row has no date cell. *)
Definition undated_rows : list object :=
  [ [("日期", VStr "2024-01-02"); ("escape_index_0_100", VStr "41.27")];
    [("escape_index_0_100", VStr "40.95")];
    [("日期", VStr "2024-01-04"); ("escape_index_0_100", VStr "39.80")] ].

(** Two days on which the sentiment proxy is recorded as 0. *)
Definition flat_rows : list object :=
  [ [("日期", VStr "2015-01-05"); ("douyin_search", VStr "0");
     ("escape_index_0_100", VStr "35.20")];
    [("日期", VStr "2015-01-06"); ("douyin_search", VStr "0");
     ("escape_index_0_100", VStr "36.10")] ].

(** Two days of one month, the second without an index. *)
Definition gap_rows : list object :=
  [ [("日期", VStr "2024-01-02"); ("escape_index_0_100", VStr "50")];
    [("日期", VStr "2024-01-03"); ("escape_index_0_100", VStr "")] ].

(** A week in which no day has an index. *)
Definition empty_rows : list object :=
  [ [("日期", VStr "2024-01-02"); ("escape_index_0_100", VStr "")];
    [("日期", VStr "2024-01-03"); ("escape_index_0_100", VStr "")] ].

(** The last day of a month and the first of the next, each read as
    midnight UTC. *)
Definition month_end_rows : list object :=
  [ [("日期", VStr "2024-01-31"); ("escape_index_0_100", VStr "40")];
    [("日期", VStr "2024-02-01"); ("escape_index_0_100", VStr "60")] ].

End Samples.

(** The value of a finite number as a rational, to bound the results
    of arithmetic. *)
Module Dyadic.
Import JSNum.
Local Open Scope Q_scope.

Definition val (a : number) : Q :=
  match a with
  | S754_finite s m e => inject_Z (cond_Zopp s (Zpos m)) * 2 ^ e
  | _ => 0
  end.

(** A zero, or a finite number in the form of the format: 53 digits, or
    fewer at the least exponent. *)
Definition good (a : number) : bool :=
  match a with
  | S754_zero _ => true
  | S754_finite _ m e => bounded prec emax m e
  | _ => false
  end.

(** A shift record at the exponent [e] for the value [X]: its integer is
    the integer part of [X / 2^e], and its two bits are unset exactly
    when nothing was cut off. *)
Definition brackets (mrs : shr_record) (e : Z) (X : Q) : Prop :=
  (0 <= shr_m mrs)%Z
  /\ inject_Z (shr_m mrs) * 2 ^ e <= X
  /\ X < inject_Z (shr_m mrs + 1) * 2 ^ e
  /\ (shr_r mrs || shr_s mrs = false <-> X == inject_Z (shr_m mrs) * 2 ^ e).

(** The published index for the integer [r] that [Math.round] gave. *)
Definition published (r : Z) : number := div (of_Z r) (of_Z 100).

(** [p] holds of the [n] integers from [z] on. *)
Fixpoint all_from (n : nat) (z : Z) (p : Z -> bool) : bool :=
  match n with
  | O => true
  | S n' => if p z then all_from n' (z + 1)%Z p else false
  end.

End Dyadic.

(** Notions used to state the further theorems. *)
Module Notions.
Import JSNum JSVal JSDate Server Routes Dashboard.

(** A request whose client address can be read. *)
Definition counted (q : Z * request * route) : bool :=
  match getClientIP (snd (fst q)) with
  | Ok _ => true
  | Throw _ => false
  end.

(** A request that came through a proxy. *)
Definition browser : request :=
  {| x_forwarded_for := Some "203.0.113.7, 10.0.0.1";
     x_real_ip := None; x_client_ip := None;
     connection_remoteAddress := Some "10.0.0.1";
     socket_remoteAddress := Some "10.0.0.1";
     connection_socket := None |}.

(** [undefined] or the empty string. *)
Definition falsy (a : option string) : Prop := a = None \/ a = Some "".

(** Both rows have a valid date, and the first is not after the second. *)
Definition time_le (a b : row) : Prop :=
  exists ta tb, date a = Some ta /\ date b = Some tb /\ (ta <= tb)%Z.

(** The index of a row is [null] or a finite number, as [parseRow] leaves
    it. *)
Definition finite_index (r : row) : Prop :=
  forall n, escape_index_0_100 r = Num n -> isFinite n = true.

(** A point after the overlays, against the point before. *)
Definition same_point (a b : option Chart.chart_point) : Prop :=
  match a, b with
  | Some p, Some q =>
      Chart.date q = Chart.date p /\ Chart.escape q = Chart.escape p
      /\ Chart.raw q = Chart.raw p
  | None, None => True
  | _, _ => False
  end.

(** A cell that is no number, or a finite one, as [safeNum] leaves it. *)
Definition finite_cell (c : cell) : Prop :=
  forall n, c = Num n -> isFinite n = true.

(** The cells that the sentiment panel reads. *)
Definition finite_cells (r : row) : Prop :=
  finite_cell (douyin_search r) /\ finite_cell (margin_total r)
  /\ finite_cell (hs300_turnover_rate r) /\ finite_cell (crowding_z r).

(** The groups that [aggregateByPeriod] builds from the rows [data]: no
    key twice, every row in one group, no group empty, each holding rows
    of its key in the order of the table. *)
Definition grouped `{Host} (period : string) (data : list row)
  (m : list (option string * list row)) : Prop :=
  NoDup (map fst m)
  /\ concat (map snd m) ≡ₚ data
  /\ Forall (fun g =>
        snd g <> [] /\ snd g `sublist_of` data
        /\ Forall (fun r => period_key period r = Ok (fst g)) (snd g)) m.

End Notions.

(** * Theorems *)

(** ** Order facts on numbers *)

Module NumFacts.
Import JSNum NumOrder.
Local Open Scope Z_scope.

Lemma SFcompare_key (a b : number) :
  SFcompare a b =
  match key a, key b with
  | Some x, Some y => Some (lex3 x y)
  | _, _ => None
  end.
Proof.
  destruct a as [sa|sa| |sa ma ea], b as [sb|sb| |sb mb eb];
    try destruct sa; try destruct sb; try reflexivity; cbn.
  rewrite Z.compare_opp, (Z.compare_antisym ea eb).
  destruct (ea ?= eb); reflexivity.
Qed.

Lemma lex3_spec (x y : Z * Z * Z) :
  match lex3 x y with
  | Lt => lexlt x y
  | Eq => x = y
  | Gt => lexlt y x
  end.
Proof.
  destruct x as [[x1 x2] x3], y as [[y1 y2] y3]. unfold lex3, lexlt.
  destruct (Z.compare_spec x1 y1); [|lia|lia].
  destruct (Z.compare_spec x2 y2); [|lia|lia].
  destruct (Z.compare_spec x3 y3); [congruence|lia|lia].
Qed.

Lemma lexlt_trans x y z : lexlt x y -> lexlt y z -> lexlt x z.
Proof.
  destruct x as [[x1 x2] x3], y as [[y1 y2] y3], z as [[z1 z2] z3].
  unfold lexlt. lia.
Qed.

Lemma lexlt_irrefl x : ~ lexlt x x.
Proof. destruct x as [[x1 x2] x3]. unfold lexlt. lia. Qed.

(** [a < b] and [a <= b] through the keys. *)
Lemma lt_key (a b : number) :
  lt a b = true <-> exists x y, key a = Some x /\ key b = Some y /\ lexlt x y.
Proof.
  unfold lt, SFltb. rewrite SFcompare_key.
  destruct (key a) as [x|], (key b) as [y|];
    try (split; [discriminate|intros (? & ? & ? & ? & ?); discriminate]).
  pose proof (lex3_spec x y) as Hs.
  destruct (lex3 x y).
  - split; [discriminate|]. intros (x' & y' & [= <-] & [= <-] & Hl).
    subst. exfalso. eapply lexlt_irrefl, Hl.
  - split; eauto.
  - split; [discriminate|]. intros (x' & y' & [= <-] & [= <-] & Hl).
    exfalso. eapply lexlt_irrefl, lexlt_trans; eassumption.
Qed.

Lemma le_key (a b : number) :
  le a b = true
  <-> exists x y, key a = Some x /\ key b = Some y /\ (lexlt x y \/ x = y).
Proof.
  unfold le, SFleb. rewrite SFcompare_key.
  destruct (key a) as [x|], (key b) as [y|];
    try (split; [discriminate|intros (? & ? & ? & ? & ?); discriminate]).
  pose proof (lex3_spec x y) as Hs.
  destruct (lex3 x y).
  - split; eauto 6.
  - split; eauto 6.
  - split; [discriminate|]. intros (x' & y' & [= <-] & [= <-] & [Hl| ->]).
    + exfalso. eapply lexlt_irrefl, lexlt_trans; eassumption.
    + exfalso. eapply lexlt_irrefl, Hs.
Qed.

Lemma le_trans (a b c : number) :
  le a b = true -> le b c = true -> le a c = true.
Proof.
  rewrite !le_key.
  intros (x & y & Hx & Hy & Hxy) (y' & z & Hy' & Hz & Hyz).
  rewrite Hy in Hy'. injection Hy' as <-.
  exists x, z. repeat split; try assumption.
  destruct Hxy as [Hxy| ->], Hyz as [Hyz| <-]; eauto using lexlt_trans.
Qed.

Lemma lt_le_trans (a b c : number) :
  lt a b = true -> le b c = true -> lt a c = true.
Proof.
  rewrite !lt_key, le_key.
  intros (x & y & Hx & Hy & Hxy) (y' & z & Hy' & Hz & Hyz).
  rewrite Hy in Hy'. injection Hy' as <-.
  exists x, z. repeat split; try assumption.
  destruct Hyz as [Hyz| <-]; eauto using lexlt_trans.
Qed.

Lemma lt_le (a b : number) : lt a b = true -> le a b = true.
Proof.
  rewrite lt_key, le_key. intros (x & y & ? & ? & ?). eauto 6.
Qed.

(** [a < b] excludes [a >= b]. *)
Lemma lt_not_ge (a b : number) : lt a b = true -> ge a b = false.
Proof.
  intros Hlt. change (le b a = false).
  destruct (le b a) eqn:Hle; [|reflexivity].
  exfalso. pose proof (lt_le_trans _ _ _ Hlt Hle) as Haa.
  apply lt_key in Haa. destruct Haa as (x & y & Hx & Hy & Hl).
  rewrite Hx in Hy. injection Hy as <-. eapply lexlt_irrefl, Hl.
Qed.

(** Two numbers that are not NaN are comparable. *)
Lemma lt_or_ge (a b : number) :
  is_nan a = false -> is_nan b = false -> lt a b = true \/ ge a b = true.
Proof.
  intros Ha Hb. change (lt a b = true \/ le b a = true).
  rewrite lt_key, le_key.
  destruct a as [sa|sa| |sa ma ea]; try discriminate;
  destruct b as [sb|sb| |sb mb eb]; try discriminate.
  all: match goal with
       | |- context [key ?u = Some _ /\ key ?v = Some _ /\ _] =>
           destruct (key u) as [x|] eqn:Hx; [|destruct sa; discriminate];
           destruct (key v) as [y|] eqn:Hy; [|destruct sb; discriminate]
       end.
  all: pose proof (lex3_spec x y) as Hs; destruct (lex3 x y);
       [right; subst; eauto 6 | left; eauto 6 | right; eauto 6].
Qed.

Lemma nan_not_ge (a b : number) : is_nan a = true -> ge a b = false.
Proof.
  destruct a; try discriminate. intros _. unfold ge, le, SFleb.
  destruct b; reflexivity.
Qed.

Lemma ge_not_nan (a b : number) : ge a b = true -> is_nan a = false.
Proof.
  intros H. destruct (is_nan a) eqn:E; [|reflexivity].
  rewrite (nan_not_ge a b E) in H. discriminate.
Qed.

(** *** [Math.max(0, Math.min(100, x))] *)

Lemma compare_swap (a b : number) :
  SFcompare b a = option_map CompOpp (SFcompare a b).
Proof.
  rewrite !SFcompare_key.
  destruct (key a) as [x|], (key b) as [y|]; try reflexivity.
  cbn. f_equal.
  pose proof (lex3_spec x y) as H1. pose proof (lex3_spec y x) as H2.
  destruct (lex3 x y), (lex3 y x); try reflexivity; exfalso; subst;
    try (eapply lexlt_irrefl; eassumption);
    eapply lexlt_irrefl, lexlt_trans; eassumption.
Qed.

Lemma Math_min_cases (a b : number) :
  (Math_min a b = NaN /\ (is_nan a = true \/ is_nan b = true))
  \/ (Math_min a b = a /\ le a b = true)
  \/ (Math_min a b = b /\ le b a = true).
Proof.
  unfold Math_min, le, SFleb. rewrite (compare_swap a b).
  destruct (SFcompare a b) as [[| |]|] eqn:E; cbn.
  - destruct a as [[|]| | |], b as [[|]| | |]; auto.
  - auto.
  - auto.
  - left. split; [reflexivity|].
    destruct a as [[|]|[|]| |[|]], b as [[|]|[|]| |[|]]; try discriminate; auto.
Qed.

Lemma Math_max_cases (a b : number) :
  (Math_max a b = NaN /\ (is_nan a = true \/ is_nan b = true))
  \/ (Math_max a b = a /\ le b a = true)
  \/ (Math_max a b = b /\ le a b = true).
Proof.
  unfold Math_max, le, SFleb. rewrite (compare_swap a b).
  destruct (SFcompare a b) as [[| |]|] eqn:E; cbn.
  - destruct a as [[|]| | |], b as [[|]| | |]; auto.
  - auto.
  - auto.
  - left. split; [reflexivity|].
    destruct a as [[|]|[|]| |[|]], b as [[|]|[|]| |[|]]; try discriminate; auto.
Qed.

(** The clamp of a number is NaN exactly for NaN, and otherwise lies
    between the bounds. *)
Lemma clamp_bounds (lo hi x : number) :
  le lo hi = true ->
  (is_nan x = true /\ clamp lo hi x = NaN)
  \/ (is_nan x = false
      /\ le lo (clamp lo hi x) = true /\ le (clamp lo hi x) hi = true).
Proof.
  intros Hlh. unfold clamp.
  assert (Hlo : is_nan lo = false).
  { destruct lo; try reflexivity. discriminate. }
  assert (Hhi : is_nan hi = false).
  { destruct hi; try reflexivity. destruct lo; discriminate. }
  assert (Hrefl : forall u, is_nan u = false -> le u u = true).
  { intros u Hu. apply le_key. destruct (key u) as [k|] eqn:Hk.
    - eauto 6.
    - destruct u as [|[|]| |[|]]; discriminate. }
  destruct (is_nan x) eqn:Hx.
  - left. split; [reflexivity|].
    destruct x; try discriminate.
    destruct hi, lo; reflexivity.
  - right. split; [reflexivity|].
    destruct (Math_min_cases hi x) as [[_ [Hn|Hn]]|[[-> Hm]|[-> Hm]]];
      try congruence.
    + destruct (Math_max_cases lo hi) as [[_ [Hn|Hn]]|[[-> Hm']|[-> Hm']]];
        try congruence; auto.
    + destruct (Math_max_cases lo x) as [[_ [Hn|Hn]]|[[-> Hm']|[-> Hm']]];
        try congruence; auto.
Qed.

End NumFacts.

(** ** Bounds on the results of arithmetic *)

Module RoundFacts.
Import JSNum Dyadic.
Local Open Scope Z_scope.

Lemma pow2_pos (e : Z) : (0 < 2 ^ e)%Q.
Proof. apply Qpower_0_lt. reflexivity. Qed.

Lemma pow2_add (a b : Z) : (2 ^ (a + b) == 2 ^ a * 2 ^ b)%Q.
Proof. apply Qpower_plus. discriminate. Qed.

Lemma pow2_le (a b : Z) : a <= b -> (2 ^ a <= 2 ^ b)%Q.
Proof. intros H. apply Qpower_le_compat_l; [exact H|discriminate]. Qed.

Lemma pow2_lt (a b : Z) : a < b -> (2 ^ a < 2 ^ b)%Q.
Proof. intros H. apply Qpower_lt_compat_l; [exact H|reflexivity]. Qed.

Lemma pow2_Z (k : Z) : 0 <= k -> (inject_Z (2 ^ k) == 2 ^ k)%Q.
Proof. intros H. rewrite (Zpower_Qpower 2 k H). reflexivity. Qed.

Lemma pow2_succ (a : Z) : (2 ^ (a + 1) == 2 * 2 ^ a)%Q.
Proof. rewrite pow2_add. change (2 ^ 1)%Q with 2%Q. ring. Qed.

(** An integer times a power of 2 at a lower exponent. *)
Lemma scale_down (m a b : Z) :
  b <= a -> (inject_Z m * 2 ^ a == inject_Z (m * 2 ^ (a - b)) * 2 ^ b)%Q.
Proof.
  intros H. rewrite inject_Z_mult, (pow2_Z (a - b)) by lia.
  replace a with ((a - b) + b) at 1 by lia. rewrite pow2_add. ring.
Qed.

Lemma inj_le (a b : Z) (e : Z) :
  (inject_Z a * 2 ^ e <= inject_Z b * 2 ^ e)%Q <-> a <= b.
Proof.
  pose proof (pow2_pos e) as Hp. rewrite Zle_Qle. split; intros H.
  - apply Qmult_le_r in H; assumption.
  - apply Qmult_le_r; assumption.
Qed.

Lemma inj_lt (a b : Z) (e : Z) :
  (inject_Z a * 2 ^ e < inject_Z b * 2 ^ e)%Q <-> a < b.
Proof.
  pose proof (pow2_pos e) as Hp. rewrite Zlt_Qlt. split; intros H.
  - apply Qmult_lt_r in H; assumption.
  - apply Qmult_lt_r; assumption.
Qed.

(** The number of binary digits. *)
Lemma digits2_size (m : positive) : digits2_pos m = Pos.size m.
Proof. induction m as [m IH|m IH|]; cbn; rewrite ?IH; reflexivity. Qed.

Lemma digits_bounds (m : positive) :
  2 ^ (Zpos (digits2_pos m) - 1) <= Zpos m < 2 ^ Zpos (digits2_pos m).
Proof.
  rewrite digits2_size. split.
  - pose proof (Pos.size_le m) as H.
    assert (H' : 2 ^ Zpos (Pos.size m) <= 2 * Zpos m).
    { change (2 * Zpos m) with (Zpos m~0). rewrite <- Pos2Z.inj_pow. exact H. }
    replace (Zpos (Pos.size m)) with (Zpos (Pos.size m) - 1 + 1) in H' by lia.
    rewrite Z.pow_add_r in H' by lia. lia.
  - pose proof (Pos.size_gt m) as H. rewrite <- Pos2Z.inj_pow. exact H.
Qed.

Lemma fexp_cases (x : Z) :
  (fexp prec emax x = x - 53 /\ -1074 <= x - 53)
  \/ (fexp prec emax x = -1074 /\ x - 53 <= -1074).
Proof. unfold fexp, emin, prec, emax. lia. Qed.

(** The form of the format. *)
Lemma canonical_form (m : positive) (e : Z) :
  canonical_mantissa prec emax m e = true ->
  -1074 <= e /\ Zpos m < 2 ^ 53 /\ (-1074 < e -> 2 ^ 52 <= Zpos m).
Proof.
  unfold canonical_mantissa. intros Hc. apply Z.eqb_eq in Hc.
  pose proof (digits_bounds m) as [Hlo Hhi].
  set (d := Zpos (digits2_pos m)) in *.
  destruct (fexp_cases (d + e)) as [[Hf Hr]|[Hf Hr]]; rewrite Hf in Hc.
  - assert (d = 53) by lia. subst d. rewrite H in *.
    split; [lia|]. split; [exact Hhi|]. intros _. exact Hlo.
  - split; [lia|]. split; [|lia].
    eapply Z.lt_le_trans; [exact Hhi|]. apply Z.pow_le_mono_r; lia.
Qed.

Lemma bounded_canonical (m : positive) (e : Z) :
  bounded prec emax m e = true ->
  canonical_mantissa prec emax m e = true /\ e <= 971.
Proof.
  unfold bounded. intros H. apply andb_true_iff in H. destruct H as [Hc He].
  apply Z.leb_le in He. unfold prec, emax in He. split; [exact Hc|lia].
Qed.

Lemma bounded_form (m : positive) (e : Z) :
  bounded prec emax m e = true ->
  -1074 <= e <= 971 /\ Zpos m < 2 ^ 53 /\ (-1074 < e -> 2 ^ 52 <= Zpos m).
Proof.
  intros H. destruct (bounded_canonical m e H) as [Hc He].
  destruct (canonical_form m e Hc) as (? & ? & ?). repeat split; assumption || lia.
Qed.

Lemma canonical_digits (m : positive) (e : Z) :
  -1074 <= e -> Zpos m < 2 ^ 53 -> (-1074 < e -> 2 ^ 52 <= Zpos m) ->
  canonical_mantissa prec emax m e = true.
Proof.
  intros He Hhi Hlo. unfold canonical_mantissa. apply Z.eqb_eq.
  pose proof (digits_bounds m) as [Dlo Dhi].
  set (d := Zpos (digits2_pos m)) in *.
  assert (Hd : d <= 53).
  { destruct (Z.le_gt_cases d 53) as [?|Hgt]; [assumption|].
    assert (2 ^ 53 <= 2 ^ (d - 1)) by (apply Z.pow_le_mono_r; lia). lia. }
  destruct (Z.eq_dec e (-1074)) as [->|Hne].
  - unfold fexp, emin, prec, emax. lia.
  - specialize (Hlo ltac:(lia)).
    assert (d = 53).
    { destruct (Z.le_gt_cases 53 d) as [?|Hlt]; [lia|].
      assert (2 ^ d <= 2 ^ 52) by (apply Z.pow_le_mono_r; lia). lia. }
    unfold fexp, emin, prec, emax. lia.
Qed.

(** Of two numbers in the form of the format, the one with the lower
    exponent is the lower. *)
Lemma lower_exponent (m1 m2 : positive) (e1 e2 : Z) :
  canonical_mantissa prec emax m1 e1 = true ->
  canonical_mantissa prec emax m2 e2 = true ->
  e1 < e2 ->
  (inject_Z (Zpos m1) * 2 ^ e1 < inject_Z (Zpos m2) * 2 ^ e2)%Q.
Proof.
  intros B1 B2 He.
  destruct (canonical_form _ _ B1) as (R1 & H1 & _).
  destruct (canonical_form _ _ B2) as (R2 & _ & L2).
  specialize (L2 ltac:(lia)).
  apply Qlt_le_trans with (inject_Z (2 ^ 53) * 2 ^ e1)%Q.
  - apply inj_lt. exact H1.
  - apply Qle_trans with (inject_Z (2 ^ 52) * 2 ^ e2)%Q.
    + rewrite (pow2_Z 53), (pow2_Z 52), <- !pow2_add by lia. apply pow2_le. lia.
    + apply inj_le. exact L2.
Qed.

Lemma val_pos (m : positive) (e : Z) : (0 < inject_Z (Zpos m) * 2 ^ e)%Q.
Proof.
  apply Qmult_lt_0_compat; [|apply pow2_pos].
  rewrite <- (Zlt_Qlt 0). lia.
Qed.

Lemma val_finite (s : bool) (m : positive) (e : Z) :
  (val (S754_finite s m e)
   == (if s then - (inject_Z (Zpos m) * 2 ^ e) else inject_Z (Zpos m) * 2 ^ e))%Q.
Proof.
  unfold val. destruct s; cbn [cond_Zopp]; [|reflexivity].
  change (- Zpos m) with (Zneg m). change (Zneg m) with (- Zpos m).
  rewrite inject_Z_opp. ring.
Qed.

(** On numbers in the form of the format, the comparison of the model is
    the comparison of the values. *)
Lemma compare_val (a b : number) :
  good a = true -> good b = true ->
  match SFcompare a b with
  | Some Lt => (val a < val b)%Q
  | Some Eq => (val a == val b)%Q
  | Some Gt => (val b < val a)%Q
  | None => False
  end.
Proof.
  destruct a as [sa| | |sa ma ea], b as [sb| | |sb mb eb]; try discriminate;
    cbn [good]; intros Ga Gb.
  - reflexivity.
  - pose proof (val_finite sb mb eb) as Vb. pose proof (val_pos mb eb).
    change (val (S754_zero sa)) with 0%Q. cbn [SFcompare].
    destruct sb; lra.
  - pose proof (val_finite sa ma ea) as Va. pose proof (val_pos ma ea).
    change (val (S754_zero sb)) with 0%Q. cbn [SFcompare].
    destruct sa; lra.
  - pose proof (val_finite sa ma ea) as Va. pose proof (val_finite sb mb eb) as Vb.
    pose proof (val_pos ma ea) as Pa. pose proof (val_pos mb eb) as Pb.
    assert (Hcmp : match Z.compare ea eb with
                   | Lt => (inject_Z (Zpos ma) * 2 ^ ea < inject_Z (Zpos mb) * 2 ^ eb)%Q
                   | Gt => (inject_Z (Zpos mb) * 2 ^ eb < inject_Z (Zpos ma) * 2 ^ ea)%Q
                   | Eq => match Pos.compare_cont Eq ma mb with
                           | Lt => (inject_Z (Zpos ma) * 2 ^ ea
                                    < inject_Z (Zpos mb) * 2 ^ eb)%Q
                           | Gt => (inject_Z (Zpos mb) * 2 ^ eb
                                    < inject_Z (Zpos ma) * 2 ^ ea)%Q
                           | Eq => (inject_Z (Zpos ma) * 2 ^ ea
                                    == inject_Z (Zpos mb) * 2 ^ eb)%Q
                           end
                   end).
    { destruct (Z.compare_spec ea eb) as [->|Hlt|Hgt].
      - change (Pos.compare_cont Eq ma mb) with (Pos.compare ma mb).
        destruct (Pos.compare_spec ma mb) as [->|Hlt|Hgt].
        + reflexivity.
        + apply inj_lt. lia.
        + apply inj_lt. lia.
      - apply lower_exponent;
          [apply (bounded_canonical _ _ Ga)|apply (bounded_canonical _ _ Gb)|exact Hlt].
      - apply lower_exponent;
          [apply (bounded_canonical _ _ Gb)|apply (bounded_canonical _ _ Ga)|lia]. }
    set (x := (inject_Z (Zpos ma) * 2 ^ ea)%Q) in *.
    set (y := (inject_Z (Zpos mb) * 2 ^ eb)%Q) in *.
    set (va := val (S754_finite sa ma ea)) in *.
    set (vb := val (S754_finite sb mb eb)) in *.
    cbn [SFcompare].
    destruct sa, sb;
      try (destruct (Z.compare ea eb); [destruct (Pos.compare_cont Eq ma mb)| |];
           cbn [CompOpp]); lra.
Qed.

Lemma le_val (a b : number) :
  good a = true -> good b = true -> (le a b = true <-> (val a <= val b)%Q).
Proof.
  intros Ga Gb. pose proof (compare_val a b Ga Gb) as H.
  unfold le, SFleb. destruct (SFcompare a b) as [[| |]|]; try contradiction;
    split; intros H'; try reflexivity; try discriminate; lra.
Qed.

Lemma lt_val (a b : number) :
  good a = true -> good b = true -> (lt a b = true <-> (val a < val b)%Q).
Proof.
  intros Ga Gb. pose proof (compare_val a b Ga Gb) as H.
  unfold lt, SFltb. destruct (SFcompare a b) as [[| |]|]; try contradiction;
    split; intros H'; try reflexivity; try discriminate; lra.
Qed.

(** *** Shifting to the right *)

Lemma shr_1_brackets (mrs : shr_record) (e : Z) (X : Q) :
  brackets mrs e X -> brackets (shr_1 mrs) (e + 1) X.
Proof.
  destruct mrs as [m r s]. unfold brackets. cbn [shr_m shr_r shr_s].
  intros (Hm & Hlo & Hhi & Hex).
  pose proof (pow2_pos e) as Hp. pose proof (pow2_succ e) as Hs.
  assert (Hdec : exists m' b, m = 2 * m' + Z.b2z b /\ 0 <= m'
                 /\ shr_1 {| shr_m := m; shr_r := r; shr_s := s |}
                    = {| shr_m := m'; shr_r := b; shr_s := r || s |}).
  { destruct m as [|[p|p|]|p]; try lia.
    - exists 0, false. repeat split; lia.
    - exists (Zpos p), true. repeat split; cbn; lia.
    - exists (Zpos p), false. repeat split; cbn; lia.
    - exists 0, true. repeat split; cbn; lia. }
  destruct Hdec as (m' & b & -> & Hm' & ->). cbn [shr_m shr_r shr_s].
  rewrite !inject_Z_plus, !inject_Z_mult in *.
  set (a := inject_Z m') in *. set (P := (2 ^ e)%Q) in *.
  set (P' := (2 ^ (e + 1))%Q) in *.
  change (inject_Z 2) with 2%Q in *. change (inject_Z 1) with 1%Q in *.
  assert (Hb : (inject_Z (Z.b2z b) == if b then 1 else 0)%Q) by (destruct b; reflexivity).
  set (ib := inject_Z (Z.b2z b)) in *.
  split; [exact Hm'|]. split; [destruct b; nra|]. split; [destruct b; nra|].
  split.
  - intros Hz. apply orb_false_iff in Hz. destruct Hz as [-> Hrs].
    apply Hex in Hrs. nra.
  - intros HX. destruct b.
    + exfalso. nra.
    + apply orb_false_iff. split; [reflexivity|]. apply Hex. nra.
Qed.

Lemma iter_shr_brackets (p : positive) (mrs : shr_record) (e : Z) (X : Q) :
  brackets mrs e X -> brackets (SpecFloat.iter_pos shr_1 p mrs) (e + Zpos p) X.
Proof.
  revert mrs e. induction p as [p IH|p IH|]; intros mrs e H; cbn [SpecFloat.iter_pos].
  - replace (e + Zpos p~1) with (e + 1 + Zpos p + Zpos p) by lia.
    apply IH, IH, shr_1_brackets, H.
  - replace (e + Zpos p~0) with (e + Zpos p + Zpos p) by lia.
    apply IH, IH, H.
  - apply shr_1_brackets, H.
Qed.

Lemma shr_brackets (mrs : shr_record) (e n : Z) (X : Q) :
  brackets mrs e X ->
  brackets (fst (shr mrs e n)) (snd (shr mrs e n)) X
  /\ snd (shr mrs e n) = e + Z.max n 0.
Proof.
  intros H. unfold shr. destruct n as [|p|p]; cbn [fst snd].
  - split; [exact H|lia].
  - split; [apply iter_shr_brackets, H|lia].
  - split; [exact H|lia].
Qed.

Lemma exact_brackets (m : Z) (e : Z) :
  0 <= m ->
  brackets (shr_record_of_loc m loc_Exact) e (inject_Z m * 2 ^ e)%Q.
Proof.
  intros Hm. unfold brackets. cbn [shr_record_of_loc shr_m shr_r shr_s].
  pose proof (pow2_pos e) as Hp.
  split; [exact Hm|]. split; [lra|]. split.
  - apply inj_lt. lia.
  - split; reflexivity.
Qed.

(** *** Rounding *)

Lemma shr_none (mrs : shr_record) (e n : Z) : n <= 0 -> shr mrs e n = (mrs, e).
Proof. intros H. unfold shr. destruct n; try reflexivity. lia. Qed.

Lemma round_up_or_down (mrs : shr_record) (e : Z) (X : Q) :
  brackets mrs e X ->
  round_nearest_even (shr_m mrs) (loc_of_shr_record mrs) = shr_m mrs
  \/ (round_nearest_even (shr_m mrs) (loc_of_shr_record mrs) = shr_m mrs + 1
      /\ (inject_Z (shr_m mrs) * 2 ^ e < X)%Q).
Proof.
  intros (Hm & Hlo & Hhi & Hex). destruct mrs as [m r s].
  cbn [shr_m shr_r shr_s] in *.
  assert (Hne : r || s = true -> (inject_Z m * 2 ^ e < X)%Q).
  { intros Hrs. destruct (Qlt_le_dec (inject_Z m * 2 ^ e) X) as [?|Hle];
      [assumption|].
    assert (HX : (X == inject_Z m * 2 ^ e)%Q) by lra.
    apply Hex in HX. congruence. }
  destruct r, s; cbn [loc_of_shr_record round_nearest_even orb] in *; auto.
  destruct (Z.even m); auto.
Qed.

(** The two stages of [binary_round_aux] on an exact value with enough
    digits: the integer part [m1] at the exponent [e'] of the format, the
    integer [m'] next to it that is chosen, and the number made of it. *)
Lemma round_aux_value (s : bool) (mx : positive) (ex : Z) :
  ex <= fexp prec emax (Zpos (digits2_pos mx) + ex) ->
  exists m1 m' e',
    0 <= m1 < 2 ^ 53 /\ -1074 <= e' /\ (-1074 < e' -> 2 ^ 52 <= m1)
    /\ (inject_Z m1 * 2 ^ e' <= inject_Z (Zpos mx) * 2 ^ ex)%Q
    /\ (inject_Z (Zpos mx) * 2 ^ ex < inject_Z (m1 + 1) * 2 ^ e')%Q
    /\ (m' = m1
        \/ (m' = m1 + 1 /\ (inject_Z m1 * 2 ^ e' < inject_Z (Zpos mx) * 2 ^ ex)%Q))
    /\ ((m' = 0 /\ binary_round_aux prec emax s (Zpos mx) ex loc_Exact = S754_zero s)
        \/ exists m e,
             (inject_Z (Zpos m) * 2 ^ e == inject_Z m' * 2 ^ e')%Q
             /\ -1074 <= e /\ Zpos m < 2 ^ 53 /\ (-1074 < e -> 2 ^ 52 <= Zpos m)
             /\ binary_round_aux prec emax s (Zpos mx) ex loc_Exact
                = if e <=? 971 then S754_finite s m e else S754_infinity s).
Proof.
  intros Hpre. set (X := (inject_Z (Zpos mx) * 2 ^ ex)%Q).
  pose proof (digits_bounds mx) as [Dlo Dhi].
  set (d := Zpos (digits2_pos mx)) in *.
  unfold binary_round_aux, shr_fexp. cbn [Zdigits2]. fold d.
  set (n := fexp prec emax (d + ex) - ex).
  destruct (shr_brackets (shr_record_of_loc (Zpos mx) loc_Exact) ex n X
              (exact_brackets (Zpos mx) ex ltac:(lia))) as [Hb He].
  destruct (shr (shr_record_of_loc (Zpos mx) loc_Exact) ex n) as [mrs' e'].
  cbn [fst snd] in Hb, He.
  assert (He' : e' = fexp prec emax (d + ex)) by (subst n; lia).
  pose proof (round_up_or_down mrs' e' X Hb) as Hround.
  destruct Hb as (Hm1 & Hlo & Hhi & _).
  set (m1 := shr_m mrs') in *.
  set (m' := round_nearest_even m1 (loc_of_shr_record mrs')) in *.
  assert (Hd : (2 ^ (d - 1 + ex) <= X /\ X < 2 ^ (d + ex))%Q).
  { subst X. split.
    - rewrite pow2_add, <- (pow2_Z (d - 1)) by lia. apply inj_le. exact Dlo.
    - rewrite pow2_add, <- (pow2_Z d) by lia. apply inj_lt. exact Dhi. }
  destruct Hd as [Xlo Xhi].
  assert (Hrange : -1074 <= e' /\ m1 < 2 ^ 53 /\ (-1074 < e' -> 2 ^ 52 <= m1)).
  { destruct (fexp_cases (d + ex)) as [[Hf Hr]|[Hf Hr]]; rewrite Hf in He'.
    - split; [lia|]. split.
      + apply (inj_lt m1 (2 ^ 53) e').
        rewrite (pow2_Z 53), <- pow2_add by lia.
        replace (53 + e') with (d + ex) by lia. lra.
      + intros _. assert (H52 : 2 ^ 52 < m1 + 1); [|lia].
        apply (inj_lt (2 ^ 52) (m1 + 1) e').
        rewrite (pow2_Z 52), <- pow2_add by lia.
        replace (52 + e') with (d - 1 + ex) by lia. lra.
    - split; [lia|]. split; [|lia].
      apply (inj_lt m1 (2 ^ 53) e').
      rewrite (pow2_Z 53), <- pow2_add by lia.
      assert (2 ^ (d + ex) <= 2 ^ (53 + e'))%Q by (apply pow2_le; lia). lra. }
  destruct Hrange as (Re & R1 & R2).
  exists m1, m', e'.
  split; [lia|]. split; [exact Re|]. split; [exact R2|].
  split; [exact Hlo|]. split; [exact Hhi|]. split; [exact Hround|].
  assert (Hm' : 0 <= m' <= 2 ^ 53) by (destruct Hround as [->|[-> _]]; lia).
  assert (Hnorm : -1074 < e' -> 2 ^ 52 <= m')
    by (intros He1; specialize (R2 He1); destruct Hround as [->|[-> _]]; lia).
  destruct (Z.eq_dec m' 0) as [E0|N0].
  - left. split; [exact E0|]. rewrite E0. cbn [Zdigits2].
    rewrite shr_none; [reflexivity|].
    unfold fexp, emin, prec, emax. lia.
  - right. destruct (Z.eq_dec m' (2 ^ 53)) as [E53|N53].
    + exists 4503599627370496%positive, (e' + 1).
      split.
      { rewrite E53, pow2_succ.
        change (inject_Z (2 ^ 53)) with (2 * inject_Z 4503599627370496)%Q. ring. }
      split; [lia|]. split; [reflexivity|]. split; [intros _; discriminate|].
      rewrite E53.
      change (Zdigits2 (2 ^ 53)) with 54.
      replace (fexp prec emax (54 + e') - e') with 1
        by (unfold fexp, emin, prec, emax; lia).
      reflexivity.
    + destruct m' as [|p|p] eqn:Ep; try lia.
      exists p, e'. split; [reflexivity|]. split; [exact Re|].
      split; [lia|]. split; [exact Hnorm|].
      cbn [Zdigits2].
      pose proof (digits_bounds p) as [Plo Phi].
      set (dp := Zpos (digits2_pos p)) in *.
      assert (Hdp : dp <= 53).
      { destruct (Z.le_gt_cases dp 53) as [?|Hgt]; [assumption|].
        assert (2 ^ 53 <= 2 ^ (dp - 1)) by (apply Z.pow_le_mono_r; lia). lia. }
      rewrite shr_none by (unfold fexp, emin, prec, emax; lia).
      cbn [shr_record_of_loc shr_m]. unfold prec, emax. reflexivity.
Qed.

(** What [binary_round_aux] makes of an exact value with enough digits:
    a magnitude [v] that no number of the format separates from the
    value, given the sign, unless it is too large for the format. *)
Lemma round_aux_bounds (s : bool) (mx : positive) (ex : Z) :
  ex <= fexp prec emax (Zpos (digits2_pos mx) + ex) ->
  exists v : Q,
    (forall M E, canonical_mantissa prec emax M E = true ->
       ((inject_Z (Zpos mx) * 2 ^ ex <= inject_Z (Zpos M) * 2 ^ E)%Q ->
        (v <= inject_Z (Zpos M) * 2 ^ E)%Q)
       /\ ((inject_Z (Zpos M) * 2 ^ E <= inject_Z (Zpos mx) * 2 ^ ex)%Q ->
           (inject_Z (Zpos M) * 2 ^ E <= v)%Q))
    /\ (((v == 0)%Q
         /\ binary_round_aux prec emax s (Zpos mx) ex loc_Exact = S754_zero s)
        \/ exists m e,
             (inject_Z (Zpos m) * 2 ^ e == v)%Q
             /\ canonical_mantissa prec emax m e = true
             /\ binary_round_aux prec emax s (Zpos mx) ex loc_Exact
                = if e <=? 971 then S754_finite s m e else S754_infinity s).
Proof.
  intros Hpre.
  destruct (round_aux_value s mx ex Hpre)
    as (m1 & m' & e' & Hm1 & He' & Hnorm & Hlo & Hhi & Hround & Hres).
  set (X := (inject_Z (Zpos mx) * 2 ^ ex)%Q) in *.
  exists (inject_Z m' * 2 ^ e')%Q. split.
  - intros M E HM. destruct (canonical_form M E HM) as (RE & RM & _).
    set (B := (inject_Z (Zpos M) * 2 ^ E)%Q).
    assert (Hsmall : E < e' -> (B < inject_Z m1 * 2 ^ e')%Q).
    { intros HE. specialize (Hnorm ltac:(lia)).
      apply Qlt_le_trans with (inject_Z (2 ^ 53) * 2 ^ E)%Q.
      - apply inj_lt. exact RM.
      - apply Qle_trans with (inject_Z (2 ^ 52) * 2 ^ e')%Q.
        + rewrite (pow2_Z 53), (pow2_Z 52), <- !pow2_add by lia.
          apply pow2_le. lia.
        + apply inj_le. exact Hnorm. }
    assert (Hmult : e' <= E ->
              (B == inject_Z (Zpos M * 2 ^ (E - e')) * 2 ^ e')%Q).
    { intros HE. apply scale_down. exact HE. }
    split.
    + intros HX. destruct Hround as [->|[-> Hgt]]; [lra|].
      destruct (Z.lt_ge_cases E e') as [HE|HE].
      * specialize (Hsmall HE). lra.
      * specialize (Hmult ltac:(lia)). rewrite Hmult. apply inj_le.
        assert (m1 < Zpos M * 2 ^ (E - e')); [|lia].
        apply (inj_lt _ _ e'). rewrite <- Hmult. lra.
    + intros HX. destruct Hround as [->|[-> Hgt]]; [|lra].
      destruct (Z.lt_ge_cases E e') as [HE|HE].
      * specialize (Hsmall HE). lra.
      * specialize (Hmult ltac:(lia)). rewrite Hmult. apply inj_le.
        assert (Zpos M * 2 ^ (E - e') < m1 + 1); [|lia].
        apply (inj_lt _ _ e'). rewrite <- Hmult. lra.
  - destruct Hres as [[E0 Hr]|(m & e & Hv & Re & Rm & Rn & Hr)].
    + left. split; [rewrite E0; ring|exact Hr].
    + right. exists m, e. split; [exact Hv|]. split; [|exact Hr].
      apply canonical_digits; assumption.
Qed.

Lemma good_cases (a : number) :
  good a = true ->
  (val a == 0)%Q
  \/ exists s m e,
       a = S754_finite s m e /\ bounded prec emax m e = true
       /\ canonical_mantissa prec emax m e = true.
Proof.
  destruct a as [s| | |s m e]; try discriminate; cbn [good]; intros H.
  - left. reflexivity.
  - right. exists s, m, e. split; [reflexivity|]. split; [exact H|].
    apply (bounded_canonical m e H).
Qed.

(** The result of rounding the exact value [±mx·2^ex]: when the value
    lies between two numbers of the format, so does the result, which is
    a number of the format. *)
Lemma round_interval (s : bool) (mx : positive) (ex : Z) (lo hi : number) :
  ex <= fexp prec emax (Zpos (digits2_pos mx) + ex) ->
  good lo = true -> good hi = true ->
  (val lo <= val (S754_finite s mx ex) <= val hi)%Q ->
  good (binary_round_aux prec emax s (Zpos mx) ex loc_Exact) = true
  /\ (val lo <= val (binary_round_aux prec emax s (Zpos mx) ex loc_Exact)
      <= val hi)%Q.
Proof.
  intros Hpre Glo Ghi [Hlo Hhi].
  destruct (round_aux_bounds s mx ex Hpre) as (v & Hb & Hres).
  pose proof (val_finite s mx ex) as HV.
  pose proof (val_pos mx ex) as HX.
  set (X := (inject_Z (Zpos mx) * 2 ^ ex)%Q) in *.
  set (V := val (S754_finite s mx ex)) in *.
  set (r := binary_round_aux prec emax s (Zpos mx) ex loc_Exact) in *.
  (* the bound on the side of the value, away from zero *)
  assert (Hout : exists M E,
            bounded prec emax M E = true
            /\ canonical_mantissa prec emax M E = true
            /\ (X <= inject_Z (Zpos M) * 2 ^ E)%Q
            /\ (if s then val lo == - (inject_Z (Zpos M) * 2 ^ E)
                else val hi == inject_Z (Zpos M) * 2 ^ E)%Q).
  { destruct s.
    - destruct (good_cases lo Glo) as [Z0|(sl & M & E & -> & HB & HC)]; [lra|].
      pose proof (val_finite sl M E) as Hl. pose proof (val_pos M E).
      destruct sl; [|lra]. exists M, E. repeat split; try assumption; lra.
    - destruct (good_cases hi Ghi) as [Z0|(sh & M & E & -> & HB & HC)]; [lra|].
      pose proof (val_finite sh M E) as Hh. pose proof (val_pos M E).
      destruct sh; [lra|]. exists M, E. repeat split; try assumption; lra. }
  destruct Hout as (M & E & HB & HC & HXB & Hside).
  pose proof (proj1 (Hb M E HC) HXB) as HvB.
  (* the bound on the side of zero *)
  assert (Hv : (0 <= v)%Q).
  { destruct Hres as [[Hv0 _]|(m & e & Hme & _)]; [lra|].
    pose proof (val_pos m e). lra. }
  assert (Hzero : (if s then - v <= val hi else val lo <= v)%Q).
  { destruct s.
    - destruct (good_cases hi Ghi) as [Z0|(sh & Mh & Eh & -> & HBh & HCh)];
        [lra|].
      pose proof (val_finite sh Mh Eh) as Hh. pose proof (val_pos Mh Eh).
      destruct sh; [|lra].
      pose proof (proj2 (Hb Mh Eh HCh) ltac:(lra)). lra.
    - destruct (good_cases lo Glo) as [Z0|(sl & Ml & El & -> & HBl & HCl)];
        [lra|].
      pose proof (val_finite sl Ml El) as Hl. pose proof (val_pos Ml El).
      destruct sl; [lra|].
      pose proof (proj2 (Hb Ml El HCl) ltac:(lra)). lra. }
  destruct Hres as [[Hv0 Hr]|(m & e & Hme & Hc & Hr)].
  - rewrite Hr. split; [reflexivity|]. change (val (S754_zero s)) with 0%Q.
    destruct s; lra.
  - assert (He : e <= E).
    { destruct (Z.le_gt_cases e E) as [?|Hgt]; [assumption|].
      pose proof (lower_exponent M m E e HC Hc ltac:(lia)). lra. }
    destruct (bounded_form M E HB) as (RE & _ & _).
    assert (Hle : (e <=? 971) = true) by (apply Z.leb_le; lia).
    rewrite Hle in Hr. rewrite Hr. split.
    + cbn [good]. unfold bounded. rewrite Hc. apply Z.leb_le.
      unfold prec, emax. lia.
    + pose proof (val_finite s m e) as Hvr.
      set (vr := val (S754_finite s m e)) in *.
      destruct s; lra.
Qed.

(** *** The operations *)

Lemma digits_mul (a b : positive) :
  Zpos (digits2_pos a) + Zpos (digits2_pos b) - 1
  <= Zpos (digits2_pos (a * b)).
Proof.
  pose proof (digits_bounds a) as [La _].
  pose proof (digits_bounds b) as [Lb _].
  pose proof (digits_bounds (a * b)) as [_ Hab].
  set (da := Zpos (digits2_pos a)) in *.
  set (db := Zpos (digits2_pos b)) in *.
  set (d := Zpos (digits2_pos (a * b))) in *.
  assert (da >= 1 /\ db >= 1) as [? ?] by (subst da db; lia).
  assert (H2 : 2 ^ (da - 1 + (db - 1)) < 2 ^ d).
  { rewrite Z.pow_add_r by lia. rewrite Pos2Z.inj_mul in Hab.
    eapply Z.le_lt_trans; [|exact Hab].
    apply Z.mul_le_mono_nonneg; try assumption; apply Z.pow_nonneg; lia. }
  apply Z.pow_lt_mono_r_iff in H2; subst d; lia.
Qed.

Lemma mul_precondition (mx my : positive) (ex ey : Z) :
  canonical_mantissa prec emax mx ex = true ->
  canonical_mantissa prec emax my ey = true ->
  ex + ey <= fexp prec emax (Zpos (digits2_pos (mx * my)) + (ex + ey)).
Proof.
  unfold canonical_mantissa. intros Hx Hy.
  apply Z.eqb_eq in Hx. apply Z.eqb_eq in Hy.
  pose proof (digits_mul mx my) as Hd.
  unfold fexp, emin, prec, emax in *. lia.
Qed.

Lemma val_mul (sx sy : bool) (mx my : positive) (ex ey : Z) :
  (val (S754_finite (xorb sx sy) (mx * my) (ex + ey))
   == val (S754_finite sx mx ex) * val (S754_finite sy my ey))%Q.
Proof.
  destruct sx, sy; cbn [xorb]; rewrite !val_finite, pow2_add, Pos2Z.inj_mul,
    inject_Z_mult; ring.
Qed.

Lemma val_zero_product (a b : number) :
  (match a with S754_finite _ _ _ => False | _ => True end
   \/ match b with S754_finite _ _ _ => False | _ => True end) ->
  (val a * val b == 0)%Q.
Proof.
  intros [H|H].
  - destruct a; try contradiction; cbn [val]; ring.
  - destruct b; try contradiction; cbn [val]; ring.
Qed.

(** [a * b] *)
Lemma mul_interval (a b lo hi : number) :
  good a = true -> good b = true -> good lo = true -> good hi = true ->
  (val lo <= val a * val b <= val hi)%Q ->
  good (mul a b) = true /\ (val lo <= val (mul a b) <= val hi)%Q.
Proof.
  intros Ga Gb Glo Ghi Hv.
  destruct a as [sx| | |sx mx ex]; try discriminate;
    destruct b as [sy| | |sy my ey]; try discriminate;
    try (rewrite val_zero_product in Hv by (cbn; tauto);
         split; [reflexivity|exact Hv]).
  unfold mul, SFmul. cbn [good] in Ga, Gb.
  destruct (bounded_canonical _ _ Ga) as [Ca _].
  destruct (bounded_canonical _ _ Gb) as [Cb _].
  apply round_interval; try assumption.
  - apply mul_precondition; assumption.
  - rewrite val_mul. exact Hv.
Qed.

Lemma iter_xO (m d : positive) :
  Zpos (Pos.iter xO m d) = Zpos m * 2 ^ Zpos d
  /\ Zpos (digits2_pos (Pos.iter xO m d)) = Zpos (digits2_pos m) + Zpos d.
Proof.
  induction d as [|d [IH1 IH2]] using Pos.peano_ind.
  - cbn [Pos.iter digits2_pos]. split; lia.
  - rewrite Pos.iter_succ. cbn [digits2_pos]. split.
    + rewrite Pos2Z.inj_xO, IH1, Pos2Z.inj_succ, Z.pow_succ_r by lia. ring.
    + rewrite Pos2Z.inj_succ, IH2, Pos2Z.inj_succ. ring.
Qed.

(** A number brought to a lower exponent keeps its value. *)
Lemma align_value (s : bool) (mx : positive) (ex ez : Z) :
  ez <= ex ->
  (inject_Z (cond_Zopp s (Zpos (fst (shl_align mx ex ez)))) * 2 ^ ez
   == val (S754_finite s mx ex))%Q.
Proof.
  intros He. unfold shl_align, val. destruct (ez - ex) as [|k|k] eqn:Ek.
  - assert (ez = ex) by lia. subst ez. reflexivity.
  - lia.
  - cbn [fst]. destruct (iter_xO mx k) as [Hm _].
    assert (Hk : (2 ^ ex == inject_Z (2 ^ Zpos k) * 2 ^ ez)%Q).
    { replace ex with (Zpos k + ez) by lia.
      rewrite pow2_add, <- (pow2_Z (Zpos k)) by lia. reflexivity. }
    rewrite Hk.
    destruct s; cbn [cond_Zopp]; rewrite ?inject_Z_opp, Hm, inject_Z_mult;
      ring.
Qed.

Lemma binary_round_interval (s : bool) (mx : positive) (ex : Z) (lo hi : number) :
  good lo = true -> good hi = true ->
  (val lo <= val (S754_finite s mx ex) <= val hi)%Q ->
  good (binary_round prec emax s mx ex) = true
  /\ (val lo <= val (binary_round prec emax s mx ex) <= val hi)%Q.
Proof.
  intros Glo Ghi Hv. unfold binary_round.
  set (ef := fexp prec emax (Zpos (digits2_pos mx) + ex)).
  pose proof (align_value s mx ex ef) as Hal.
  unfold shl_align in *. destruct (ef - ex) as [|k|k] eqn:Ek.
  - apply round_interval; try assumption. fold ef. lia.
  - apply round_interval; try assumption. fold ef. lia.
  - cbn [fst] in Hal. specialize (Hal ltac:(lia)).
    destruct (iter_xO mx k) as [_ Hd].
    apply round_interval; try assumption.
    + rewrite Hd.
      replace (Zpos (digits2_pos mx) + Zpos k + ef)
        with (Zpos (digits2_pos mx) + ex) by lia.
      fold ef. lia.
    + unfold val at 2 3. rewrite Hal. exact Hv.
Qed.

Lemma normalize_interval (z e : Z) (lo hi : number) :
  good lo = true -> good hi = true ->
  (val lo <= inject_Z z * 2 ^ e <= val hi)%Q ->
  good (binary_normalize prec emax z e false) = true
  /\ (val lo <= val (binary_normalize prec emax z e false) <= val hi)%Q.
Proof.
  intros Glo Ghi Hv. destruct z as [|m|m]; cbn [binary_normalize].
  - split; [reflexivity|]. cbn [val]. 
    assert (H0 : (inject_Z 0 * 2 ^ e == 0)%Q) by ring.
    rewrite H0 in Hv. exact Hv.
  - apply binary_round_interval; assumption.
  - apply binary_round_interval; assumption.
Qed.

(** [a + b] *)
Lemma add_interval (a b lo hi : number) :
  good a = true -> good b = true -> good lo = true -> good hi = true ->
  (val lo <= val a + val b <= val hi)%Q ->
  good (add a b) = true /\ (val lo <= val (add a b) <= val hi)%Q.
Proof.
  intros Ga Gb Glo Ghi Hv.
  destruct a as [sx| | |sx mx ex]; try discriminate;
    destruct b as [sy| | |sy my ey]; try discriminate.
  - assert (H0 : (val (S754_zero sx) + val (S754_zero sy) == 0)%Q)
      by (cbn [val]; ring).
    rewrite H0 in Hv. destruct sx, sy; (split; [reflexivity|exact Hv]).
  - assert (H0 : (val (S754_zero sx) + val (S754_finite sy my ey)
                  == val (S754_finite sy my ey))%Q) by (cbn [val]; ring).
    rewrite H0 in Hv. split; [exact Gb|exact Hv].
  - assert (H0 : (val (S754_finite sx mx ex) + val (S754_zero sy)
                  == val (S754_finite sx mx ex))%Q) by (cbn [val]; ring).
    rewrite H0 in Hv. split; [exact Ga|exact Hv].
  - unfold add, SFadd. apply normalize_interval; try assumption.
    assert (Hd : (inject_Z
                    (cond_Zopp sx (Zpos (fst (shl_align mx ex (Z.min ex ey))))
                     + cond_Zopp sy (Zpos (fst (shl_align my ey (Z.min ex ey)))))
                  * 2 ^ Z.min ex ey
                  == val (S754_finite sx mx ex) + val (S754_finite sy my ey))%Q).
    { rewrite <- (align_value sx mx ex (Z.min ex ey)),
        <- (align_value sy my ey (Z.min ex ey)) by lia.
      rewrite inject_Z_plus. ring. }
    rewrite Hd. exact Hv.
Qed.

(** [a - b] *)
Lemma sub_interval (a b lo hi : number) :
  good a = true -> good b = true -> good lo = true -> good hi = true ->
  (val lo <= val a - val b <= val hi)%Q ->
  good (sub a b) = true /\ (val lo <= val (sub a b) <= val hi)%Q.
Proof.
  intros Ga Gb Glo Ghi Hv.
  destruct a as [sx| | |sx mx ex]; try discriminate;
    destruct b as [sy| | |sy my ey]; try discriminate.
  - assert (H0 : (val (S754_zero sx) - val (S754_zero sy) == 0)%Q)
      by (cbn [val]; ring).
    rewrite H0 in Hv. destruct sx, sy; (split; [reflexivity|exact Hv]).
  - assert (H0 : (val (S754_zero sx) - val (S754_finite sy my ey)
                  == val (S754_finite (negb sy) my ey))%Q).
    { rewrite !val_finite. cbn [val]. destruct sy; cbn [negb]; ring. }
    rewrite H0 in Hv. split; [exact Gb|exact Hv].
  - assert (H0 : (val (S754_finite sx mx ex) - val (S754_zero sy)
                  == val (S754_finite sx mx ex))%Q) by (cbn [val]; ring).
    rewrite H0 in Hv. split; [exact Ga|exact Hv].
  - unfold sub, SFsub. apply normalize_interval; try assumption.
    assert (Hd : (inject_Z
                    (cond_Zopp sx (Zpos (fst (shl_align mx ex (Z.min ex ey))))
                     - cond_Zopp sy (Zpos (fst (shl_align my ey (Z.min ex ey)))))
                  * 2 ^ Z.min ex ey
                  == val (S754_finite sx mx ex) - val (S754_finite sy my ey))%Q).
    { rewrite <- (align_value sx mx ex (Z.min ex ey)),
        <- (align_value sy my ey (Z.min ex ey)) by lia.
      unfold Z.sub. rewrite inject_Z_plus, inject_Z_opp. ring. }
    rewrite Hd. exact Hv.
Qed.

(** *** [Math.min], [Math.max] and [Math.round] *)

Lemma Math_min_lower (a b : number) :
  good a = true -> good b = true -> (val b < val a)%Q -> Math_min a b = b.
Proof.
  intros Ga Gb Hv. pose proof (compare_val a b Ga Gb) as H.
  unfold Math_min. destruct (SFcompare a b) as [[| |]|];
    try contradiction; try reflexivity; lra.
Qed.

Lemma Math_max_upper (a b : number) :
  good a = true -> good b = true -> (val a < val b)%Q -> Math_max a b = b.
Proof.
  intros Ga Gb Hv. pose proof (compare_val a b Ga Gb) as H.
  unfold Math_max. destruct (SFcompare a b) as [[| |]|];
    try contradiction; try reflexivity; lra.
Qed.

(** [Math.round] of a number between two positive integers is an integer
    between them. *)
Lemma Math_round_range (y : number) (a b : Z) :
  good y = true -> 0 < a -> b < 2 ^ 52 ->
  (inject_Z a <= val y <= inject_Z b)%Q ->
  exists r, a <= r <= b /\ Math_round y = of_Z r.
Proof.
  intros Gy Ha Hb [Hlo Hhi].
  assert (Ha' : (0 < inject_Z a)%Q) by (rewrite <- (Zlt_Qlt 0); exact Ha).
  destruct (good_cases y Gy) as [Z0|(s & m & e & -> & HB & HC)]; [lra|].
  pose proof (val_finite s m e) as Hv. pose proof (val_pos m e) as Hp.
  destruct s; [lra|]. rewrite Hv in Hlo, Hhi. clear Hv.
  destruct (bounded_form m e HB) as (He & Hm & Hn).
  destruct e as [|k|k].
  - exfalso. specialize (Hn ltac:(lia)).
    change (2 ^ 0)%Q with 1%Q in Hhi. rewrite Qmult_1_r, <- Zle_Qle in Hhi.
    lia.
  - exfalso. specialize (Hn ltac:(lia)).
    rewrite <- (pow2_Z (Zpos k)), <- inject_Z_mult, <- Zle_Qle in Hhi by lia.
    assert (0 < 2 ^ Zpos k) by (apply Z.pow_pos_nonneg; lia).
    nia.
  - assert (Hs : forall c : Z,
              (inject_Z c == inject_Z (c * 2 ^ Zpos k) * 2 ^ Zneg k)%Q).
    { intros c. rewrite <- (scale_down c 0 (Zneg k)) by lia.
      change (2 ^ 0)%Q with 1%Q. ring. }
    rewrite (Hs a) in Hlo. rewrite (Hs b) in Hhi.
    apply inj_le in Hlo. apply inj_le in Hhi.
    assert (HP : 0 < 2 ^ Zpos k) by (apply Z.pow_pos_nonneg; lia).
    assert (HP2 : 2 ^ (Zpos k + 1) = 2 * 2 ^ Zpos k)
      by (rewrite Z.pow_add_r by lia; lia).
    set (r := round_half_up false m (Zneg k)).
    assert (Hr : a <= r <= b).
    { subst r. unfold round_half_up. cbn [cond_Zopp]. rewrite HP2. split.
      - apply Z.div_le_lower_bound; nia.
      - apply Z.lt_succ_r, Z.div_lt_upper_bound; nia. }
    exists r. split; [exact Hr|]. unfold Math_round. cbn [Z.leb Z.compare].
    fold r. destruct r; [lia|reflexivity|reflexivity].
Qed.

Lemma all_from_spec (p : Z -> bool) (n : nat) (z : Z) :
  all_from n z p = true ->
  forall r, z <= r < z + Z.of_nat n -> p r = true.
Proof.
  revert z. induction n as [|n IH]; intros z H r Hr; [lia|].
  cbn [all_from] in H. destruct (p z) eqn:Hz; [|discriminate].
  destruct (Z.eq_dec r z) as [->|Hne]; [exact Hz|].
  apply (IH (z + 1) H). lia.
Qed.

End RoundFacts.

(** ** The range of the generated index *)
Module MockFacts.
Import JSNum JSVal Dyadic RoundFacts NumFacts.
Local Open Scope Z_scope.

Lemma is_sine_range (x : number) :
  Mock.is_sine x = true -> good x = true /\ (-1 <= val x <= 1)%Q.
Proof.
  unfold Mock.is_sine. intros H.
  apply andb_true_iff in H. destruct H as [H H1].
  apply andb_true_iff in H. destruct H as [Hv H0].
  assert (G : good x = true).
  { destruct x as [s|s| |s m e]; try reflexivity; try exact Hv;
      try discriminate; destruct s; discriminate. }
  split; [exact G|].
  apply (le_val (of_Z (-1)) x eq_refl G) in H0.
  apply (le_val x (of_Z 1) G eq_refl) in H1.
  assert (Ha : (val (of_Z (-1)) == -1)%Q) by (vm_compute; reflexivity).
  assert (Hb : (val (of_Z 1) == 1)%Q) by (vm_compute; reflexivity).
  rewrite Ha in H0. rewrite Hb in H1. split; assumption.
Qed.

Lemma is_random_range (x : number) :
  Mock.is_random x = true -> good x = true /\ (0 <= val x < 1)%Q.
Proof.
  unfold Mock.is_random. intros H.
  apply andb_true_iff in H. destruct H as [H H1].
  apply andb_true_iff in H. destruct H as [Hv H0].
  assert (G : good x = true).
  { destruct x as [s|s| |s m e]; try reflexivity; try exact Hv;
      try discriminate; destruct s; discriminate. }
  split; [exact G|].
  apply (le_val (of_Z 0) x eq_refl G) in H0.
  apply (lt_val x (of_Z 1) G eq_refl) in H1.
  assert (Ha : (val (of_Z 0) == 0)%Q) by (vm_compute; reflexivity).
  assert (Hb : (val (of_Z 1) == 1)%Q) by (vm_compute; reflexivity).
  rewrite Ha in H0. rewrite Hb in H1. split; assumption.
Qed.

(** The index before the cuts: between 5 and 55, and neither cut off at 0
    nor at 100. *)
Lemma escapeIndex_range (sine random : number) :
  Mock.is_sine sine = true -> Mock.is_random random = true ->
  Mock.escapeIndex sine random
  = add (Mock.baseIndex sine) (Mock.noise random)
  /\ good (Mock.escapeIndex sine random) = true
  /\ (5 <= val (Mock.escapeIndex sine random) <= 55)%Q.
Proof.
  intros Hs Hr.
  destruct (is_sine_range sine Hs) as [Gs [Hs1 Hs2]].
  destruct (is_random_range random Hr) as [Gr [Hr1 Hr2]].
  (* sin * 20 *)
  destruct (mul_interval sine (of_Z 20) (of_Z (-20)) (of_Z 20))
    as [G1 V1]; try reflexivity; try assumption.
  { assert (Ha : (val (of_Z 20) == 20)%Q) by (vm_compute; reflexivity).
    assert (Hb : (val (of_Z (-20)) == -20)%Q) by (vm_compute; reflexivity).
    rewrite Ha, Hb. lra. }
  (* 30 + sin * 20 *)
  destruct (add_interval (of_Z 30) (mul sine (of_Z 20)) (of_Z 10) (of_Z 50))
    as [G2 V2]; try reflexivity; try assumption.
  { assert (Ha : (val (of_Z 20) == 20)%Q) by (vm_compute; reflexivity).
    assert (Hb : (val (of_Z (-20)) == -20)%Q) by (vm_compute; reflexivity).
    assert (Hc : (val (of_Z 30) == 30)%Q) by (vm_compute; reflexivity).
    assert (Hd : (val (of_Z 10) == 10)%Q) by (vm_compute; reflexivity).
    assert (He : (val (of_Z 50) == 50)%Q) by (vm_compute; reflexivity).
    rewrite Ha, Hb in V1. rewrite Hc, Hd, He. lra. }
  fold (Mock.baseIndex sine) in G2, V2.
  (* random - 0.5 *)
  destruct (sub_interval random (of_ratio 1 2) (of_ratio (-1) 2) (of_ratio 1 2))
    as [G3 V3]; try reflexivity; try assumption.
  { assert (Ha : (val (of_ratio 1 2) == 1 # 2)%Q) by (vm_compute; reflexivity).
    assert (Hb : (val (of_ratio (-1) 2) == - (1 # 2))%Q)
      by (vm_compute; reflexivity).
    rewrite Ha, Hb. lra. }
  (* (random - 0.5) * 10 *)
  destruct (mul_interval (sub random (of_ratio 1 2)) (of_Z 10)
              (of_Z (-5)) (of_Z 5))
    as [G4 V4]; try reflexivity; try assumption.
  { assert (Ha : (val (of_ratio 1 2) == 1 # 2)%Q) by (vm_compute; reflexivity).
    assert (Hb : (val (of_ratio (-1) 2) == - (1 # 2))%Q)
      by (vm_compute; reflexivity).
    assert (Hc : (val (of_Z 10) == 10)%Q) by (vm_compute; reflexivity).
    assert (Hd : (val (of_Z (-5)) == -5)%Q) by (vm_compute; reflexivity).
    assert (He : (val (of_Z 5) == 5)%Q) by (vm_compute; reflexivity).
    rewrite Ha, Hb in V3. rewrite Hc, Hd, He. lra. }
  fold (Mock.noise random) in G4, V4.
  (* baseIndex + noise *)
  destruct (add_interval (Mock.baseIndex sine) (Mock.noise random)
              (of_Z 5) (of_Z 55))
    as [G5 V5]; try reflexivity; try assumption.
  { assert (Ha : (val (of_Z 10) == 10)%Q) by (vm_compute; reflexivity).
    assert (Hb : (val (of_Z 50) == 50)%Q) by (vm_compute; reflexivity).
    assert (Hc : (val (of_Z (-5)) == -5)%Q) by (vm_compute; reflexivity).
    assert (Hd : (val (of_Z 5) == 5)%Q) by (vm_compute; reflexivity).
    assert (He : (val (of_Z 55) == 55)%Q) by (vm_compute; reflexivity).
    rewrite Ha, Hb in V2. rewrite Hc, Hd in V4. rewrite Hd, He. lra. }
  set (x := add (Mock.baseIndex sine) (Mock.noise random)) in *.
  assert (Ha : (val (of_Z 5) == 5)%Q) by (vm_compute; reflexivity).
  assert (Hb : (val (of_Z 55) == 55)%Q) by (vm_compute; reflexivity).
  rewrite Ha, Hb in V5.
  assert (E : Mock.escapeIndex sine random = x).
  { unfold Mock.escapeIndex. fold x.
    rewrite (Math_min_lower (of_Z 100) x eq_refl G5).
    - apply (Math_max_upper (of_Z 0) x eq_refl G5).
      assert (Hc : (val (of_Z 0) == 0)%Q) by (vm_compute; reflexivity).
      rewrite Hc. lra.
    - assert (Hc : (val (of_Z 100) == 100)%Q) by (vm_compute; reflexivity).
      rewrite Hc. lra. }
  rewrite E. split; [reflexivity|]. split; assumption.
Qed.

(** Whatever [Math.round] gave between 500 and 5500, the published
    index is a number from 5 to 55. *)
Lemma published_range (r : Z) :
  500 <= r <= 5500 ->
  isFinite (published r) = true
  /\ le (of_Z 5) (published r) = true
  /\ le (published r) (of_Z 55) = true.
Proof.
  intros Hr.
  assert (H : all_from (Z.to_nat 5001) 500
                (fun r => isFinite (published r)
                          && le (of_Z 5) (published r)
                          && le (published r) (of_Z 55)) = true)
    by (vm_compute; reflexivity).
  assert (Hn : 500 <= r < 500 + Z.of_nat (Z.to_nat 5001))
    by (rewrite Z2Nat.id; lia).
  pose proof (all_from_spec _ _ _ H r Hn) as Hp. cbv beta in Hp.
  apply andb_true_iff in Hp. destruct Hp as [Hp H3].
  apply andb_true_iff in Hp. destruct Hp as [H1 H2].
  repeat split; assumption.
Qed.

(** The cells of a generated row. *)
Lemma generated_cells (sine random : number) :
  Mock.is_sine sine = true -> Mock.is_random random = true ->
  let r := Mock.generate_cells sine random in
  (exists k, 500 <= k <= 5500 /\ Mock.escape_index_0_100 r = published k)
  /\ Mock.escape_signal r = "0"%string
  /\ (Mock.escape_level r = "低风险"%string
      \/ Mock.escape_level r = "中等风险"%string).
Proof.
  intros Hs Hr r. subst r.
  destruct (escapeIndex_range sine random Hs Hr) as (_ & G & V1 & V2).
  unfold Mock.generate_cells, Mock.index_cells.
  cbn [Mock.escape_index_0_100 Mock.escape_signal Mock.escape_level].
  set (x := Mock.escapeIndex sine random) in *.
  assert (N : forall c : Z, good (of_Z c) = true ->
              (55 < val (of_Z c))%Q -> gt x (of_Z c) = false).
  { intros c Gc Hc. change (lt (of_Z c) x = false).
    destruct (lt (of_Z c) x) eqn:E; [|reflexivity].
    apply (lt_val _ _ Gc G) in E. lra. }
  assert (H70 : gt x (of_Z 70) = false).
  { apply N; [reflexivity|].
    assert (Hc : (val (of_Z 70) == 70)%Q) by (vm_compute; reflexivity).
    rewrite Hc. reflexivity. }
  assert (H80 : gt x (of_Z 80) = false).
  { apply N; [reflexivity|].
    assert (Hc : (val (of_Z 80) == 80)%Q) by (vm_compute; reflexivity).
    rewrite Hc. reflexivity. }
  assert (H60 : gt x (of_Z 60) = false).
  { apply N; [reflexivity|].
    assert (Hc : (val (of_Z 60) == 60)%Q) by (vm_compute; reflexivity).
    rewrite Hc. reflexivity. }
  rewrite H70, H80, H60. split; [|split].
  - destruct (mul_interval x (of_Z 100) (of_Z 500) (of_Z 5500))
      as [G1 W1]; try reflexivity; try assumption.
    { assert (Ha : (val (of_Z 100) == 100)%Q) by (vm_compute; reflexivity).
      assert (Hb : (val (of_Z 500) == 500)%Q) by (vm_compute; reflexivity).
      assert (Hc : (val (of_Z 5500) == 5500)%Q) by (vm_compute; reflexivity).
      rewrite Ha, Hb, Hc. lra. }
    assert (Hb : (val (of_Z 500) == inject_Z 500)%Q)
      by (vm_compute; reflexivity).
    assert (Hc : (val (of_Z 5500) == inject_Z 5500)%Q)
      by (vm_compute; reflexivity).
    rewrite Hb, Hc in W1.
    destruct (Math_round_range (mul x (of_Z 100)) 500 5500 G1)
      as (k & Hk & Ek); [lia|reflexivity|exact W1|].
    exists k. split; [exact Hk|]. rewrite Ek. reflexivity.
  - reflexivity.
  - destruct (gt x (of_Z 40)); [right|left]; reflexivity.
Qed.

End MockFacts.

(** ** The server route *)

Module ServerFacts.
Import JSNum JSVal Server Samples.

Lemma api_data_cases (st : state) :
  (exists first rest,
      cachedData st = Some (first :: rest)
      /\ api_data st =
           {| code := 200;
              json := Columnar "success" (keys first)
                        (map (fun row => map (get row) (keys first)) (first :: rest))
                        (length (first :: rest)) |})
  \/ ((cachedData st = None \/ cachedData st = Some [])
      /\ api_data st = {| code := 500; json := Failure "error" load_failed |}).
Proof.
  unfold api_data.
  destruct (cachedData st) as [[|first rest]|] eqn:E.
  - right. split; [right|]; reflexivity.
  - left. exists first, rest. split; reflexivity.
  - right. split; [left|]; reflexivity.
Qed.

(** C10. The columnar route answers in exactly two ways, for every state
    of the server: the success payload (status 200) exactly when the
    cache holds an array with at least one row, and otherwise status 500
    with the error payload; a CSV file that loaded with zero rows is
    answered like a failed load. *)
Theorem api_data_two_outcomes (st : state) :
  (api_data st = {| code := 500; json := Failure "error" load_failed |}
   \/ exists columns data count,
        api_data st = {| code := 200; json := Columnar "success" columns data count |})
  /\ (is_success (api_data st) = true
      <-> exists first rest, cachedData st = Some (first :: rest))
  /\ (is_success (api_data st) = false
      <-> api_data st = {| code := 500; json := Failure "error" load_failed |})
  /\ (forall err,
        api_data (loadDataAndCache (Resolved []) st)
        = api_data (loadDataAndCache (Rejected err) st)).
Proof.
  destruct (api_data_cases st) as [(first & rest & Hc & Hr)|[Hc Hr]].
  - rewrite Hr. repeat split; try discriminate; eauto.
  - rewrite Hr. repeat split; try discriminate; eauto.
    intros (first & rest & E). destruct Hc as [Hc|Hc]; congruence.
Qed.

(** The route of [serverHttps.js] answers an empty table with success. *)
Lemma api_data_https_empty (n : nat) :
  api_data_https {| cachedData := Some []; accessCount := n |}
  = {| code := 200; json := Rows "success" [] 0 |}.
Proof. reflexivity. Qed.

(** *** Rebuilding rows from the columnar payload *)

Lemma zip_get_same_keys (row : object) :
  NoDup (keys row) -> zip_row (keys row) (map (get row) (keys row)) = row.
Proof.
  unfold zip_row, keys.
  induction row as [|[k v] row IH]; intros Hnd; [reflexivity|].
  cbn [map fst combine get]. rewrite String.eqb_refl.
  inversion Hnd as [|? ? Hk Hnd']; subst.
  f_equal. rewrite <- (IH Hnd') at 3.
  f_equal. apply map_ext_in. intros k' Hin. cbn [get].
  destruct (String.eqb_spec k k') as [->|_]; [|reflexivity].
  exfalso. apply Hk. apply list_elem_of_In. exact Hin.
Qed.

(** C2, as the code has it.  For every cached table with at least one
    row the payload lists the keys of the first row as its columns,
    holds in [data[i][j]] the value of row [i] under [columns[j]]
    ([undefined] when the row has no such property) and counts the rows;
    zipping the columns with [data[i]] gives back row [i] when the keys
    of row [i] are the keys of the first row. *)
Theorem api_data_columnar (n : nat) (first : object) (rest : list object) :
  let rows := first :: rest in
  exists data,
    api_data {| cachedData := Some rows; accessCount := n |}
    = {| code := 200; json := Columnar "success" (keys first) data (length rows) |}
    /\ length data = length rows
    /\ (forall i row, rows !! i = Some row ->
          data !! i = Some (map (get row) (keys first)))
    /\ (forall i row cells,
          rows !! i = Some row -> data !! i = Some cells ->
          NoDup (keys row) -> keys row = keys first ->
          zip_row (keys first) cells = row).
Proof.
  intros rows.
  exists (map (fun row => map (get row) (keys first)) rows).
  split; [reflexivity|]. split; [apply length_map|].
  assert (Hlk : forall i row, rows !! i = Some row ->
            map (fun row => map (get row) (keys first)) rows !! i
            = Some (map (get row) (keys first))).
  { intros i row Hi. rewrite list_lookup_fmap, Hi. reflexivity. }
  split; [exact Hlk|].
  intros i row cells Hi Hd Hnd Hk.
  rewrite (Hlk i row Hi) in Hd. injection Hd as <-.
  rewrite <- Hk. apply zip_get_same_keys, Hnd.
Qed.

Lemma api_data_columnar_witness :
  exists data,
    api_data {| cachedData := Some ragged; accessCount := 0 |}
    = {| code := 200; json := Columnar "success" ["date"] data 2 |}
    /\ data !! 0%nat = Some [VStr "2024-01-02"]
    /\ zip_row ["date"] [VStr "2024-01-02"] = [("date", VStr "2024-01-02")].
Proof.
  destruct (api_data_columnar 0 [("date", VStr "2024-01-02")]
              [[("date", VStr "2024-01-03"); ("_1", VStr "61.5")]])
    as (data & Hr & _ & Hd & Hz).
  exists data. split; [exact Hr|].
  assert (H0 : data !! 0%nat = Some [VStr "2024-01-02"])
    by exact (Hd 0%nat [("date", VStr "2024-01-02")] eq_refl).
  split; [exact H0|].
  apply (Hz 0%nat _ _ eq_refl H0); [|reflexivity].
  repeat constructor. intros Hin. inversion Hin.
Defined.

(** The second row of [ragged] is not rebuilt: its extra cell is not in
    the payload. *)
Lemma api_data_roundtrip_fails :
  exists columns data cells row,
    json (api_data {| cachedData := Some ragged; accessCount := 0 |})
    = Columnar "success" columns data 2
    /\ ragged !! 1%nat = Some row
    /\ data !! 1%nat = Some cells
    /\ zip_row columns cells <> row.
Proof.
  exists ["date"], [[VStr "2024-01-02"]; [VStr "2024-01-03"]],
    [VStr "2024-01-03"],
    [("date", VStr "2024-01-03"); ("_1", VStr "61.5")].
  repeat split. discriminate.
Qed.

End ServerFacts.

(** ** Parsing rows *)

Module ParseFacts.
Import JSNum JSVal JSDate Dashboard Samples.

Section WithHost.
Context `{Host}.

Lemma strict_eq_str (v : jsval) (s : string) :
  strict_eq v (VStr s) = true <-> v = VStr s.
Proof.
  destruct v; cbn; try (split; [discriminate|intros [=]]).
  rewrite String.eqb_eq. split; [intros ->; reflexivity|intros [=]; assumption].
Qed.

Lemma null_like_spec (v : jsval) :
  strict_eq v VNull || strict_eq v VUndef
  || strict_eq v (VStr "") || strict_eq v (VStr "NaN") = true
  <-> v = VNull \/ v = VUndef \/ v = VStr "" \/ v = VStr "NaN".
Proof.
  rewrite !orb_true_iff, !strict_eq_str.
  destruct v; cbn; intuition (try discriminate; auto).
Qed.

Lemma isFinite_not_nan (n : number) : isFinite n = true -> is_nan n = false.
Proof. destruct n; (discriminate || reflexivity). Qed.

(** C9. [safeNum] returns on every cell value, either [null] or a finite
    number and never NaN: [null], [undefined], the empty string, the
    string ["NaN"] and every value whose conversion is not finite give
    [null]; every other value gives its conversion, which is finite. *)
Theorem safeNum_null_or_finite (v : jsval) :
  (safeNum v = Null
   \/ exists n, safeNum v = Num n /\ isFinite n = true /\ is_nan n = false)
  /\ (v = VNull \/ v = VUndef \/ v = VStr "" \/ v = VStr "NaN" -> safeNum v = Null)
  /\ (isFinite (ToNumber v) = false -> safeNum v = Null)
  /\ (v <> VNull -> v <> VUndef -> v <> VStr "" -> v <> VStr "NaN" ->
      isFinite (ToNumber v) = true -> safeNum v = Num (ToNumber v)).
Proof.
  unfold safeNum.
  destruct (strict_eq v VNull || strict_eq v VUndef
            || strict_eq v (VStr "") || strict_eq v (VStr "NaN")) eqn:E.
  - apply null_like_spec in E.
    repeat split; auto. intros. intuition congruence.
  - assert (Hn : ~ (v = VNull \/ v = VUndef \/ v = VStr "" \/ v = VStr "NaN")).
    { intros Hv. apply null_like_spec in Hv. congruence. }
    destruct (isFinite (ToNumber v)) eqn:F.
    + repeat split; auto; try tauto; try discriminate.
      right. exists (ToNumber v). auto using isFinite_not_nan.
    + repeat split; auto; try tauto; try discriminate.
Qed.

(** *** The table kept by [fetchData] *)

Lemma insert_by_date_perm (x : row) (l : list row) :
  insert_by_date x l ≡ₚ x :: l.
Proof.
  induction l as [|y l IH]; cbn; [reflexivity|].
  destruct (date_after x y); [|reflexivity].
  rewrite IH. apply Permutation_swap.
Qed.

Lemma sort_by_date_perm (l : list row) : sort_by_date l ≡ₚ l.
Proof.
  induction l as [|x l IH]; cbn; [reflexivity|].
  rewrite insert_by_date_perm, IH. reflexivity.
Qed.


Lemma filter_all {A} (p : A -> bool) (l : list A) :
  Forall (fun a => p a = true) l -> List.filter p l = l.
Proof.
  induction 1 as [|a l Ha _ IH]; cbn; [reflexivity|].
  rewrite Ha, IH. reflexivity.
Qed.

(** The date of a parsed row comes from the date cell alone. *)
Lemma parseRow_valid_date (r : object) :
  valid_date (parseRow r) = true <-> exists t, date (parseRow r) = Some t.
Proof.
  unfold valid_date, getTime. destruct (date (parseRow r)) as [t|].
  - split; eauto.
  - split; [discriminate|intros [t [=]]].
Qed.


End WithHost.

Lemma safeNum_null_or_finite_witness :
  @safeNum DemoHost.cst (VStr "3386.35")
  = Num (@ToNumber DemoHost.cst (VStr "3386.35")).
Proof.
  apply (proj2 (proj2 (proj2 (@safeNum_null_or_finite DemoHost.cst (VStr "3386.35")))));
    try discriminate.
  vm_compute. reflexivity.
Defined.


(** The rows of the columnar payload are arrays: read by [parseRow] they
    have no date, and none is kept. *)
Lemma parsed_rows_of_columnar_payload :
  exists columns data,
    Server.json (Server.api_data
                   {| Server.cachedData := Some three_rows; Server.accessCount := 0 |})
    = Server.Columnar "success" columns data 3
    /\ @parsed_rows DemoHost.cst (map array_object data) = [].
Proof.
  eexists. eexists. split; [reflexivity|]. vm_compute. reflexivity.
Qed.

(** A row whose date cell is missing is dropped. *)
Lemma parsed_rows_drops_undated :
  length undated_rows = 3%nat
  /\ length (@parsed_rows DemoHost.cst undated_rows) = 2%nat.
Proof. split; vm_compute; reflexivity. Qed.

End ParseFacts.

(** ** Signal and risk tier *)

Module TierFacts.
Import JSNum JSVal Dashboard NumFacts SpecTiers.

Lemma ge_mono (v lo hi : number) :
  le lo hi = true -> ge v hi = true -> ge v lo = true.
Proof. unfold ge. intros H1 H2. exact (le_trans _ _ _ H1 H2). Qed.

Lemma ge_mono_false (v lo hi : number) :
  le lo hi = true -> ge v lo = false -> ge v hi = false.
Proof.
  intros H1 H2. destruct (ge v hi) eqn:E; [|reflexivity].
  rewrite (ge_mono v lo hi H1 E) in H2. discriminate.
Qed.



Lemma panel_breakpoints_ordered :
  le (of_Z 40) (of_Z 60) = true /\ le (of_Z 60) (of_Z 70) = true
  /\ le (of_Z 70) (of_Z 80) = true.
Proof. repeat split; vm_compute; reflexivity. Qed.

(** C4, as the code has it.  [getRiskLevel] is the ordered lookup of the
    value against the breakpoints 40, 60, 70 and 80, each reached with
    [>=]: a value below 40 (or NaN) is in the lowest of the five tiers, a
    value of at least 80 in the highest; 83 is in the highest tier and 39
    in the lowest.  The generator names four tiers with [>] against 40, 60
    and 80, and also puts 83 in its highest and 39 in its lowest tier. *)
Theorem getRiskLevel_ordered_lookup (value : number) :
  rank (Stats.level (Stats.getRiskLevel value)) = tier_lookup panel_breakpoints value
  /\ (ge value (of_Z 40) = false ->
      Stats.level (Stats.getRiskLevel value) = "极低风险")
  /\ (lt value (of_Z 40) = true ->
      Stats.level (Stats.getRiskLevel value) = "极低风险")
  /\ (ge value (of_Z 80) = true ->
      Stats.level (Stats.getRiskLevel value) = "极高风险")
  /\ Stats.level (Stats.getRiskLevel (of_Z 83)) = "极高风险"
  /\ Stats.level (Stats.getRiskLevel (of_Z 39)) = "极低风险"
  /\ Mock.escape_level (Mock.index_cells (of_Z 83)) = "极高风险"
  /\ Mock.escape_level (Mock.index_cells (of_Z 39)) = "低风险".
Proof.
  destruct panel_breakpoints_ordered as (H46 & H67 & H78).
  assert (Hlow : ge value (of_Z 40) = false ->
                 Stats.level (Stats.getRiskLevel value) = "极低风险").
  { intros H40. unfold Stats.getRiskLevel.
    rewrite (ge_mono_false value _ _ H46 H40) at 1.
    pose proof (ge_mono_false value _ _ H67 (ge_mono_false value _ _ H46 H40)) as H70.
    rewrite (ge_mono_false value _ _ H78 H70), H70, H40.
    reflexivity. }
  split.
  { unfold tier_lookup, panel_breakpoints, Stats.getRiskLevel.
    cbn [List.filter].
    destruct (ge value (of_Z 80)) eqn:H80.
    { pose proof (ge_mono value _ _ H78 H80) as H70.
      pose proof (ge_mono value _ _ H67 H70) as H60.
      pose proof (ge_mono value _ _ H46 H60) as H40.
      rewrite H40, H60, H70. reflexivity. }
    destruct (ge value (of_Z 70)) eqn:H70.
    { pose proof (ge_mono value _ _ H67 H70) as H60.
      pose proof (ge_mono value _ _ H46 H60) as H40.
      rewrite H40, H60. reflexivity. }
    destruct (ge value (of_Z 60)) eqn:H60.
    { pose proof (ge_mono value _ _ H46 H60) as H40.
      rewrite H40. reflexivity. }
    destruct (ge value (of_Z 40)) eqn:H40; reflexivity. }
  split; [exact Hlow|].
  split; [intros Hlt; apply Hlow, lt_not_ge, Hlt|].
  split.
  { intros H80. unfold Stats.getRiskLevel. rewrite H80. reflexivity. }
  repeat split; vm_compute; reflexivity.
Qed.

Lemma getRiskLevel_ordered_lookup_witness :
  Stats.level (Stats.getRiskLevel (of_ratio 3995 100)) = "极低风险"
  /\ Stats.level (Stats.getRiskLevel (of_ratio 8001 100)) = "极高风险".
Proof.
  split.
  - apply (proj1 (proj2 (proj2 (getRiskLevel_ordered_lookup (of_ratio 3995 100))))).
    vm_compute. reflexivity.
  - apply (proj1 (proj2 (proj2 (proj2 (getRiskLevel_ordered_lookup (of_ratio 8001 100)))))).
    vm_compute. reflexivity.
Defined.

(** With the breakpoints 40, 60, 75 and 85 of the specification, 83 is in
    the third tier above the lowest; [getRiskLevel] puts it in the fourth. *)
Lemma getRiskLevel_83_not_third_tier :
  tier_lookup spec_breakpoints (of_Z 83) = 3%nat
  /\ rank (Stats.level (Stats.getRiskLevel (of_Z 83))) = 4%nat
  /\ Stats.level (Stats.getRiskLevel (of_Z 83))
     = Stats.level (Stats.getRiskLevel (of_Z 85)).
Proof. repeat split; vm_compute; reflexivity. Qed.

End TierFacts.

(** ** The chart: bounds of the overlays, period means *)

Module ChartFacts.
Import JSNum JSVal Dashboard NumOrder NumFacts Samples.

(** [Math.max(0, Math.min(100, x))] is NaN for NaN and within [0, 100]
    otherwise. *)
Lemma clamp100_bounds (x : number) :
  (is_nan x = true /\ Chart.clamp100 x = NaN)
  \/ (is_nan x = false
      /\ le (of_Z 0) (Chart.clamp100 x) = true
      /\ le (Chart.clamp100 x) (of_Z 100) = true).
Proof. apply (clamp_bounds (of_Z 0) (of_Z 100) x). vm_compute. reflexivity. Qed.

(** The generated index, before rounding, is within [0, 100] whenever the
    sum of the base and the noise is a number. *)
Lemma escapeIndex_bounds (sine random : number) :
  is_nan (add (Mock.baseIndex sine) (Mock.noise random)) = false ->
  le (of_Z 0) (Mock.escapeIndex sine random) = true
  /\ le (Mock.escapeIndex sine random) (of_Z 100) = true.
Proof.
  intros Hn.
  destruct (clamp100_bounds (add (Mock.baseIndex sine) (Mock.noise random)))
    as [[Hn' _]|[_ Hb]]; [congruence|exact Hb].
Qed.

Lemma find_assoc_set (k : string) (v : cell) (l : list (string * cell)) :
  List.find (fun kv => String.eqb (fst kv) k) (Chart.assoc_set k v l) = Some (k, v).
Proof.
  induction l as [|[k' v'] l IH]; cbn.
  - rewrite String.eqb_refl. reflexivity.
  - destruct (String.eqb k' k) eqn:E; cbn.
    + rewrite String.eqb_refl. reflexivity.
    + rewrite E. exact IH.
Qed.

Lemma overlay_value_with_overlay (p : Chart.chart_point) (k : string) (v : cell) :
  Chart.overlay_value (Chart.with_overlay p k v) k = Some v.
Proof.
  unfold Chart.overlay_value, Chart.with_overlay.
  destruct (String.eqb k "hs300_close"); [reflexivity|].
  destruct (String.eqb k "shanghai_close"); [reflexivity|].
  cbn [Chart.overlay]. rewrite find_assoc_set. reflexivity.
Qed.

(** The value that [processedChartData] stores under the key of an
    overlay is [null], NaN, or a number within [0, 100]. *)
Lemma overlay_cell_cases `{Host} (Math_log : number -> number)
  (option : Chart.overlay_option) (range_min range_max : number)
  (rawValue : jsval) (p : Chart.chart_point) (k : string) :
  let c :=
    if Chart.missing rawValue then Null
    else Num (Chart.clamp100
                (mul (Chart.normalizedValue Math_log option range_min range_max
                        rawValue) (of_Z 100))) in
  Chart.overlay_value (Chart.with_overlay p k c) k = Some c
  /\ (c = Null \/ c = Num NaN
      \/ exists v, c = Num v /\ le (of_Z 0) v = true /\ le v (of_Z 100) = true).
Proof.
  intros c. split; [apply overlay_value_with_overlay|].
  subst c. destruct (Chart.missing rawValue); [auto|].
  destruct (clamp100_bounds
              (mul (Chart.normalizedValue Math_log option range_min range_max
                      rawValue) (of_Z 100))) as [[_ E]|[_ Hb]].
  - right. left. rewrite E. reflexivity.
  - right. right. eauto.
Qed.

(** C5, where the code departs from it.  With the overlay of the
    sentiment proxy selected over days on which every value is 0, the
    range of the overlay is empty, the normalised value is 0/0, and the
    value added to both points of the series is NaN: it is neither [null]
    nor within [0, 100]. *)
Theorem overlay_of_flat_series_is_NaN (Math_log : number -> number) :
  exists p1 p2,
    bind (@Chart.chartData DemoHost.cst (@parsed_rows DemoHost.cst flat_rows) "day" 800)
      (fun series =>
         @Chart.processedChartData DemoHost.cst Math_log series ["douyin_search"])
    = Ok [Some p1; Some p2]
    /\ Chart.overlay_value p1 "douyin_search" = Some (Num NaN)
    /\ Chart.overlay_value p2 "douyin_search" = Some (Num NaN)
    /\ le (of_Z 0) NaN = false.
Proof.
  eexists. eexists. split; [vm_compute; reflexivity|].
  repeat split; vm_compute; reflexivity.
Qed.

(** C1, where the code departs from it.  In the month view the point of
    a month with the indices 50 and missing shows 25: the missing index
    is added as 0 and counted in the divisor, while the average of
    [StatisticsPanel] over the same rows is 50.  A group without any index
    shows 0, and [StatisticsPanel] shows 0 as the current value of a row
    without an index. *)
Theorem period_mean_counts_missing_as_zero :
  (exists p,
      @Chart.chartData DemoHost.cst (@parsed_rows DemoHost.cst gap_rows) "month" 800
      = Ok [Some p]
      /\ Chart.escape p = Num (of_Z 25))
  /\ (exists s,
        Stats.compute_stats (@parsed_rows DemoHost.cst gap_rows)
          (@parseRow DemoHost.cst [("日期", VStr "2024-01-03");
                                   ("escape_index_0_100", VStr "")])
        = Some s
        /\ Stats.avg s = of_Z 50
        /\ Stats.current s = of_Z 0)
  /\ (exists p,
        @Chart.chartData DemoHost.cst (@parsed_rows DemoHost.cst empty_rows) "week" 800
        = Ok [Some p]
        /\ Chart.escape p = Num (of_Z 0)).
Proof.
  split; [|split].
  - eexists. split; vm_compute; reflexivity.
  - eexists. split; [vm_compute; reflexivity|]. split; vm_compute; reflexivity.
  - eexists. split; vm_compute; reflexivity.
Qed.

Lemma or_zero_idem (c : cell) : or_zero (Num (or_zero c)) = or_zero c.
Proof.
  destruct c as [| |n]; try reflexivity.
  cbn. destruct (truthy n) eqn:E; cbn; [rewrite E|]; reflexivity.
Qed.

(** In the mean of a group a missing index cannot be told from an index
    of 0: writing 0 into every row without an index leaves the mean as it
    is. *)
Lemma meanEscape_zero_fill (arr : list row) :
  meanEscape arr = meanEscape (map zero_fill arr).
Proof.
  unfold meanEscape. rewrite length_map. f_equal.
  generalize pzero. induction arr as [|x arr IH]; intros s; cbn [fold_left map];
    [reflexivity|].
  rewrite IH.
  replace (or_zero (escape_index_0_100 (zero_fill x)))
    with (or_zero (escape_index_0_100 x))
    by (symmetry; apply or_zero_idem).
  reflexivity.
Qed.

End ChartFacts.

(** ** Downsampling *)

Module DownsampleFacts.
Import Dashboard Positions.

Section Facts.
Context {A : Type}.
Variable undef : A.
Variable same : A -> A -> bool.

Local Abbreviation index := (index undef).
Local Abbreviation pick := (pick undef).
Local Abbreviation downsampleEven := (downsampleEven undef same).

Lemma fold_push {B} (f : B -> A) (l : list B) (acc : list A) :
  fold_left (fun out i => out ++ [f i]) l acc = acc ++ map f l.
Proof.
  revert acc. induction l as [|b l IH]; intros acc; cbn.
  - symmetry. apply app_nil_r.
  - rewrite IH, <- app_assoc. reflexivity.
Qed.

Lemma pick_map (data : list A) (n target : nat) :
  pick data n target = map (fun i => index data (i * n / target)) (seq 0 target).
Proof.
  unfold Dashboard.pick.
  rewrite (fold_push (fun i => index data (i * n / target))). reflexivity.
Qed.

Lemma length_pick (data : list A) (n target : nat) :
  length (pick data n target) = target.
Proof. rewrite pick_map, length_map. apply length_seq. Qed.

Lemma index_cons (x : A) (data : list A) (i : nat) :
  index (x :: data) (S i) = index data i.
Proof. reflexivity. Qed.

Lemma index_lookup (data : list A) (i : nat) (x : A) :
  data !! i = Some x -> index data i = x.
Proof. unfold Dashboard.index. intros ->. reflexivity. Qed.

Lemma inc_from_weaken (k k' : nat) (l : list nat) :
  k' <= k -> inc_from k l -> inc_from k' l.
Proof. destruct l; cbn; [trivial|]. intros ? [? ?]. split; [lia|assumption]. Qed.

Lemma inc_from_ge (k : nat) (l : list nat) :
  inc_from k l -> Forall (fun i => k <= i) l.
Proof.
  revert k. induction l as [|i l IH]; intros k; cbn; [constructor|].
  intros [Hk Hl]. constructor; [assumption|].
  eapply Forall_impl; [apply (IH (S i) Hl)|]. cbn. intros. lia.
Qed.

(** Elements taken at strictly increasing positions form a sublist. *)
Lemma increasing_sublist (data : list A) (k : nat) (idxs : list nat) :
  inc_from k idxs ->
  Forall (fun i => i < k + length data) idxs ->
  map (fun i => index data (i - k)) idxs `sublist_of` data.
Proof.
  revert k idxs. induction data as [|x data IH]; intros k idxs Hinc Hlt.
  - destruct idxs as [|i idxs]; [constructor|].
    cbn in Hinc. inversion Hlt; subst. cbn in *. lia.
  - destruct idxs as [|i idxs]; [apply sublist_nil_l|].
    cbn in Hinc. destruct Hinc as [Hk Hinc].
    assert (Hshift : forall l, Forall (fun j => S k <= j) l ->
              map (fun j => index (x :: data) (j - k)) l
              = map (fun j => index data (j - S k)) l).
    { intros l Hl. apply map_ext_in. intros j Hj.
      rewrite List.Forall_forall in Hl. specialize (Hl j Hj).
      replace (j - k) with (S (j - S k)) by lia. apply index_cons. }
    inversion Hlt as [|? ? Hi Hlt']; subst.
    destruct (decide (i = k)) as [->|Hne].
    + cbn [map]. replace (k - k) with 0 by lia. cbn [Dashboard.index lookup].
      change ((x :: data) !! 0) with (Some x). cbn.
      apply sublist_skip.
      rewrite Hshift by (apply inc_from_ge, Hinc).
      apply IH; [exact Hinc|].
      eapply Forall_impl; [exact Hlt'|]. cbn. intros. lia.
    + apply sublist_cons.
      assert (Hinc' : inc_from (S k) (i :: idxs)) by (cbn; split; [lia|exact Hinc]).
      rewrite Hshift by (apply inc_from_ge, Hinc').
      apply IH; [exact Hinc'|].
      eapply Forall_impl; [exact Hlt|]. cbn. intros. lia.
Qed.

Lemma inc_from_map_seq (f : nat -> nat) (z : nat) (len a k : nat) :
  k <= f a ->
  (forall i, S (f i) <= f (S i)) ->
  f (a + len) <= z ->
  inc_from k (map f (seq a len) ++ [z]).
Proof.
  revert a k. induction len as [|len IH]; intros a k Hk Hmono Hz; cbn.
  - replace (a + 0) with a in Hz by lia. split; [lia|trivial].
  - split; [exact Hk|]. apply IH; [apply Hmono|exact Hmono|].
    replace (S a + len) with (a + S len) by lia. exact Hz.
Qed.

(** The picked positions. *)
Lemma position_lt (n target i : nat) : i < target -> 0 < n -> i * n / target < n.
Proof.
  intros Hi Hn. apply Nat.Div0.div_lt_upper_bound. nia.
Qed.

Lemma position_step (n target i : nat) :
  0 < target -> target <= n -> S (i * n / target) <= S i * n / target.
Proof.
  intros Ht Hn.
  replace (S (i * n / target)) with ((i * n + 1 * target) / target)
    by (rewrite Nat.div_add by lia; lia).
  apply Nat.Div0.div_le_mono. nia.
Qed.

Lemma set_last_snoc (l : list A) (y v : A) :
  set_last (l ++ [y]) v = l ++ [v].
Proof.
  unfold set_last. destruct (l ++ [y]) eqn:E.
  - destruct l; discriminate.
  - rewrite <- E. rewrite length_app. cbn.
    replace (length l + 1 - 1) with (length l + 0) by lia.
    rewrite (insert_app_r l [y] 0 v). reflexivity.
Qed.

Lemma last_elem_snoc (l : list A) (y : A) : last_elem undef (l ++ [y]) = y.
Proof.
  unfold last_elem. destruct (l ++ [y]) eqn:E.
  - destruct l; discriminate.
  - rewrite <- E. apply index_lookup.
    rewrite length_app. cbn. replace (length l + 1 - 1) with (length l + 0) by lia.
    rewrite (lookup_app_r l [y]) by lia. replace (length l + 0 - length l) with 0 by lia.
    reflexivity.
Qed.

(** The shape of the result when the input is longer than the target and
    the target is at least 1: the picks at the first [target - 1]
    positions, then either the last pick, when it is [===] to the last
    element, or the last element. *)
Lemma downsampleEven_shape (data : list A) (target : nat) :
  1 <= target -> target < length data ->
  exists z,
    downsampleEven data target
    = map (fun i => index data (i * length data / target)) (seq 0 (target - 1)) ++ [z]
    /\ (z = index data (length data - 1)
        \/ (z = index data ((target - 1) * length data / target)
            /\ same z (index data (length data - 1)) = true)).
Proof.
  intros Ht Hn. unfold Dashboard.downsampleEven.
  destruct (Nat.leb_spec (length data) target) as [Hle|_]; [lia|].
  rewrite pick_map.
  assert (Hseq : seq 0 target = seq 0 (target - 1) ++ [target - 1]).
  { replace target with (target - 1 + 1) at 1 by lia. apply seq_app. }
  rewrite Hseq, map_app. cbn [map].
  rewrite last_elem_snoc, set_last_snoc.
  destruct (same _ _) eqn:E; cbn [negb].
  - eexists. split; [reflexivity|]. right. split; [reflexivity|exact E].
  - eexists. split; [reflexivity|]. left. reflexivity.
Qed.

Hypothesis same_sound : forall x y, same x y = true -> x = y.

(** C6, as the code has it.  [downsampleEven] returns the list itself
    when its length is at most the target; for a target of at least 1
    below the length it returns exactly [target] elements, which form a
    sublist of the input, so that none is changed or made up and the
    order is kept, and the last of them is the last element of the
    input. *)
Theorem downsampleEven_sublist (data : list A) (target : nat) :
  (length data <= target -> downsampleEven data target = data)
  /\ (1 <= target -> target < length data ->
      length (downsampleEven data target) = target
      /\ downsampleEven data target `sublist_of` data
      /\ last (downsampleEven data target) = last data).
Proof.
  split.
  { intros Hle. unfold Dashboard.downsampleEven.
    destruct (Nat.leb_spec (length data) target); [reflexivity|lia]. }
  intros Ht Hn.
  destruct (downsampleEven_shape data target Ht Hn) as (z & -> & Hz).
  assert (Hzl : z = index data (length data - 1)).
  { destruct Hz as [Hz|[_ Hz]]; [exact Hz|]. apply same_sound, Hz. }
  clear Hz. subst z.
  split.
  { rewrite length_app, length_map, length_seq. cbn. lia. }
  split.
  { pose proof (increasing_sublist data 0
                  (map (fun i => i * length data / target) (seq 0 (target - 1))
                   ++ [length data - 1])) as Hs.
    rewrite map_app, map_map in Hs. cbn [map] in Hs.
    rewrite (map_ext (fun i => index data (i * length data / target - 0))
               (fun i => index data (i * length data / target))) in Hs
      by (intros; f_equal; lia).
    replace (length data - 1 - 0) with (length data - 1) in Hs by lia.
    apply Hs.
    - apply inc_from_map_seq; [lia| |].
      + intros i. apply position_step; lia.
      + cbn. pose proof (position_lt (length data) target (target - 1)). lia.
    - apply Forall_app. split.
      + apply Forall_map, List.Forall_forall. intros i Hi.
        apply in_seq in Hi. cbn. apply position_lt; lia.
      + repeat constructor. lia. }
  rewrite last_snoc.
  destruct (last data) as [x|] eqn:El.
  - f_equal. apply index_lookup. rewrite <- El, last_lookup.
    f_equal. lia.
  - apply last_None in El. subst data. cbn in Hn. lia.
Qed.

End Facts.

Lemma downsampleEven_sublist_witness :
  let data := map JSVal.VStr ["a"; "b"; "c"; "d"; "e"; "f"; "g"; "h"; "i"; "j"] in
  length (downsampleEven JSVal.VUndef (fun _ _ => false) data 3) = 3
  /\ downsampleEven JSVal.VUndef (fun _ _ => false) data 3 `sublist_of` data
  /\ last (downsampleEven JSVal.VUndef (fun _ _ => false) data 3) = last data.
Proof.
  intros data.
  apply (downsampleEven_sublist JSVal.VUndef (fun _ _ => false)
           (fun x y H => False_ind (x = y) (Bool.diff_false_true H)) data 3);
    cbn; lia.
Defined.

(** With a target of 0 nothing is returned, not even the last element:
    the assignment to [out[-1]] adds no element.  And on numbers, where
    [+0 === -0], the last pick [+0] is kept in place of the last element
    [-0]. *)
Lemma downsampleEven_target_0 :
  let letters := map JSVal.VStr ["a"; "b"; "c"] in
  let zeros := map JSVal.VNum [JSNum.pzero; JSNum.of_Z 5; JSNum.nzero] in
  (downsampleEven JSVal.VUndef JSVal.strict_eq letters 0 = []
   /\ last (downsampleEven JSVal.VUndef JSVal.strict_eq letters 0) <> last letters)
  /\ (downsampleEven JSVal.VUndef JSVal.strict_eq zeros 1 = [JSVal.VNum JSNum.pzero]
      /\ last (downsampleEven JSVal.VUndef JSVal.strict_eq zeros 1) <> last zeros).
Proof.
  split; split; try reflexivity; try discriminate.
Qed.

End DownsampleFacts.

(** ** Repeated runs over the store *)

Module ImperativeFacts.
Import JSNum JSVal Dashboard Imperative.

Section Downsample.
Context {A : Type}.
Variable undef : A.
Variable same : A -> A -> bool.

Lemma update_last (pre : list (list A)) (acc : list A) (f : list A -> list A) :
  alter f (length pre) (pre ++ [acc]) = pre ++ [f acc].
Proof.
  rewrite alter_app_r_alt by lia.
  replace (length pre - length pre) with 0 by lia. reflexivity.
Qed.

Lemma lookup_last (pre : list (list A)) (acc : list A) :
  (pre ++ [acc]) !! length pre = Some acc.
Proof.
  rewrite lookup_app_r by lia.
  replace (length pre - length pre) with 0 by lia. reflexivity.
Qed.

Lemma for_each_push (pre : list (list A)) (data : ref) (d : list A)
  (g : list A -> nat -> A) (l : list nat) (acc : list A) :
  pre !! data = Some d ->
  for_each l (fun i => let* d := read data in push (length pre) (g d i))
    (pre ++ [acc])
  = (tt, pre ++ [acc ++ map (g d) l]).
Proof.
  intros Hd. revert acc. induction l as [|i l IH]; intros acc.
  - cbn. rewrite app_nil_r. reflexivity.
  - cbn [for_each]. unfold st_bind at 1. unfold st_bind at 1.
    unfold read at 1. rewrite (lookup_app_l_Some _ _ _ _ Hd).
    unfold push, update. rewrite update_last, IH, <- app_assoc. reflexivity.
Qed.

(** A call allocates at most one array, leaves the others as they were,
    and returns an array whose elements are those of the functional
    [downsampleEven]. *)
Lemma downsampleEven_run (h : store A) (data : ref) (d : list A) (target : nat) :
  h !! data = Some d ->
  exists ext out,
    downsampleEven undef same data target h = (out, h ++ ext)
    /\ (h ++ ext) !! out = Some (Dashboard.downsampleEven undef same d target).
Proof.
  intros Hd. unfold downsampleEven, Dashboard.downsampleEven.
  unfold st_bind at 1. unfold read at 1. rewrite Hd.
  destruct (length d <=? target)%nat.
  { exists [], data. unfold ret. rewrite app_nil_r. auto. }
  unfold st_bind at 1. unfold alloc at 1.
  unfold st_bind at 1.
  rewrite (for_each_push h data d
             (fun d0 i => index undef d0 (i * length d / target)) _ [] Hd).
  cbn [app].
  unfold st_bind at 1. unfold read at 1. rewrite lookup_last.
  unfold st_bind at 1. unfold read at 1. rewrite (lookup_app_l_Some _ _ _ _ Hd).
  unfold Dashboard.pick.
  rewrite (DownsampleFacts.fold_push
             (fun i => index undef d (i * length d / target)) (seq 0 target) []).
  cbn [app].
  destruct (negb (same _ _)).
  - unfold st_bind, update, ret. rewrite update_last.
    eexists. eexists. split; [reflexivity|]. apply lookup_last.
  - unfold st_bind, ret.
    eexists. eexists. split; [reflexivity|]. apply lookup_last.
Qed.

Lemma downsampleEven_refines (h : store A) (data : ref) (d : list A) (target : nat) :
  h !! data = Some d ->
  exists ext,
    snd (downsampleEven undef same data target h) = h ++ ext
    /\ contents (downsampleEven undef same data target h)
       = Some (Dashboard.downsampleEven undef same d target).
Proof.
  intros Hd. destruct (downsampleEven_run h data d target Hd) as (ext & out & -> & Hc).
  exists ext. split; [reflexivity|exact Hc].
Qed.

End Downsample.

Section Aggregate.
Context `{Host}.

Lemma group_step (key : option string) (d : row)
  (m : list (option string * list row)) (pre : list (list row)) :
  exists arr,
    (let* arr := get_or_new key (number_from (length pre) m) in
     let* _ := push arr d in ret arr) (pre ++ map snd m)
    = (arr, pre ++ map snd (group_push key d m))
    /\ map_set key arr (number_from (length pre) m)
       = number_from (length pre) (group_push key d m).
Proof.
  revert pre. induction m as [|[k l] m IH]; intros pre.
  - exists (length pre). cbn [number_from group_push map snd map_set].
    rewrite app_nil_r.
    unfold st_bind, get_or_new, alloc, push, update, ret. cbn [map_get].
    rewrite update_last. auto.
  - cbn [number_from group_push map snd].
    destruct (key_eqb k key) eqn:E.
    + exists (length pre). unfold get_or_new. cbn [map_get map_set]. rewrite E.
      unfold st_bind, ret, push, update. cbn [map snd].
      rewrite alter_app_r_alt by lia.
      replace (length pre - length pre) with 0 by lia. auto.
    + specialize (IH (pre ++ [l])).
      rewrite length_app in IH. cbn [length] in IH.
      replace (length pre + 1) with (S (length pre)) in IH by lia.
      rewrite <- !app_assoc in IH. cbn [app] in IH.
      destruct IH as (arr & Hrun & Hset). exists arr.
      unfold get_or_new in *. cbn [map_get map_set]. rewrite E.
      cbn [map snd]. split; [exact Hrun|]. rewrite Hset. reflexivity.
Qed.

Lemma group_loop_refines (period : string) (data : list row)
  (m : list (option string * list row)) (pre : list (list row)) :
  exists gr ext,
    group_loop period data (number_from (length pre) m) (pre ++ map snd m)
    = (gr, pre ++ ext)
    /\ match group_rows period data m, gr with
       | Ok m', Ok gs => gs = number_from (length pre) m' /\ ext = map snd m'
       | Throw e, Throw e' => e = e'
       | _, _ => False
       end.
Proof.
  revert m. induction data as [|d data IH]; intros m.
  - cbn. unfold ret. exists (Ok (number_from (length pre) m)), (map snd m). auto.
  - cbn [group_loop group_rows].
    destruct (period_key period d) as [key|e]; cbn [bind].
    + destruct (group_step key d m pre) as (arr & Hrun & Hset).
      unfold st_bind in Hrun |- *.
      destruct (get_or_new key (number_from (length pre) m) (pre ++ map snd m))
        as [arr' h1].
      destruct (push arr' d h1) as [[] h2].
      injection Hrun as -> ->.
      rewrite Hset. apply IH.
    + unfold ret. exists (Throw e), (map snd m). auto.
Qed.

Lemma numbered_lookup (m : list (option string * list row))
  (pre post : list (list row)) :
  Forall2 (fun g kl => (pre ++ map snd m ++ post) !! snd g = Some (snd kl))
    (number_from (length pre) m) m.
Proof.
  revert pre. induction m as [|[k l] m IH]; intros pre; cbn; constructor.
  - cbn. rewrite lookup_app_r by lia.
    replace (length pre - length pre) with 0 by lia. reflexivity.
  - specialize (IH (pre ++ [l])).
    rewrite length_app in IH. cbn [length] in IH.
    replace (length pre + 1) with (S (length pre)) in IH by lia.
    rewrite <- !app_assoc in IH. exact IH.
Qed.

Lemma point_loop_refines (gs : groups) (m : list (option string * list row))
  (pre : list (list row)) (acc : list row) :
  Forall2 (fun g kl => pre !! snd g = Some (snd kl)) gs m ->
  exists pr acc',
    point_loop gs (length pre) (pre ++ [acc]) = (pr, pre ++ [acc'])
    /\ match mapM (fun '(_, arr) => aggregate_point arr) m, pr with
       | Ok ps, Ok _ => acc' = acc ++ ps
       | Throw e, Throw e' => e = e'
       | _, _ => False
       end.
Proof.
  intros Hf. revert acc. induction Hf as [|[k r] [k' l] gs m Hr Hf IH]; intros acc.
  - cbn. unfold ret. exists (Ok tt), acc. rewrite app_nil_r. auto.
  - cbn [point_loop mapM]. cbn [snd] in Hr.
    unfold st_bind at 1. unfold read at 1.
    rewrite (lookup_app_l_Some _ _ _ _ Hr).
    destruct (aggregate_point l) as [p|e]; cbn [bind].
    + unfold st_bind at 1. unfold push, update.
      rewrite update_last.
      destruct (IH (acc ++ [p])) as (pr & acc' & Hrun & Hm).
      exists pr, acc'. split; [exact Hrun|].
      destruct (mapM _ m) as [ps|e]; cbn [bind]; destruct pr;
        try contradiction; try assumption.
      rewrite Hm, <- app_assoc. reflexivity.
    + unfold ret. exists (Throw e), acc. auto.
Qed.

(** A call leaves the arrays that existed before it as they were, and
    returns the reference of an array whose elements are those of the
    functional [aggregateByPeriod], or throws as it does. *)
Lemma aggregateByPeriod_run (h : store row) (data : ref) (d : list row)
  (period : string) :
  h !! data = Some d ->
  exists r ext,
    aggregateByPeriod data period h = (r, h ++ ext)
    /\ match Dashboard.aggregateByPeriod d period, r with
       | Ok l, Ok out => (h ++ ext) !! out = Some l
       | Throw e, Throw e' => e = e'
       | _, _ => False
       end.
Proof.
  intros Hd. unfold aggregateByPeriod, Dashboard.aggregateByPeriod.
  destruct (String.eqb period "day").
  { exists (Ok data), []. unfold ret. rewrite app_nil_r. auto. }
  unfold st_bind at 1. unfold read at 1. rewrite Hd.
  destruct (group_loop_refines period d [] h) as (gr & ext & Hrun & Hm).
  cbn [number_from map snd] in Hrun. rewrite app_nil_r in Hrun.
  unfold st_bind at 1. rewrite Hrun.
  destruct (group_rows period d []) as [m|e], gr as [gs|e'];
    try contradiction; cbn [bind].
  2: { subst. unfold ret. exists (Throw e'), ext. auto. }
  destruct Hm as [-> ->].
  unfold st_bind at 1. unfold alloc at 1.
  pose proof (numbered_lookup m h []) as Hl. rewrite app_nil_r in Hl.
  destruct (point_loop_refines _ _ (h ++ map snd m) [] Hl)
    as (pr & acc' & Hrun' & Hm).
  unfold st_bind at 1. rewrite Hrun'.
  destruct (mapM _ m) as [ps|e], pr as [[]|e'];
    try contradiction; cbn [bind].
  2: { subst. unfold ret. rewrite <- app_assoc.
       exists (Throw e'), (map snd m ++ [acc']). auto. }
  subst acc'. cbn [app].
  unfold st_bind, update, ret.
  rewrite update_last, <- app_assoc.
  eexists. eexists. split; [reflexivity|].
  rewrite app_assoc. apply lookup_last.
Qed.

Lemma aggregateByPeriod_refines (h : store row) (data : ref) (d : list row)
  (period : string) :
  h !! data = Some d ->
  exists ext,
    snd (aggregateByPeriod data period h) = h ++ ext
    /\ contents_res (aggregateByPeriod data period h)
       = match Dashboard.aggregateByPeriod d period with
         | Ok l => Ok (Some l)
         | Throw e => Throw e
         end.
Proof.
  intros Hd.
  destruct (aggregateByPeriod_run h data d period Hd) as (r & ext & -> & Hm).
  exists ext. split; [reflexivity|]. unfold contents_res. cbn [fst snd].
  destruct (Dashboard.aggregateByPeriod d period), r; try contradiction; congruence.
Qed.

End Aggregate.

Lemma prefix_lookup {A} (h ext : list A) (r : nat) (x : A) :
  h !! r = Some x -> (h ++ ext) !! r = Some x.
Proof. apply lookup_app_l_Some. Qed.

Lemma safeNum_hosts (H1 H2 : Host) (v : jsval) :
  (forall s, @StringToNumber H1 s = @StringToNumber H2 s) ->
  @safeNum H1 v = @safeNum H2 v.
Proof.
  intros Hs. unfold safeNum.
  assert (Hn : @ToNumber H1 v = @ToNumber H2 v)
    by (destruct v; cbn; try reflexivity; apply Hs).
  rewrite Hn. reflexivity.
Qed.

Lemma Date_new_hosts (H1 H2 : Host) (v : jsval) :
  (forall s, @StringToNumber H1 s = @StringToNumber H2 s) ->
  (forall s, @Date_parse H1 s = @Date_parse H2 s) ->
  @JSDate.Date_new H1 v = @JSDate.Date_new H2 v.
Proof.
  intros Hs Hd. destruct v; cbn; try reflexivity; apply Hd.
Qed.

Lemma period_key_hosts (H1 H2 : Host) (period : string) (d : row) :
  (forall t b, @LocalTZA H1 t b = @LocalTZA H2 t b) ->
  @period_key H1 period d = @period_key H2 period d.
Proof.
  intros Hz. unfold period_key.
  assert (Hl : forall t, @JSDate.LocalTime H1 t = @JSDate.LocalTime H2 t)
    by (intros t; unfold JSDate.LocalTime; rewrite Hz; reflexivity).
  assert (Hu : forall t, @JSDate.UTC H1 t = @JSDate.UTC H2 t)
    by (intros t; unfold JSDate.UTC; rewrite Hz; reflexivity).
  destruct (Dashboard.date d) as [t|]; cbn; [|reflexivity].
  unfold JSDate.setDate. rewrite !Hl, !Hu. reflexivity.
Qed.

Lemma group_rows_hosts (H1 H2 : Host) (period : string) (data : list row)
  (m : list (option string * list row)) :
  (forall t b, @LocalTZA H1 t b = @LocalTZA H2 t b) ->
  @group_rows H1 period data m = @group_rows H2 period data m.
Proof.
  intros Hz. revert m. induction data as [|d data IH]; intros m; cbn [group_rows];
    [reflexivity|].
  rewrite (period_key_hosts H1 H2 period d Hz).
  destruct (@period_key H2 period d); cbn [bind]; [apply IH|reflexivity].
Qed.

Lemma aggregateByPeriod_hosts (H1 H2 : Host) (data : list row) (period : string) :
  (forall t b, @LocalTZA H1 t b = @LocalTZA H2 t b) ->
  @Dashboard.aggregateByPeriod H1 data period
  = @Dashboard.aggregateByPeriod H2 data period.
Proof.
  intros Hz. unfold Dashboard.aggregateByPeriod.
  rewrite (group_rows_hosts H1 H2 period data [] Hz). reflexivity.
Qed.

(** C8, as the code has it.  Two runs on equal input give equal output,
    whatever else the store holds and whatever ran before, as long as
    the two runs have the same local time zone: the elements of the
    array that [downsampleEven] or [aggregateByPeriod] returns depend
    only on the elements of the input array, on the target or period
    and, for [aggregateByPeriod], on the offsets of the zone; a run
    leaves every array that existed before it unchanged, so a second run
    after the first sees the same input.  [parseRow] reads the host only
    for the values of number and date strings, not for the zone. *)
Theorem runs_agree (H1 H2 : Host) {A : Type} (undef : A) (same : A -> A -> bool) :
  ((forall s, @StringToNumber H1 s = @StringToNumber H2 s) ->
   (forall s, @Date_parse H1 s = @Date_parse H2 s) ->
   forall r : object, @parseRow H1 r = @parseRow H2 r)
  /\ (forall (h1 h2 : store A) (data1 data2 : ref) (d : list A) (target : nat),
        h1 !! data1 = Some d -> h2 !! data2 = Some d ->
        contents (downsampleEven undef same data1 target h1)
        = contents (downsampleEven undef same data2 target h2)
        /\ (forall r l, h1 !! r = Some l ->
              snd (downsampleEven undef same data1 target h1) !! r = Some l)
        /\ contents (downsampleEven undef same data1 target
                       (snd (downsampleEven undef same data1 target h1)))
           = contents (downsampleEven undef same data1 target h1))
  /\ ((forall t b, @LocalTZA H1 t b = @LocalTZA H2 t b) ->
      forall (h1 h2 : store row) (data1 data2 : ref) (d : list row)
        (period : string),
        h1 !! data1 = Some d -> h2 !! data2 = Some d ->
        contents_res (@aggregateByPeriod H1 data1 period h1)
        = contents_res (@aggregateByPeriod H2 data2 period h2)
        /\ (forall r l, h1 !! r = Some l ->
              snd (@aggregateByPeriod H1 data1 period h1) !! r = Some l)
        /\ contents_res (@aggregateByPeriod H1 data1 period
                           (snd (@aggregateByPeriod H1 data1 period h1)))
           = contents_res (@aggregateByPeriod H1 data1 period h1)).
Proof.
  split.
  { intros Hs Hd r. unfold parseRow.
    rewrite (Date_new_hosts H1 H2 _ Hs Hd), !(safeNum_hosts H1 H2 _ Hs).
    reflexivity. }
  split.
  - intros h1 h2 data1 data2 d target E1 E2.
    destruct (downsampleEven_refines undef same h1 data1 d target E1)
      as (ext1 & Hs1 & Hc1).
    destruct (downsampleEven_refines undef same h2 data2 d target E2)
      as (ext2 & Hs2 & Hc2).
    assert (Hframe : forall r l, h1 !! r = Some l ->
              snd (downsampleEven undef same data1 target h1) !! r = Some l).
    { intros r l Hr. rewrite Hs1. apply prefix_lookup, Hr. }
    split; [congruence|]. split; [exact Hframe|].
    destruct (downsampleEven_refines undef same _ data1 d target (Hframe _ _ E1))
      as (ext3 & _ & Hc3).
    congruence.
  - intros Hz h1 h2 data1 data2 d period E1 E2.
    destruct (@aggregateByPeriod_refines H1 h1 data1 d period E1)
      as (ext1 & Hs1 & Hc1).
    destruct (@aggregateByPeriod_refines H2 h2 data2 d period E2)
      as (ext2 & Hs2 & Hc2).
    assert (Hframe : forall r l, h1 !! r = Some l ->
              snd (@aggregateByPeriod H1 data1 period h1) !! r = Some l).
    { intros r l Hr. rewrite Hs1. apply prefix_lookup, Hr. }
    split; [rewrite Hc1, Hc2, (aggregateByPeriod_hosts H1 H2 d period Hz);
            reflexivity|].
    split; [exact Hframe|].
    destruct (@aggregateByPeriod_refines H1 _ data1 d period (Hframe _ _ E1))
      as (ext3 & _ & Hc3).
    congruence.
Qed.

(** Two stores that hold the same rows at different references, and two
    hosts with the same zone. *)
Lemma runs_agree_witness :
  contents_res (@aggregateByPeriod DemoHost.cst 0 "month"
                  [@parsed_rows DemoHost.cst Samples.month_end_rows])
  = contents_res (@aggregateByPeriod DemoHost.cst 1 "month"
                    [[]; @parsed_rows DemoHost.cst Samples.month_end_rows]).
Proof.
  apply (proj1 (proj2 (proj2 (@runs_agree DemoHost.cst DemoHost.cst row
                                (@parseRow DemoHost.cst []) (fun _ _ => false)))
                  ltac:(reflexivity)
                  [@parsed_rows DemoHost.cst Samples.month_end_rows]
                  [[]; @parsed_rows DemoHost.cst Samples.month_end_rows]
                  0%nat 1%nat (@parsed_rows DemoHost.cst Samples.month_end_rows)
                  "month" eq_refl eq_refl)).
Defined.

(** Against C8 as it reads: the zone is an input that the claim does not
    name.  The rows of the last day of January and the first day of
    February, read as midnight UTC, are the same rows for [parseRow]
    under both hosts; in the month view they give two points eight
    hours ahead of UTC, where they fall in two months, and one point
    five hours behind UTC, where both fall in January. *)
Lemma runs_differ_by_time_zone :
  @parsed_rows DemoHost.est Samples.month_end_rows
  = @parsed_rows DemoHost.cst Samples.month_end_rows
  /\ (exists p q,
        contents_res (@aggregateByPeriod DemoHost.cst 0 "month"
                        [@parsed_rows DemoHost.cst Samples.month_end_rows])
        = Ok (Some [p; q]))
  /\ (exists p,
        contents_res (@aggregateByPeriod DemoHost.est 0 "month"
                        [@parsed_rows DemoHost.cst Samples.month_end_rows])
        = Ok (Some [p])).
Proof.
  split; [vm_compute; reflexivity|].
  split; [eexists; eexists|eexists]; vm_compute; reflexivity.
Qed.

End ImperativeFacts.

(** ** Arithmetic that cannot give NaN *)

Module ArithFacts.
Import JSNum.
Local Open Scope Z_scope.

Lemma shr_1_nonneg (mrs : shr_record) : 0 <= shr_m mrs -> 0 <= shr_m (shr_1 mrs).
Proof.
  destruct mrs as [m r s]. cbn.
  destruct m as [|[p|p|]|p]; cbn; lia.
Qed.

Lemma iter_shr_1_nonneg (p : positive) (mrs : shr_record) :
  0 <= shr_m mrs -> 0 <= shr_m (SpecFloat.iter_pos shr_1 p mrs).
Proof.
  revert mrs. induction p as [p IH|p IH|]; intros mrs Hm; cbn.
  - apply IH, IH, shr_1_nonneg, Hm.
  - apply IH, IH, Hm.
  - apply shr_1_nonneg, Hm.
Qed.

Lemma shr_fexp_nonneg (m e : Z) (l : location) :
  0 <= m -> 0 <= shr_m (fst (shr_fexp prec emax m e l)).
Proof.
  intros Hm. unfold shr_fexp, shr.
  assert (H0 : 0 <= shr_m (shr_record_of_loc m l)).
  { destruct l as [|[| |]]; cbn; exact Hm. }
  destruct (fexp prec emax (Zdigits2 m + e) - e); cbn [fst];
    auto using iter_shr_1_nonneg.
Qed.

Lemma round_nearest_even_nonneg (m : Z) (l : location) :
  0 <= m -> 0 <= round_nearest_even m l.
Proof.
  intros Hm. destruct l as [|[| |]]; cbn; try lia.
  destruct (Z.even m); lia.
Qed.

(** Rounding a mantissa that is not negative gives a zero, a finite
    number or an infinity. *)
Lemma binary_round_aux_not_nan (s : bool) (m e : Z) (l : location) :
  0 <= m -> is_nan (binary_round_aux prec emax s m e l) = false.
Proof.
  intros Hm. unfold binary_round_aux.
  pose proof (shr_fexp_nonneg m e l Hm) as H1.
  destruct (shr_fexp prec emax m e l) as [mrs' e']. cbn [fst] in H1.
  pose proof (shr_fexp_nonneg _ e' loc_Exact
                (round_nearest_even_nonneg _ (loc_of_shr_record mrs') H1)) as H2.
  destruct (shr_fexp prec emax _ e' loc_Exact) as [mrs'' e'']. cbn [fst] in H2.
  destruct (shr_m mrs'') as [|p|p]; try lia; [reflexivity|].
  destruct (e'' <=? emax - prec); reflexivity.
Qed.

Lemma binary_normalize_not_nan (m e : Z) (szero : bool) :
  is_nan (binary_normalize prec emax m e szero) = false.
Proof.
  unfold binary_normalize, binary_round.
  destruct m as [|p|p]; [reflexivity| |];
    destruct (shl_align _ _ _) as [mz ez]; apply binary_round_aux_not_nan; lia.
Qed.

Lemma of_Z_not_nan (z : Z) : is_nan (of_Z z) = false.
Proof. apply binary_normalize_not_nan. Qed.

(** The difference and the sum of two finite numbers are numbers. *)
Lemma sub_finite (a b : number) :
  isFinite a = true -> isFinite b = true -> is_nan (sub a b) = false.
Proof.
  destruct a as [sa| | |sa ma ea], b as [sb| | |sb mb eb];
    try discriminate; intros _ _; unfold sub, SFsub.
  - destruct sa, sb; reflexivity.
  - reflexivity.
  - reflexivity.
  - apply binary_normalize_not_nan.
Qed.

Lemma add_finite (a b : number) :
  isFinite a = true -> isFinite b = true -> is_nan (add a b) = false.
Proof.
  destruct a as [sa| | |sa ma ea], b as [sb| | |sb mb eb];
    try discriminate; intros _ _; unfold add, SFadd.
  - destruct sa, sb; reflexivity.
  - reflexivity.
  - reflexivity.
  - apply binary_normalize_not_nan.
Qed.

(** A number divided by a finite number that is not zero is a number. *)
Lemma div_by_finite (a : number) (s : bool) (m : positive) (e : Z) :
  is_nan a = false -> is_nan (div a (S754_finite s m e)) = false.
Proof.
  destruct a as [sa|sa| |sa ma ea]; try discriminate; intros _;
    unfold div, SFdiv; try reflexivity.
  unfold SFdiv_core_binary.
  set (m' := match _ - _ - _ with
             | Z0 => Z.pos ma
             | Z.pos _ => Z.shiftl (Z.pos ma) _
             | Z.neg _ => 0
             end).
  assert (Hm' : 0 <= m').
  { subst m'. destruct (_ - _ - _); try lia. apply Z.shiftl_nonneg. lia. }
  pose proof (Z_div_mod m' (Z.pos m) ltac:(lia)) as Hd.
  destruct (Z.div_eucl m' (Z.pos m)) as [q r].
  apply binary_round_aux_not_nan. destruct Hd as [Hd Hr]. nia.
Qed.

(** A number times a finite number that is not zero is a number. *)
Lemma mul_by_finite (a : number) (s : bool) (m : positive) (e : Z) :
  is_nan a = false -> is_nan (mul a (S754_finite s m e)) = false.
Proof.
  destruct a as [sa|sa| |sa ma ea]; try discriminate; intros _;
    unfold mul, SFmul; try reflexivity.
  apply binary_round_aux_not_nan. lia.
Qed.

Lemma hundred_finite : exists m e, of_Z 100 = S754_finite false m e.
Proof. eexists. eexists. vm_compute. reflexivity. Qed.

Lemma times_100_not_nan (a : number) :
  is_nan a = false -> is_nan (mul a (of_Z 100)) = false.
Proof.
  destruct hundred_finite as (m & e & ->). apply mul_by_finite.
Qed.

(** [c || 0] of a finite cell is finite. *)
Lemma or_zero_finite (c : JSVal.cell) :
  (forall n, c = JSVal.Num n -> isFinite n = true) ->
  isFinite (JSVal.or_zero c) = true.
Proof.
  intros Hc. destruct c as [| |n]; try reflexivity.
  cbn. destruct (truthy n); [apply Hc|]; reflexivity.
Qed.

(** A finite number that is greater than 0 is a finite number that is not
    zero. *)
Lemma gt_zero_finite (a : number) :
  isFinite a = true -> gt a (of_Z 0) = true ->
  exists m e, a = S754_finite false m e.
Proof.
  destruct a as [sa|sa| |[|] ma ea]; cbn; try discriminate; intros _ _; eauto.
Qed.

End ArithFacts.

(** ** The other routes, the access log and the update script *)

Module RoutesFacts.
Import JSNum JSVal Server Routes Notions.

(** [/api/stats] reports the data as available exactly when [/api/data]
    answers with the rows, and then counts the same rows; [/health]
    reports the data as cached whenever the load succeeded, so also for
    an empty table, which [/api/data] answers with status 500. *)
Theorem stats_and_health_against_data (now : Z) (s : server) :
  cachedDataAvailable (api_stats now s) = is_success (api_data (vars s))
  /\ (forall columns data count,
        json (api_data (vars s)) = Columnar "success" columns data count ->
        cachedDataCount (api_stats now s) = count)
  /\ (is_success (api_data (vars s)) = true -> dataCached (health now s) = true)
  /\ (dataCached (health now s) = true /\ code (api_data (vars s)) = 500
      <-> cachedData (vars s) = Some []).
Proof.
  unfold api_stats, health, api_data, is_success. cbn [cachedDataAvailable
    cachedDataCount dataCached json code].
  destruct (cachedData (vars s)) as [[|first rest]|]; cbn.
  - split; [reflexivity|]. split; [discriminate|]. split; [reflexivity|]. tauto.
  - split; [reflexivity|]. split.
    { intros columns data count [= _ _ <-]. reflexivity. }
    split; [reflexivity|]. split; [intros [_ ?]|]; discriminate.
  - split; [reflexivity|]. split; [discriminate|]. split; [discriminate|].
    split; [intros [? _]|]; discriminate.
Qed.

Lemma stats_and_health_against_data_witness :
  cachedDataCount
    (api_stats 5000 {| vars := {| cachedData := Some Samples.three_rows;
                                  accessCount := 0 |};
                       startTime := 1000 |}) = 3%nat.
Proof.
  eapply (proj1 (proj2 (stats_and_health_against_data 5000 _))).
  reflexivity.
Defined.

(** For an uptime that is not negative, the hours, minutes and seconds of
    [/api/stats] are the whole seconds of the uptime: minutes and seconds
    stay below 60 and the three add up to the uptime in seconds. *)
Theorem uptime_parts_add_up (uptime : Z) :
  (0 <= uptime)%Z ->
  let '(h, m, s) := uptime_parts uptime in
  (0 <= h /\ 0 <= m < 60 /\ 0 <= s < 60
   /\ h * 3600 + m * 60 + s = uptime / 1000)%Z.
Proof.
  intros Hu. unfold uptime_parts.
  rewrite !Z.rem_mod_nonneg by lia.
  change (1000 * 60 * 60)%Z with 3600000%Z. change (1000 * 60)%Z with 60000%Z.
  Z.div_mod_to_equations. lia.
Qed.

Lemma uptime_parts_add_up_witness :
  let '(h, m, s) := uptime_parts 3725999 in
  (0 <= h /\ 0 <= m < 60 /\ 0 <= s < 60
   /\ h * 3600 + m * 60 + s = 3725999 / 1000)%Z.
Proof. apply (uptime_parts_add_up 3725999). lia. Defined.

(** *** The access counter *)

Lemma handle_state (now : Z) (req : request) (r : route) (s : server) :
  cachedData (vars (fst (handle now req r s))) = cachedData (vars s)
  /\ startTime (fst (handle now req r s)) = startTime s
  /\ accessCount (vars (fst (handle now req r s)))
     = (accessCount (vars s) + if counted (now, req, r) then 1 else 0)%nat.
Proof.
  unfold handle, accessLogger, counted. cbn [fst snd].
  destruct (getClientIP req); cbn; repeat split; lia.
Qed.

(** Requests never change the cached data, and every request whose
    client address can be read is counted once, before its route runs:
    the total that [/api/stats] reports includes the request it answers. *)
Theorem serve_counts_requests (reqs : list (Z * request * route)) (s : server) :
  cachedData (vars (fst (serve reqs s))) = cachedData (vars s)
  /\ accessCount (vars (fst (serve reqs s)))
     = (accessCount (vars s) + length (List.filter counted reqs))%nat
  /\ length (snd (serve reqs s)) = length reqs
  /\ (forall k st,
        snd (serve reqs s) !! k = Some (StatsReply st) ->
        totalAccess st
        = (accessCount (vars s) + length (List.filter counted (take (S k) reqs)))%nat).
Proof.
  revert s. induction reqs as [|[[now req] r] reqs IH]; intros s.
  - cbn. repeat split; try lia. intros k st H. destruct k; discriminate.
  - cbn [serve].
    destruct (handle_state now req r s) as (Hc & _ & Ha).
    destruct (handle now req r s) as [s' a] eqn:Eh. cbn [fst] in Hc, Ha.
    destruct (IH s') as (IHc & IHa & IHl & IHk).
    destruct (serve reqs s') as [s'' l]. cbn [fst snd] in *.
    split; [congruence|]. split.
    { rewrite IHa, Ha. cbn [List.filter].
      destruct (counted (now, req, r)); cbn [length]; lia. }
    split; [cbn [length]; lia|].
    intros [|k] st Hk.
    + cbn in Hk. injection Hk as ->.
      cbn [take List.filter]. unfold counted. cbn [fst snd].
      unfold handle, accessLogger in Eh.
      destruct (getClientIP req); cbn [bind] in Eh; [|discriminate].
      destruct r; try discriminate. injection Eh as <- <-.
      destruct reqs; cbn; lia.
    + cbn in Hk. rewrite (IHk k st Hk), Ha.
      cbn [take List.filter]. destruct (counted (now, req, r)); cbn [length]; lia.
Qed.

Lemma serve_counts_requests_witness :
  exists st,
    snd (serve [(1000%Z, browser, ApiData); (2000%Z, browser, ApiStats)]
           {| vars := initial; startTime := 0 |}) !! 1%nat = Some (StatsReply st)
    /\ totalAccess st = 2%nat.
Proof.
  eexists. split; [reflexivity|].
  apply (proj2 (proj2 (proj2 (serve_counts_requests
           [(1000%Z, browser, ApiData); (2000%Z, browser, ApiStats)]
           {| vars := initial; startTime := 0 |}))) 1%nat).
  reflexivity.
Defined.

(** *** The client address *)

Lemma strip_prefix_app (w l r : list ascii) :
  strip_prefix w l = Some r -> l = w ++ r.
Proof.
  revert l. induction w as [|a w IH]; intros l; cbn.
  - intros [= ->]. reflexivity.
  - destruct l as [|b l]; [discriminate|].
    destruct (Ascii.eqb_spec a b) as [->|]; [|discriminate].
    intros H. rewrite (IH l H). reflexivity.
Qed.

Lemma strip_prefix_of_app (w r : list ascii) : strip_prefix w (w ++ r) = Some r.
Proof.
  induction w as [|a w IH]; cbn; [reflexivity|].
  rewrite Ascii.eqb_refl. exact IH.
Qed.

Lemma strip_any_some (ws : list (list ascii)) (l r : list ascii) :
  strip_any ws l = Some r -> exists w, In w ws /\ l = w ++ r.
Proof.
  induction ws as [|w ws IH]; cbn; [discriminate|].
  destruct (strip_prefix w l) as [r'|] eqn:E.
  - intros [= ->]. exists w. split; [auto|]. apply strip_prefix_app, E.
  - intros H. destruct (IH H) as (w' & Hin & ->). eauto.
Qed.

Lemma strip_any_none (ws : list (list ascii)) (w r : list ascii) :
  In w ws -> strip_any ws (w ++ r) <> None.
Proof.
  induction ws as [|w' ws IH]; cbn; [tauto|].
  intros [->|Hin].
  - rewrite strip_prefix_of_app. discriminate.
  - destruct (strip_prefix w' (w ++ r)); [discriminate|]. apply IH, Hin.
Qed.

(** What is left by [trim_start] is a suffix of the string, and begins
    with no white space when none of the sequences is empty. *)
Lemma trim_start_fuel_suffix (ws : list (list ascii)) (fuel : nat) (l : list ascii) :
  exists p, l = p ++ trim_start_fuel ws fuel l.
Proof.
  revert l. induction fuel as [|fuel IH]; intros l; cbn.
  - exists []. reflexivity.
  - destruct (strip_any ws l) as [r|] eqn:E.
    + destruct (strip_any_some _ _ _ E) as (w & _ & ->).
      destruct (IH r) as (p & Hp). exists (w ++ p).
      rewrite <- app_assoc, <- Hp. reflexivity.
    + exists []. reflexivity.
Qed.

Lemma trim_start_fuel_done (ws : list (list ascii)) (fuel : nat) (l : list ascii) :
  Forall (fun w => w <> []) ws -> (length l <= fuel)%nat ->
  strip_any ws (trim_start_fuel ws fuel l) = None.
Proof.
  intros Hne. revert l. induction fuel as [|fuel IH]; intros l Hl; cbn.
  - destruct l; [|cbn in Hl; lia].
    destruct (strip_any ws []) as [r|] eqn:E; [|reflexivity].
    destruct (strip_any_some _ _ _ E) as (w & Hin & Hw).
    rewrite List.Forall_forall in Hne. specialize (Hne w Hin).
    destruct w; [congruence|discriminate].
  - destruct (strip_any ws l) as [r|] eqn:E; [|exact E].
    apply IH. destruct (strip_any_some _ _ _ E) as (w & Hin & ->).
    rewrite List.Forall_forall in Hne. specialize (Hne w Hin).
    rewrite length_app in Hl. destruct w; [congruence|cbn in Hl; lia].
Qed.

Lemma white_space_nonempty :
  Forall (fun w => w <> []) white_space
  /\ Forall (fun w => w <> []) (map (@rev ascii) white_space).
Proof. split; repeat constructor; discriminate. Qed.

(** The bytes of a trimmed string: an infix of the string, with no white
    space at either end. *)
Lemma trim_spec (s : string) :
  exists p q,
    list_ascii_of_string s = p ++ list_ascii_of_string (trim s) ++ q
    /\ strip_any white_space (list_ascii_of_string (trim s)) = None
    /\ strip_any (map (@rev ascii) white_space)
         (rev (list_ascii_of_string (trim s))) = None.
Proof.
  unfold trim, trim_start. rewrite list_ascii_of_string_of_list_ascii.
  set (l := list_ascii_of_string s).
  destruct white_space_nonempty as [Hw Hw'].
  pose proof (trim_start_fuel_done white_space (length l) l Hw (le_n _)) as H1.
  destruct (trim_start_fuel_suffix white_space (length l) l) as (p & Hp).
  set (l1 := trim_start_fuel white_space (length l) l) in *.
  pose proof (trim_start_fuel_done _ (length (rev l1)) (rev l1) Hw' (le_n _)) as H2.
  destruct (trim_start_fuel_suffix (map (@rev ascii) white_space)
              (length (rev l1)) (rev l1)) as (q & Hq).
  set (r := trim_start_fuel _ (length (rev l1)) (rev l1)) in *.
  assert (Hl1 : l1 = rev r ++ rev q).
  { rewrite <- rev_app_distr, <- Hq, rev_involutive. reflexivity. }
  exists p, (rev q). split; [|split].
  - rewrite Hp at 1. rewrite Hl1. reflexivity.
  - destruct (strip_any white_space (rev r)) as [t|] eqn:E; [|reflexivity].
    exfalso. destruct (strip_any_some _ _ _ E) as (w & Hin & Hw1).
    apply (strip_any_none white_space w (t ++ rev q) Hin).
    rewrite app_assoc, <- Hw1, <- Hl1. exact H1.
  - rewrite rev_involutive. exact H2.
Qed.

Lemma before_comma_spec (l : list ascii) :
  ~ In ","%char (before_comma l) /\ exists q, l = before_comma l ++ q.
Proof.
  induction l as [|a l [IH1 [q IH2]]]; cbn.
  - split; [tauto|]. exists []. reflexivity.
  - destruct (Ascii.eqb_spec a ","%char) as [->|Hne].
    + split; [cbn; tauto|]. eexists. reflexivity.
    + split.
      * cbn. intros [H|H]; [congruence|tauto].
      * exists q. cbn. rewrite <- IH2. reflexivity.
Qed.

Lemma or_string_cases (a : option string) (rest : res string) :
  (falsy a /\ or_string a rest = rest)
  \/ (exists s, a = Some s /\ s <> "" /\ or_string a rest = Ok s).
Proof.
  destruct a as [s|]; cbn.
  - destruct (String.eqb_spec s "") as [->|Hne].
    + left. split; [right|]; reflexivity.
    + right. eauto.
  - left. split; [left|]; reflexivity.
Qed.

(** [getClientIP] throws exactly when no header and no address is set
    and the connection has no [socket]; an address it returns holds no
    comma and no white space at either end, and is the first of the
    addresses of [x-forwarded-for] when that header is set. *)
Theorem getClientIP_address (req : request) :
  ((exists e, getClientIP req = Throw e)
   <-> falsy (x_forwarded_for req) /\ falsy (x_real_ip req)
       /\ falsy (x_client_ip req) /\ falsy (connection_remoteAddress req)
       /\ falsy (socket_remoteAddress req) /\ connection_socket req = None)
  /\ (forall ip, getClientIP req = Ok ip ->
        ~ In ","%char (list_ascii_of_string ip)
        /\ strip_any white_space (list_ascii_of_string ip) = None
        /\ strip_any (map (@rev ascii) white_space)
             (rev (list_ascii_of_string ip)) = None)
  /\ (forall s, x_forwarded_for req = Some s -> s <> "" ->
        getClientIP req = Ok (trim (first_segment s))).
Proof.
  unfold getClientIP.
  split; [|split].
  - destruct (or_string_cases (x_forwarded_for req)
                (or_string (x_real_ip req)
                (or_string (x_client_ip req)
                (or_string (connection_remoteAddress req)
                (or_string (socket_remoteAddress req)
                   (match connection_socket req with
                    | Some address => or_string address (Ok "未知IP")
                    | None =>
                        Throw "TypeError: Cannot read properties of undefined (reading 'remoteAddress')"
                    end))))))
      as [[F1 ->]|(s & E & Hs & ->)].
    2: { cbn. split; [intros [e [=]]|].
         intros ([?|?] & _); congruence. }
    destruct (or_string_cases (x_real_ip req)
                (or_string (x_client_ip req)
                (or_string (connection_remoteAddress req)
                (or_string (socket_remoteAddress req)
                   (match connection_socket req with
                    | Some address => or_string address (Ok "未知IP")
                    | None =>
                        Throw "TypeError: Cannot read properties of undefined (reading 'remoteAddress')"
                    end)))))
      as [[F2 ->]|(s & E & Hs & ->)].
    2: { cbn. split; [intros [e [=]]|].
         intros (_ & [?|?] & _); congruence. }
    destruct (or_string_cases (x_client_ip req)
                (or_string (connection_remoteAddress req)
                (or_string (socket_remoteAddress req)
                   (match connection_socket req with
                    | Some address => or_string address (Ok "未知IP")
                    | None =>
                        Throw "TypeError: Cannot read properties of undefined (reading 'remoteAddress')"
                    end))))
      as [[F3 ->]|(s & E & Hs & ->)].
    2: { cbn. split; [intros [e [=]]|].
         intros (_ & _ & [?|?] & _); congruence. }
    destruct (or_string_cases (connection_remoteAddress req)
                (or_string (socket_remoteAddress req)
                   (match connection_socket req with
                    | Some address => or_string address (Ok "未知IP")
                    | None =>
                        Throw "TypeError: Cannot read properties of undefined (reading 'remoteAddress')"
                    end)))
      as [[F4 ->]|(s & E & Hs & ->)].
    2: { cbn. split; [intros [e [=]]|].
         intros (_ & _ & _ & [?|?] & _); congruence. }
    destruct (or_string_cases (socket_remoteAddress req)
                (match connection_socket req with
                 | Some address => or_string address (Ok "未知IP")
                 | None =>
                     Throw "TypeError: Cannot read properties of undefined (reading 'remoteAddress')"
                 end))
      as [[F5 ->]|(s & E & Hs & ->)].
    2: { cbn. split; [intros [e [=]]|].
         intros (_ & _ & _ & _ & [?|?] & _); congruence. }
    destruct (connection_socket req) as [address|].
    + split; [|intros (_ & _ & _ & _ & _ & [=])].
      intros [e He]. exfalso.
      destruct (or_string_cases address (Ok "未知IP")) as [[_ E]|(s & _ & _ & E)];
        rewrite E in He; discriminate.
    + cbn. split; eauto 10.
  - intros ip Hip.
    destruct (or_string _ _) as [s|e]; cbn in Hip; [|discriminate].
    injection Hip as <-.
    destruct (trim_spec (first_segment s)) as (p & q & Hpq & H1 & H2).
    split; [|split; assumption].
    intros Hin. unfold first_segment in Hpq.
    rewrite list_ascii_of_string_of_list_ascii in Hpq.
    destruct (before_comma_spec (list_ascii_of_string s)) as [Hno _].
    apply Hno. rewrite Hpq. apply List.in_or_app. right.
    apply List.in_or_app. left. exact Hin.
  - intros s E Hs. rewrite E. cbn.
    destruct (String.eqb_spec s ""); [contradiction|]. reflexivity.
Qed.

Lemma getClientIP_address_witness :
  getClientIP browser = Ok "203.0.113.7".
Proof.
  rewrite (proj2 (proj2 (getClientIP_address browser)) "203.0.113.7, 10.0.0.1" eq_refl);
    [reflexivity|discriminate].
Defined.

End RoutesFacts.

(** ** The two versions of the route, and the update script *)

Module DeliveryFacts.
Import JSNum JSVal Server UpdateData.

Lemma zip_get_keys (row : object) :
  NoDup (keys row) -> zip_row (keys row) (map (get row) (keys row)) = row.
Proof.
  unfold zip_row, keys.
  induction row as [|[k v] row IH]; intros Hnd; [reflexivity|].
  cbn [map fst combine get]. rewrite String.eqb_refl.
  inversion Hnd as [|? ? Hk Hnd']; subst.
  f_equal. rewrite <- (IH Hnd') at 3.
  f_equal. apply map_ext_in. intros k' Hin. cbn [get].
  destruct (String.eqb_spec k k') as [->|_]; [|reflexivity].
  exfalso. apply Hk. apply list_elem_of_In. exact Hin.
Qed.

(** The columnar route and the route of [serverHttps.js] answer with the
    same status except for a table that loaded with no row; when every
    row has the keys of the first, zipping the columns with each row of
    the columnar payload gives the rows of the other payload. *)
Theorem routes_agree_but_on_empty (st : state) :
  (code (api_data st) = code (api_data_https st) <-> cachedData st <> Some [])
  /\ (forall columns data count,
        json (api_data st) = Columnar "success" columns data count ->
        (forall rows, cachedData st = Some rows ->
           Forall (fun row => keys row = columns /\ NoDup (keys row)) rows) ->
        json (api_data_https st)
        = Rows "success" (map (zip_row columns) data) count).
Proof.
  unfold api_data, api_data_https.
  destruct (cachedData st) as [[|first rest]|]; cbn [code json].
  - split; [split; [discriminate|congruence]|]. discriminate.
  - split; [split; [discriminate|reflexivity]|].
    intros columns data count [= <- <- <-] Hall.
    specialize (Hall _ eq_refl). f_equal.
    change (first :: rest
            = map (zip_row (keys first))
                (map (fun row => map (get row) (keys first)) (first :: rest))).
    rewrite List.map_map.
    rewrite <- (List.map_id (first :: rest)) at 1.
    apply List.map_ext_Forall. eapply Forall_impl; [exact Hall|].
    cbn. intros row [Hk Hnd]. rewrite <- Hk. symmetry. apply zip_get_keys, Hnd.
  - split; [split; [discriminate|reflexivity]|]. discriminate.
Qed.

Lemma routes_agree_but_on_empty_witness :
  json (api_data_https {| cachedData := Some Samples.three_rows; accessCount := 0 |})
  = Rows "success"
      (map (zip_row (keys (hd [] Samples.three_rows)))
         (map (fun row => map (get row) (keys (hd [] Samples.three_rows)))
            Samples.three_rows)) 3.
Proof.
  apply (proj2 (routes_agree_but_on_empty
                  {| cachedData := Some Samples.three_rows; accessCount := 0 |})).
  - reflexivity.
  - intros rows [= <-]. repeat constructor; cbn; intros Hin;
      repeat (apply elem_of_cons in Hin as [Hin|Hin]; [discriminate|]);
      inversion Hin.
Defined.

(** A cell of a CSV file is a string, which JSON carries as it is. *)
Lemma jsonify_cell_string (s : string) : jsonify_cell (VStr s) = VStr s.
Proof. reflexivity. Qed.

(** The update script against the server: when the columnar route
    answers with the rows, the local file becomes that payload as JSON
    carries it; when it answers with status 500 the file is left as it
    was and the script fails only if there was no file; the payload of
    [serverHttps.js], which has no [columns], is never stored. *)
Theorem update_against_server (st : state) (local : option body) :
  (is_success (api_data st) = true ->
   updateLocalData (over_the_wire (api_data st)) local
   = (true, Some (jsonify (json (api_data st)))))
  /\ (is_success (api_data st) = false ->
      updateLocalData (over_the_wire (api_data st)) local
      = (match local with Some _ => true | None => false end, local))
  /\ updateLocalData (over_the_wire (api_data_https st)) local
     = (match local with Some _ => true | None => false end, local).
Proof.
  unfold api_data, api_data_https, over_the_wire, updateLocalData, is_success.
  destruct (cachedData st) as [[|first rest]|]; cbn;
    repeat split; try discriminate; reflexivity.
Qed.

Lemma update_against_server_witness :
  updateLocalData
    (over_the_wire (api_data {| cachedData := None; accessCount := 0 |}))
    (Some (Failure "old" "file"))
  = (true, Some (Failure "old" "file")).
Proof.
  apply (proj1 (proj2 (update_against_server
                         {| cachedData := None; accessCount := 0 |}
                         (Some (Failure "old" "file"))))).
  reflexivity.
Defined.

(** Whatever is fetched, the local file is either left as it was or
    replaced by a payload with columns and data that came with an ok
    status, and the script fails exactly when the fetch gave no such
    payload and there was no file. *)
Theorem update_keeps_or_replaces (f : fetched) (local : option body) :
  (snd (updateLocalData f local) = local
   \/ exists status data,
        f = Response status (Some data) /\ ok status = true
        /\ well_formed data = true
        /\ snd (updateLocalData f local) = Some data)
  /\ (fst (main f local) = 1%nat
      <-> local = None
          /\ forall status data,
               f = Response status (Some data) ->
               ok status && well_formed data = false).
Proof.
  unfold main, updateLocalData.
  destruct f as [|status [data|]]; cbn.
  - split; [auto|]. destruct local; cbn; split;
      try discriminate; try (intros [? _]; discriminate); auto.
    intros _. split; [reflexivity|]. discriminate.
  - destruct (ok status && well_formed data) eqn:E; cbn.
    + split.
      * right. apply andb_true_iff in E. destruct E. eauto 6.
      * split; [discriminate|]. intros [_ H]. specialize (H _ _ eq_refl). congruence.
    + split; [auto|]. destruct local; cbn; split;
        try discriminate; try (intros [? _]; discriminate); auto.
      intros _. split; [reflexivity|]. intros ? ? [= <- <-]. exact E.
  - split; [auto|]. destruct local; cbn; split;
      try discriminate; try (intros [? _]; discriminate); auto.
    intros _. split; [reflexivity|]. discriminate.
Qed.

End DeliveryFacts.

(** ** The table of the dashboard in time order *)

Module OrderFacts.
Import JSNum JSVal JSDate Dashboard View Notions.

Lemma time_le_after (a b : row) : time_le a b -> date_after a b = false.
Proof.
  intros (ta & tb & Ha & Hb & Hle). unfold date_after. rewrite Ha, Hb.
  apply Z.ltb_ge. exact Hle.
Qed.

Lemma after_time_le (a b : row) : date_after a b = true -> time_le b a.
Proof.
  unfold date_after, time_le.
  destruct (date a) as [ta|], (date b) as [tb|]; try discriminate.
  intros H. apply Z.ltb_lt in H. exists tb, ta. repeat split. lia.
Qed.

Lemma not_after_time_le (a b : row) :
  valid_date a = true -> valid_date b = true ->
  date_after a b = false -> time_le a b.
Proof.
  unfold valid_date, getTime, date_after, time_le.
  destruct (date a) as [ta|], (date b) as [tb|]; try discriminate.
  intros _ _ H. apply Z.ltb_ge in H. eauto.
Qed.

Lemma time_le_trans (a b c : row) : time_le a b -> time_le b c -> time_le a c.
Proof.
  intros (ta & tb & Ha & Hb & H1) (tb' & tc & Hb' & Hc & H2).
  rewrite Hb in Hb'. injection Hb' as <-. exists ta, tc. repeat split; try assumption.
  lia.
Qed.

Lemma insert_by_date_sorted (x : row) (l : list row) :
  valid_date x = true -> Forall (fun r => valid_date r = true) l ->
  StronglySorted time_le l -> StronglySorted time_le (insert_by_date x l).
Proof.
  intros Hx Hl Hs. induction Hs as [|y l Hs IH Hy]; cbn.
  - repeat constructor.
  - inversion Hl as [|? ? Hvy Hl']; subst.
    destruct (date_after x y) eqn:E.
    + constructor; [apply IH, Hl'|].
      rewrite (ParseFacts.insert_by_date_perm x l).
      constructor; [apply after_time_le, E|exact Hy].
    + pose proof (not_after_time_le x y Hx Hvy E) as Hxy.
      constructor; [constructor; assumption|].
      constructor; [exact Hxy|].
      eapply Forall_impl; [exact Hy|]. cbn. intros z Hz.
      eapply time_le_trans; eassumption.
Qed.

Lemma sort_by_date_sorted (l : list row) :
  Forall (fun r => valid_date r = true) l ->
  StronglySorted time_le (sort_by_date l).
Proof.
  induction 1 as [|x l Hx Hl IH]; cbn; [constructor|].
  apply insert_by_date_sorted; [exact Hx| |exact IH].
  fold (sort_by_date l). rewrite (ParseFacts.sort_by_date_perm l). exact Hl.
Qed.

Lemma sorted_sort_id (l : list row) :
  StronglySorted time_le l -> sort_by_date l = l.
Proof.
  induction 1 as [|x l Hs IH Hx]; cbn; [reflexivity|].
  fold (sort_by_date l). rewrite IH.
  destruct l as [|y l]; [reflexivity|]. cbn.
  inversion Hx as [|? ? Hxy _]; subst.
  rewrite (time_le_after x y Hxy). reflexivity.
Qed.

Lemma parsed_rows_valid `{Host} (data : list object) :
  Forall (fun r => valid_date r = true) (parsed_rows data).
Proof.
  unfold parsed_rows. rewrite (ParseFacts.sort_by_date_perm _).
  apply List.Forall_forall. intros r Hin. apply List.filter_In in Hin. tauto.
Qed.

Lemma parsed_rows_sorted `{Host} (data : list object) :
  StronglySorted time_le (parsed_rows data).
Proof.
  unfold parsed_rows. apply sort_by_date_sorted.
  apply List.Forall_forall. intros r Hin. apply List.filter_In in Hin. tauto.
Qed.

Lemma sorted_lookup (l : list row) (i j : nat) (a b : row) :
  StronglySorted time_le l -> (i < j)%nat ->
  l !! i = Some a -> l !! j = Some b -> time_le a b.
Proof.
  intros Hs. revert i j. induction Hs as [|x l Hs IH Hx]; intros i j Hij Ha Hb.
  - discriminate.
  - destruct j as [|j]; [lia|]. cbn in Hb.
    destruct i as [|i].
    + cbn in Ha. injection Ha as ->.
      rewrite List.Forall_forall in Hx. apply Hx.
      apply list_elem_of_In, list_elem_of_lookup. eauto.
    + cbn in Ha. apply (IH i j); [lia|assumption|assumption].
Qed.

(** The table that [fetchData] keeps is in time order: of two of its
    rows, the earlier in the table has a valid date that is not after the
    date of the later. *)
Theorem parsed_rows_in_time_order `{Host} (data : list object)
  (i j : nat) (a b : row) :
  (i < j)%nat ->
  parsed_rows data !! i = Some a -> parsed_rows data !! j = Some b ->
  time_le a b.
Proof. apply sorted_lookup, parsed_rows_sorted. Qed.

Lemma parsed_rows_in_time_order_witness :
  exists a b,
    @parsed_rows DemoHost.cst Samples.three_rows !! 0%nat = Some a
    /\ @parsed_rows DemoHost.cst Samples.three_rows !! 2%nat = Some b
    /\ time_le a b.
Proof.
  eexists. eexists. split; [reflexivity|]. split; [reflexivity|].
  apply (@parsed_rows_in_time_order DemoHost.cst Samples.three_rows 0 2);
    [lia|reflexivity|reflexivity].
Defined.

(** Sorting keeps a table that is already in time order exactly as it
    is, rows with equal dates included; so the table that [fetchData]
    keeps would not change if it were sorted again. *)
Theorem sort_by_date_keeps_sorted `{Host} (data : list object) (l : list row) :
  (StronglySorted time_le l -> sort_by_date l = l)
  /\ sort_by_date (parsed_rows data) = parsed_rows data.
Proof.
  split; [apply sorted_sort_id|]. apply sorted_sort_id, parsed_rows_sorted.
Qed.

Lemma sort_by_date_keeps_sorted_witness :
  sort_by_date (@parsed_rows DemoHost.cst Samples.three_rows)
  = @parsed_rows DemoHost.cst Samples.three_rows.
Proof.
  apply (proj1 (@sort_by_date_keeps_sorted DemoHost.cst []
                  (@parsed_rows DemoHost.cst Samples.three_rows))).
  apply (@parsed_rows_sorted DemoHost.cst).
Defined.

Lemma sorted_last (l : list row) (z : row) :
  StronglySorted time_le l -> Forall (fun r => valid_date r = true) l ->
  last l = Some z -> Forall (fun r => time_le r z) l.
Proof.
  intros Hs Hv Hz. apply List.Forall_forall. intros r Hin.
  apply list_elem_of_In, list_elem_of_lookup in Hin. destruct Hin as [i Hi].
  rewrite last_lookup in Hz.
  pose proof (lookup_lt_Some _ _ _ Hi) as Hlt.
  destruct (decide (i = Init.Nat.pred (length l))) as [->|Hne].
  - rewrite Hz in Hi. injection Hi as ->.
    rewrite List.Forall_forall in Hv.
    assert (Hvr : valid_date r = true).
    { apply Hv, list_elem_of_In, list_elem_of_lookup. eauto. }
    unfold valid_date, getTime in Hvr. unfold time_le.
    destruct (date r) as [t|]; [|discriminate]. exists t, t. repeat split. lia.
  - apply (sorted_lookup l i (Init.Nat.pred (length l))); auto. lia.
Qed.

(** [latestSummary] is the row with the latest date of the table that
    [fetchData] keeps: no row of the table is dated after it. *)
Theorem latestSummary_is_latest `{Host} (data : list object) (latest : row) :
  latestSummary (Some (parsed_rows data)) = Some latest ->
  Forall (fun r => time_le r latest) (parsed_rows data).
Proof.
  cbn. apply sorted_last; [apply parsed_rows_sorted|apply parsed_rows_valid].
Qed.

Lemma latestSummary_is_latest_witness :
  exists latest,
    latestSummary (Some (@parsed_rows DemoHost.cst Samples.three_rows)) = Some latest
    /\ Forall (fun r => time_le r latest) (@parsed_rows DemoHost.cst Samples.three_rows).
Proof.
  eexists. split; [reflexivity|].
  apply (@latestSummary_is_latest DemoHost.cst Samples.three_rows). reflexivity.
Defined.

End OrderFacts.

(** ** The date range, the trend and the overlay selection *)

Module ViewFacts.
Import JSNum JSVal JSDate Dashboard View Notions.

Lemma safeNum_finite `{Host} (v : jsval) (n : number) :
  safeNum v = Num n -> isFinite n = true.
Proof.
  unfold safeNum.
  destruct (_ || _ || _ || _); [discriminate|].
  destruct (isFinite (ToNumber v)) eqn:E; [|discriminate].
  intros [= <-]. exact E.
Qed.

Lemma parsed_rows_finite `{Host} (data : list object) :
  Forall finite_index (parsed_rows data).
Proof.
  unfold parsed_rows. rewrite (ParseFacts.sort_by_date_perm _).
  apply List.Forall_forall. intros r Hin.
  apply List.filter_In in Hin. destruct Hin as [Hin _].
  apply List.in_map_iff in Hin. destruct Hin as (o & <- & _).
  intros n. cbn. apply safeNum_finite.
Qed.

Lemma bound_cases `{Host} (range : option string) (r : option row) :
  (falsy range /\ bound range r
                  = match r with
                    | Some x => Ok (date x)
                    | None => Throw "TypeError: Cannot read properties of undefined (reading 'date')"
                    end)
  \/ (~ falsy range /\ exists d, bound range r = Ok d).
Proof.
  unfold bound, falsy. destruct range as [s|].
  - destruct (String.eqb_spec s "") as [->|Hne].
    + left. split; [auto|reflexivity].
    + right. split; [|eauto]. intros [?|[= ?]]; [discriminate|contradiction].
  - left. split; [auto|reflexivity].
Qed.

Lemma date_ge_valid_l (a : row) (d : jsdate) :
  date_ge (date a) d = true -> valid_date a = true.
Proof.
  unfold date_ge, valid_date, getTime. destruct (date a); [reflexivity|discriminate].
Qed.

Lemma filter_sublist {A} (p : A -> bool) (l : list A) :
  List.filter p l `sublist_of` l.
Proof.
  induction l as [|a l IH]; cbn; [constructor|].
  destruct (p a); [apply sublist_skip|apply sublist_cons]; exact IH.
Qed.

Lemma filtered_throws `{Host} (rawData : list row)
  (rangeStart rangeEnd : option string) :
  (rawData = [] /\ (falsy rangeStart \/ falsy rangeEnd))
  <-> exists e, filtered (Some rawData) rangeStart rangeEnd = Throw e.
Proof.
  unfold filtered. destruct rawData as [|x l].
  - cbn [head last].
    destruct (bound_cases rangeStart None) as [[Fs ->]|[Fs [ds ->]]]; cbn [bind].
    + split; eauto.
    + destruct (bound_cases rangeEnd None) as [[Fe ->]|[Fe [de ->]]]; cbn [bind].
      * split; eauto.
      * split; [intros [_ [F|F]]; contradiction|intros [e He]; discriminate].
  - destruct (last (x :: l)) as [z|] eqn:El;
      [|apply last_None in El; discriminate].
    cbn [head].
    assert (Es : exists ds, bound rangeStart (Some x) = Ok ds).
    { destruct (bound_cases rangeStart (Some x)) as [[_ E]|[_ E]]; eauto. }
    assert (Ee : exists de, bound rangeEnd (Some z) = Ok de).
    { destruct (bound_cases rangeEnd (Some z)) as [[_ E]|[_ E]]; eauto. }
    destruct Es as [ds ->], Ee as [de ->]. cbn [bind].
    split; [intros [E _]; discriminate|intros [e He]; discriminate].
Qed.

(** The memo [filtered] throws exactly for a table with no row whose
    range is not fully set; otherwise it gives rows of the table in
    their order, each with a valid date. *)
Theorem filtered_of_table `{Host} (rawData : list row)
  (rangeStart rangeEnd : option string) :
  ((exists e, filtered (Some rawData) rangeStart rangeEnd = Throw e)
   <-> rawData = [] /\ (falsy rangeStart \/ falsy rangeEnd))
  /\ (forall out,
        filtered (Some rawData) rangeStart rangeEnd = Ok (Some out) ->
        out `sublist_of` rawData
        /\ Forall (fun r => valid_date r = true) out).
Proof.
  assert (Hout : forall start end_ out,
            Ok (Some (List.filter
                        (fun r => date_ge (date r) start && date_ge end_ (date r))
                        rawData)) = Ok (Some out) ->
            out `sublist_of` rawData
            /\ Forall (fun r => valid_date r = true) out).
  { intros start end_ out [= <-]. split; [apply filter_sublist|].
    apply List.Forall_forall. intros r Hin.
    apply List.filter_In in Hin. destruct Hin as [_ Hin].
    apply andb_true_iff in Hin. destruct Hin as [Hin _].
    eapply date_ge_valid_l. exact Hin. }
  unfold filtered. destruct rawData as [|x l].
  - cbn [head last].
    destruct (bound_cases rangeStart None) as [[Fs ->]|[Fs [ds ->]]]; cbn [bind].
    + split; [split; eauto|]. discriminate.
    + destruct (bound_cases rangeEnd None) as [[Fe ->]|[Fe [de ->]]]; cbn [bind].
      * split; [split; eauto|]. discriminate.
      * split; [|apply Hout]. split; [intros [e He]; discriminate|].
        intros [_ [F|F]]; contradiction.
  - destruct (last (x :: l)) as [z|] eqn:El;
      [|apply last_None in El; discriminate].
    cbn [head].
    assert (Es : exists ds, bound rangeStart (Some x) = Ok ds).
    { destruct (bound_cases rangeStart (Some x)) as [[_ E]|[_ E]]; eauto. }
    assert (Ee : exists de, bound rangeEnd (Some z) = Ok de).
    { destruct (bound_cases rangeEnd (Some z)) as [[_ E]|[_ E]]; eauto. }
    destruct Es as [ds ->], Ee as [de ->]. cbn [bind].
    split; [|apply Hout]. split; [intros [e He]; discriminate|].
    intros [E _]. discriminate.
Qed.

Lemma filtered_of_table_witness :
  exists out,
    @filtered DemoHost.cst (Some (@parsed_rows DemoHost.cst Samples.three_rows))
      (Some "2024-01-03") None = Ok (Some out)
    /\ out `sublist_of` @parsed_rows DemoHost.cst Samples.three_rows
    /\ Forall (fun r => valid_date r = true) out.
Proof.
  eexists. split; [reflexivity|].
  apply (proj2 (@filtered_of_table DemoHost.cst
                  (@parsed_rows DemoHost.cst Samples.three_rows)
                  (Some "2024-01-03") None)).
  reflexivity.
Defined.

Lemma sorted_head (l : list row) (h : row) :
  StronglySorted time_le l -> Forall (fun r => valid_date r = true) l ->
  head l = Some h -> Forall (fun r => time_le h r) l.
Proof.
  intros Hs Hv Hh. destruct l as [|x l]; [discriminate|].
  injection Hh as ->. inversion Hs as [|? ? _ Hx]; subst.
  constructor; [|exact Hx].
  inversion Hv as [|? ? Hvh _]; subst.
  unfold valid_date, getTime in Hvh. unfold time_le.
  destruct (date h) as [t|]; [|discriminate]. exists t, t. repeat split. lia.
Qed.

Lemma time_le_date_ge (a b : row) : time_le a b -> date_ge (date b) (date a) = true.
Proof.
  intros (ta & tb & -> & -> & Hle). cbn. apply Z.leb_le. exact Hle.
Qed.

(** With no date range set, the memo [filtered] of a table that
    [fetchData] keeps is the whole table, unless the table has no row, in
    which case it throws. *)
Theorem filtered_without_range `{Host} (data : list object)
  (rangeStart rangeEnd : option string) :
  falsy rangeStart -> falsy rangeEnd ->
  (parsed_rows data <> [] ->
   filtered (Some (parsed_rows data)) rangeStart rangeEnd
   = Ok (Some (parsed_rows data)))
  /\ (parsed_rows data = [] ->
      exists e, filtered (Some (parsed_rows data)) rangeStart rangeEnd = Throw e).
Proof.
  intros Fs Fe. unfold filtered.
  destruct (bound_cases rangeStart (head (parsed_rows data))) as [[_ Es]|[Fs' _]];
    [|contradiction].
  destruct (bound_cases rangeEnd (last (parsed_rows data))) as [[_ Ee]|[Fe' _]];
    [|contradiction].
  rewrite Es; clear Es.
  pose proof (OrderFacts.parsed_rows_sorted data) as Hs.
  pose proof (OrderFacts.parsed_rows_valid data) as Hv.
  destruct (head (parsed_rows data)) as [h|] eqn:Eh.
  - cbn [bind]. rewrite Ee; clear Ee.
    destruct (last (parsed_rows data)) as [z|] eqn:Ez;
      [|apply last_None in Ez; rewrite Ez in Eh; discriminate].
    cbn [bind]. split.
    + intros _. do 2 f_equal. apply ParseFacts.filter_all.
      pose proof (sorted_head _ _ Hs Hv Eh) as Hh.
      pose proof (OrderFacts.sorted_last _ _ Hs Hv Ez) as Hz.
      rewrite List.Forall_forall in Hh, Hz |- *. intros r Hin.
      apply andb_true_iff. split; apply time_le_date_ge; auto.
    + intros E. rewrite E in Eh. discriminate.
  - cbn [bind]. split; [|eauto].
    intros Hne. destruct (parsed_rows data); [contradiction|discriminate].
Qed.

Lemma filtered_without_range_witness :
  @filtered DemoHost.cst (Some (@parsed_rows DemoHost.cst Samples.three_rows))
    None (Some "")
  = Ok (Some (@parsed_rows DemoHost.cst Samples.three_rows)).
Proof.
  apply (proj1 (@filtered_without_range DemoHost.cst Samples.three_rows
                  None (Some "") (or_introl eq_refl) (or_intror eq_refl))).
  discriminate.
Defined.

Lemma slice_last_ends (data : list row) (days : nat) :
  (1 <= days <= length data)%nat ->
  head (slice_last data days) = data !! (length data - days)%nat
  /\ last (slice_last data days) = last data.
Proof.
  intros Hd. unfold slice_last. destruct days as [|d]; [lia|].
  split.
  - rewrite head_lookup, lookup_drop. f_equal. lia.
  - rewrite !last_lookup, lookup_drop, length_drop. f_equal. lia.
Qed.

Lemma trend_numbers (f l : row) :
  finite_index f -> finite_index l ->
  let first := or_zero (escape_index_0_100 f) in
  let last := or_zero (escape_index_0_100 l) in
  is_nan (sub last first) = false
  /\ is_nan (if gt first (of_Z 0)
             then mul (div (sub last first) first) (of_Z 100)
             else of_Z 0) = false.
Proof.
  intros Hf Hl first last.
  assert (Ff : isFinite first = true) by (apply ArithFacts.or_zero_finite, Hf).
  assert (Fl : isFinite last = true) by (apply ArithFacts.or_zero_finite, Hl).
  pose proof (ArithFacts.sub_finite last first Fl Ff) as Hsub.
  split; [exact Hsub|].
  destruct (gt first (of_Z 0)) eqn:G; [|apply ArithFacts.of_Z_not_nan].
  destruct (ArithFacts.gt_zero_finite first Ff G) as (m & e & ->).
  apply ArithFacts.times_100_not_nan, ArithFacts.div_by_finite, Hsub.
Qed.

(** [calculateTrend] gives [null] exactly for fewer rows than [days]; it
    throws exactly for no row and [days] 0; for [days] of 2 or more its
    result is that of the first and the last row of the window alone,
    whatever lies between or before them. *)
Theorem calculateTrend_window (data : list row) (days : nat) :
  (calculateTrend data days = Ok None <-> (length data < days)%nat)
  /\ ((exists e, calculateTrend data days = Throw e) <-> days = 0%nat /\ data = [])
  /\ (forall before f between l,
        data = before ++ f :: between ++ [l] ->
        days = S (S (length between)) ->
        calculateTrend data days = calculateTrend [f; l] 2).
Proof.
  unfold calculateTrend.
  destruct (Nat.ltb_spec (length data) days) as [Hlt|Hge].
  - split; [split; [intros _; exact Hlt|reflexivity]|].
    split; [split; [intros [e He]; discriminate|intros [-> ->]; cbn in Hlt; lia]|].
    intros before f between l -> ->.
    rewrite !length_app in Hlt. cbn in Hlt. rewrite length_app in Hlt.
    cbn in Hlt. lia.
  - destruct days as [|d].
    + cbn [slice_last]. destruct data as [|x data].
      * cbn. split; [split; [discriminate|cbn; lia]|].
        split; [split; eauto|]. intros ? ? ? ? ?. discriminate.
      * cbn [head]. destruct (last (x :: data)) as [z|] eqn:Ez;
          [|apply last_None in Ez; discriminate].
        split; [split; [discriminate|cbn; lia]|].
        split; [split; [intros [e He]; discriminate|intros [_ E]; discriminate]|].
        intros ? ? ? ? ?. discriminate.
    + destruct (slice_last_ends data (S d) ltac:(lia)) as [-> ->].
      destruct (lookup_lt_is_Some_2 data (length data - S d) ltac:(lia)) as [f0 Ef].
      rewrite Ef.
      destruct (last data) as [z|] eqn:Ez;
        [|apply last_None in Ez; subst data; discriminate].
      split; [split; [discriminate|lia]|].
      split; [split; [intros [e He]; discriminate|intros [E _]; discriminate]|].
      intros before f between l -> [= ->].
      rewrite (app_comm_cons between [l] f), (app_assoc before), last_snoc in Ez.
      injection Ez as <-.
      rewrite lookup_app_r in Ef
        by (rewrite !length_app; cbn; rewrite length_app; cbn; lia).
      replace (_ - _ - _)%nat with 0%nat in Ef
        by (rewrite !length_app; cbn; rewrite length_app; cbn; lia).
      cbn in Ef. injection Ef as <-.
      reflexivity.
Qed.

Lemma calculateTrend_window_witness :
  calculateTrend (map (@parseRow DemoHost.cst) Samples.three_rows) 3
  = calculateTrend
      [nth 0 (map (@parseRow DemoHost.cst) Samples.three_rows)
         (@parseRow DemoHost.cst []);
       nth 2 (map (@parseRow DemoHost.cst) Samples.three_rows)
         (@parseRow DemoHost.cst [])] 2.
Proof.
  apply (proj2 (proj2 (calculateTrend_window
                         (map (@parseRow DemoHost.cst) Samples.three_rows) 3))
           []
           (nth 0 (map (@parseRow DemoHost.cst) Samples.three_rows)
              (@parseRow DemoHost.cst []))
           [nth 1 (map (@parseRow DemoHost.cst) Samples.three_rows)
              (@parseRow DemoHost.cst [])]
           (nth 2 (map (@parseRow DemoHost.cst) Samples.three_rows)
              (@parseRow DemoHost.cst [])));
    reflexivity.
Defined.

(** On rows whose index is [null] or finite, as those of the table that
    [fetchData] keeps and of any date range of it, the change and the
    percentage of [calculateTrend] are numbers, never NaN. *)
Theorem calculateTrend_numbers `{Host} (objects : list object)
  (rangeStart rangeEnd : option string) (data : list row) (days : nat) (t : trend) :
  Forall finite_index data
  \/ filtered (Some (parsed_rows objects)) rangeStart rangeEnd = Ok (Some data) ->
  calculateTrend data days = Ok (Some t) ->
  is_nan (change t) = false /\ is_nan (changePercent t) = false.
Proof.
  intros Hdata.
  assert (Hfin : Forall finite_index data).
  { destruct Hdata as [Hf|Hf]; [exact Hf|].
    unfold filtered in Hf.
    destruct (bound rangeStart _); [|discriminate]. cbn [bind] in Hf.
    destruct (bound rangeEnd _); [|discriminate]. cbn [bind] in Hf.
    injection Hf as <-.
    apply List.Forall_forall. intros r Hin. apply List.filter_In in Hin.
    pose proof (parsed_rows_finite objects) as Hp.
    rewrite List.Forall_forall in Hp. apply Hp, Hin. }
  clear Hdata. unfold calculateTrend.
  destruct (length data <? days)%nat; [discriminate|].
  destruct (head (slice_last data days)) as [f|] eqn:Ef; [|discriminate].
  destruct (last (slice_last data days)) as [l|] eqn:El; [|discriminate].
  intros [= <-]. cbn [change changePercent].
  assert (Hin : forall r, r ∈ slice_last data days -> finite_index r).
  { intros r Hr. rewrite List.Forall_forall in Hfin. apply Hfin, list_elem_of_In.
    unfold slice_last in Hr. destruct days; [exact Hr|].
    apply list_elem_of_lookup in Hr.
    destruct Hr as [i Hi]. rewrite lookup_drop in Hi.
    eapply list_elem_of_lookup_2. exact Hi. }
  apply trend_numbers; apply Hin.
  - apply head_Some_elem_of, Ef.
  - apply last_Some_elem_of, El.
Qed.

Lemma calculateTrend_numbers_witness :
  exists t,
    calculateTrend (@parsed_rows DemoHost.cst Samples.three_rows) 3 = Ok (Some t)
    /\ is_nan (change t) = false /\ is_nan (changePercent t) = false.
Proof.
  eexists. split; [reflexivity|].
  apply (@calculateTrend_numbers DemoHost.cst Samples.three_rows None None
           (@parsed_rows DemoHost.cst Samples.three_rows) 3).
  - right. reflexivity.
  - reflexivity.
Defined.

Lemma toggle_NoDup (sel : list string) (key : string) :
  NoDup sel -> NoDup (handleOverlayToggle sel key).
Proof.
  intros Hnd. unfold handleOverlayToggle.
  destruct (existsb (String.eqb key) sel) eqn:E.
  - apply NoDup_ListNoDup, List.NoDup_filter, NoDup_ListNoDup, Hnd.
  - apply NoDup_app. split; [exact Hnd|]. split; [|apply NoDup_singleton].
    intros x Hx Hx'. apply list_elem_of_singleton in Hx'. subst x.
    assert (existsb (String.eqb key) sel = true); [|congruence].
    apply existsb_exists. exists key. split; [apply list_elem_of_In, Hx|].
    apply String.eqb_refl.
Qed.

Lemma click_invariant (sel : list string) (key : string) :
  NoDup sel /\ (length sel <= 3)%nat ->
  NoDup (click sel key) /\ (length (click sel key) <= 3)%nat.
Proof.
  intros [Hnd Hlen]. unfold click, handleOverlayChange.
  destruct (Nat.ltb_spec 3 (length (handleOverlayToggle sel key))).
  - auto.
  - split; [apply toggle_NoDup, Hnd|lia].
Qed.

Lemma clicks_invariant (keys sel : list string) :
  NoDup sel /\ (length sel <= 3)%nat ->
  NoDup (fold_left click keys sel) /\ (length (fold_left click keys sel) <= 3)%nat.
Proof.
  revert sel. induction keys as [|k keys IH]; intros sel Hsel; [exact Hsel|].
  cbn [fold_left]. apply IH, click_invariant, Hsel.
Qed.

Lemma filter_out_absent (sel : list string) (key : string) :
  key ∉ sel -> List.filter (fun k => negb (String.eqb k key)) sel = sel.
Proof.
  intros Hnot. apply ParseFacts.filter_all. apply List.Forall_forall.
  intros k Hin. destruct (String.eqb_spec k key) as [->|_]; [|reflexivity].
  exfalso. apply Hnot, list_elem_of_In, Hin.
Qed.

(** Whatever overlays are clicked in the selector, starting from none,
    the selection holds at most three keys and none twice; a click on an
    unselected key is refused exactly when three are selected, and a
    second click on a key just added gives the selection back. *)
Theorem overlay_clicks (keys : list string) (key : string) :
  let selected := fold_left click keys [] in
  NoDup selected /\ (length selected <= 3)%nat
  /\ (key ∉ selected ->
      (length selected = 3%nat -> click selected key = selected)
      /\ ((length selected < 3)%nat ->
          click selected key = selected ++ [key]
          /\ click (click selected key) key = selected)).
Proof.
  intros selected.
  assert (Hinv : NoDup selected /\ (length selected <= 3)%nat).
  { apply clicks_invariant. split; [constructor|cbn; lia]. }
  destruct Hinv as [Hnd Hlen]. split; [exact Hnd|]. split; [exact Hlen|].
  intros Hnot.
  assert (Hex : existsb (String.eqb key) selected = false).
  { destruct (existsb (String.eqb key) selected) eqn:E; [|reflexivity].
    apply existsb_exists in E. destruct E as (x & Hx & Hk).
    apply String.eqb_eq in Hk. subst x. exfalso. apply Hnot, list_elem_of_In, Hx. }
  assert (Hadd : handleOverlayToggle selected key = selected ++ [key]).
  { unfold handleOverlayToggle. rewrite Hex. reflexivity. }
  split.
  - intros H3. unfold click, handleOverlayChange. rewrite Hadd, length_app, H3.
    reflexivity.
  - intros H3.
    assert (Hc : click selected key = selected ++ [key]).
    { unfold click, handleOverlayChange. rewrite Hadd, length_app. cbn [length].
      destruct (Nat.ltb_spec 3 (length selected + 1)); [lia|reflexivity]. }
    split; [exact Hc|]. rewrite Hc.
    unfold click, handleOverlayChange, handleOverlayToggle.
    rewrite existsb_app. cbn [existsb]. rewrite String.eqb_refl, orb_true_r.
    rewrite List.filter_app. cbn [List.filter]. rewrite String.eqb_refl.
    cbn [negb]. rewrite app_nil_r, (filter_out_absent _ _ Hnot).
    destruct (Nat.ltb_spec 3 (length selected)); [lia|reflexivity].
Qed.

Lemma overlay_clicks_witness :
  click (fold_left click ["hs300_close"; "margin_total"; "douyin_search"] [])
    "crowding_z"
  = fold_left click ["hs300_close"; "margin_total"; "douyin_search"] [].
Proof.
  apply (proj1 (proj2 (proj2 (overlay_clicks
                  ["hs300_close"; "margin_total"; "douyin_search"] "crowding_z"))
                  ltac:(vm_compute; intros Hin;
                        repeat (apply elem_of_cons in Hin as [Hin|Hin];
                                [discriminate|]);
                        inversion Hin))).
  reflexivity.
Defined.

End ViewFacts.

(** ** The groups of a period *)

Module GroupFacts.
Import JSNum JSVal JSDate Dashboard Notions.

Section Groups.
Context `{Host}.

Lemma key_eqb_eq (a b : option string) : key_eqb a b = true <-> a = b.
Proof.
  destruct a as [x|], b as [y|]; cbn; try (split; [discriminate|congruence]).
  - rewrite String.eqb_eq. split; congruence.
  - split; reflexivity.
Qed.

Lemma group_push_fst (k : option string) (d : row)
  (m : list (option string * list row)) :
  (k ∈ map fst m -> map fst (group_push k d m) = map fst m)
  /\ (k ∉ map fst m -> group_push k d m = m ++ [(k, [d])]).
Proof.
  induction m as [|[k' arr] m [IH1 IH2]]; cbn [group_push map fst].
  - split; [intros Hin; inversion Hin|reflexivity].
  - destruct (key_eqb k' k) eqn:E.
    + apply key_eqb_eq in E. subst k'. split; [reflexivity|].
      intros Hnot. exfalso. apply Hnot. left.
    + assert (Hne : k' <> k).
      { intros ->. rewrite (proj2 (key_eqb_eq k k) eq_refl) in E. discriminate. }
      split.
      * intros Hin. apply elem_of_cons in Hin as [->|Hin]; [contradiction|].
        cbn [map fst]. f_equal. apply IH1, Hin.
      * intros Hnot. cbn [app]. f_equal. apply IH2.
        intros Hin. apply Hnot. right. exact Hin.
Qed.

Lemma group_push_NoDup (k : option string) (d : row)
  (m : list (option string * list row)) :
  NoDup (map fst m) -> NoDup (map fst (group_push k d m)).
Proof.
  intros Hnd. destruct (decide (k ∈ map fst m)) as [Hin|Hnot].
  - rewrite (proj1 (group_push_fst k d m) Hin). exact Hnd.
  - rewrite (proj2 (group_push_fst k d m) Hnot), map_app. cbn.
    apply NoDup_app. split; [exact Hnd|]. split; [|apply NoDup_singleton].
    intros x Hx Hx'. apply list_elem_of_singleton in Hx'. subst x. contradiction.
Qed.

Lemma group_push_rows (k : option string) (d : row)
  (m : list (option string * list row)) :
  concat (map snd (group_push k d m)) ≡ₚ concat (map snd m) ++ [d].
Proof.
  induction m as [|[k' arr] m IH]; cbn [group_push map snd concat].
  - reflexivity.
  - destruct (key_eqb k' k); cbn [map snd concat].
    + rewrite <- !app_assoc. apply Permutation_app_head, Permutation_app_comm.
    + rewrite IH, app_assoc. reflexivity.
Qed.

Lemma group_push_Forall (P Q : option string * list row -> Prop)
  (k : option string) (d : row) (m : list (option string * list row)) :
  Forall P m ->
  (forall g, P g -> Q g) ->
  (forall arr, P (k, arr) -> Q (k, arr ++ [d])) ->
  Q (k, [d]) ->
  Forall Q (group_push k d m).
Proof.
  intros Hm Hkeep Hadd Hnew.
  induction Hm as [|[k' arr] m Hg Hm IH]; cbn [group_push].
  - repeat constructor. exact Hnew.
  - destruct (key_eqb k' k) eqn:E.
    + apply key_eqb_eq in E. subst k'. constructor; [apply Hadd, Hg|].
      eapply Forall_impl; [exact Hm|exact Hkeep].
    + constructor; [apply Hkeep, Hg|exact IH].
Qed.

Lemma group_push_grouped (period : string) (pre : list row)
  (k : option string) (d : row) (m : list (option string * list row)) :
  grouped period pre m -> period_key period d = Ok k ->
  grouped period (pre ++ [d]) (group_push k d m).
Proof.
  intros (Hnd & Hperm & Hall) Hk. split; [apply group_push_NoDup, Hnd|].
  split; [rewrite group_push_rows, Hperm; reflexivity|].
  eapply group_push_Forall; [exact Hall| | |].
  - intros g (Hne & Hsub & Hkeys). split; [exact Hne|]. split; [|exact Hkeys].
    apply sublist_inserts_r, Hsub.
  - cbn [fst snd]. intros arr (Hne & Hsub & Hkeys).
    split; [destruct arr; discriminate|].
    split; [apply sublist_app; [exact Hsub|reflexivity]|].
    apply Forall_app. split; [exact Hkeys|]. repeat constructor. exact Hk.
  - cbn [fst snd]. split; [discriminate|].
    split; [apply sublist_inserts_l; reflexivity|].
    repeat constructor. exact Hk.
Qed.

Lemma group_rows_grouped (period : string) (data pre : list row)
  (m m' : list (option string * list row)) :
  grouped period pre m -> group_rows period data m = Ok m' ->
  grouped period (pre ++ data) m'.
Proof.
  revert pre m. induction data as [|d data IH]; intros pre m Hm; cbn [group_rows].
  - intros [= <-]. rewrite app_nil_r. exact Hm.
  - destruct (period_key period d) as [k|e] eqn:Ek; [|discriminate].
    cbn [bind]. intros Hrun.
    replace (pre ++ d :: data) with ((pre ++ [d]) ++ data)
      by (rewrite <- app_assoc; reflexivity).
    eapply IH; [|exact Hrun]. apply group_push_grouped; assumption.
Qed.

Lemma grouped_nil (period : string) : grouped period [] [].
Proof. repeat split; constructor. Qed.

Lemma period_key_total (period : string) (d : row) :
  period <> "week" -> exists k, period_key period d = Ok k.
Proof.
  intros Hw. unfold period_key.
  destruct (String.eqb_spec period "week"); [contradiction|].
  destruct (String.eqb period "month"); [eauto|].
  destruct (String.eqb period "year"); eauto.
Qed.

Lemma group_rows_total (period : string) (data : list row)
  (m : list (option string * list row)) :
  Forall (fun d => exists k, period_key period d = Ok k) data ->
  exists m', group_rows period data m = Ok m'.
Proof.
  intros Hd. revert m. induction Hd as [|d data [k Hk] _ IH]; intros m;
    cbn [group_rows]; [eauto|].
  rewrite Hk. cbn [bind]. apply IH.
Qed.

Lemma points_total (m : list (option string * list row)) :
  Forall (fun g => snd g <> []) m ->
  exists pts,
    mapM (fun '(_, arr) => aggregate_point arr) m = Ok pts
    /\ Forall2 (fun g p => aggregate_point (snd g) = Ok p) m pts.
Proof.
  induction 1 as [|[k arr] m Hne _ (pts & Hpts & Hall)]; cbn [mapM].
  - exists []. split; [reflexivity|constructor].
  - cbn [snd] in Hne.
    destruct (aggregate_point arr) as [p|e] eqn:Ep.
    + cbn [bind]. rewrite Hpts. cbn [bind]. exists (p :: pts).
      split; [reflexivity|]. constructor; [exact Ep|exact Hall].
    + unfold aggregate_point in Ep.
      destruct (last arr) eqn:El; [discriminate|].
      apply last_None in El. contradiction.
Qed.

Lemma points_inv (m : list (option string * list row)) (pts : list row) :
  mapM (fun '(_, arr) => aggregate_point arr) m = Ok pts ->
  Forall2 (fun g p => aggregate_point (snd g) = Ok p) m pts.
Proof.
  revert pts. induction m as [|[k arr] m IH]; intros pts; cbn [mapM].
  - intros [= <-]. constructor.
  - destruct (aggregate_point arr) as [p|e] eqn:Ep; [|discriminate]. cbn [bind].
    destruct (mapM _ m) as [ps|e]; [|discriminate]. cbn [bind].
    intros [= <-]. constructor; [exact Ep|]. apply IH. reflexivity.
Qed.

Lemma point_date (arr : list row) (p : row) :
  aggregate_point arr = Ok p -> exists l, last arr = Some l /\ date p = date l.
Proof.
  unfold aggregate_point. destruct (last arr) as [l|]; [|discriminate].
  intros [= <-]. eauto.
Qed.

Lemma groups_length (m : list (option string * list row)) :
  Forall (fun g => snd g <> []) m ->
  (length m <= length (concat (map snd m)))%nat.
Proof.
  induction 1 as [|[k arr] m Hne _ IH]; cbn; [lia|].
  rewrite length_app. cbn in Hne. destruct arr; [contradiction|]. cbn. lia.
Qed.

Lemma aggregateByPeriod_groups (data : list row) (period : string)
  (out : list row) :
  period <> "day" -> aggregateByPeriod data period = Ok out ->
  exists m pts,
    grouped period data m
    /\ Forall2 (fun g p => aggregate_point (snd g) = Ok p) m pts
    /\ out = sort_by_date pts.
Proof.
  intros Hday. unfold aggregateByPeriod.
  destruct (String.eqb_spec period "day"); [contradiction|].
  destruct (group_rows period data []) as [m|e] eqn:Hm; [|discriminate].
  cbn [bind].
  destruct (mapM _ m) as [pts|e] eqn:Hpts; [|discriminate]. cbn [bind].
  intros [= <-]. exists m, pts.
  split; [exact (group_rows_grouped period data [] [] m (grouped_nil period) Hm)|].
  split; [apply points_inv, Hpts|reflexivity].
Qed.

Lemma aggregateByPeriod_length (data : list row) (period : string)
  (out : list row) :
  period <> "day" -> aggregateByPeriod data period = Ok out ->
  (length out <= length data)%nat.
Proof.
  intros Hday Hout.
  destruct (aggregateByPeriod_groups data period out Hday Hout)
    as (m & pts & (_ & Hperm & Hall) & H2 & ->).
  rewrite (ParseFacts.sort_by_date_perm pts), <- (Forall2_length _ _ _ H2),
    <- Hperm.
  apply groups_length. eapply Forall_impl; [exact Hall|]. cbn. tauto.
Qed.

Lemma aggregateByPeriod_valid (data : list row) (period : string)
  (out : list row) :
  period <> "day" -> aggregateByPeriod data period = Ok out ->
  Forall (fun r => valid_date r = true) data ->
  Forall (fun r => valid_date r = true) out.
Proof.
  intros Hday Hout Hvalid.
  destruct (aggregateByPeriod_groups data period out Hday Hout)
    as (m & pts & (_ & _ & Hall) & H2 & ->).
  rewrite (ParseFacts.sort_by_date_perm pts). clear Hout.
  induction H2 as [|g p m pts Hp _ IH]; [constructor|].
  inversion Hall as [|? ? (_ & Hsub & _) Hall']; subst.
  constructor; [|apply IH, Hall'].
  destruct (point_date _ _ Hp) as (l & Hl & Hd).
  unfold valid_date. rewrite Hd. fold (valid_date l).
  rewrite List.Forall_forall in Hvalid. apply Hvalid, list_elem_of_In.
  eapply elem_of_sublist; [|exact Hsub]. apply last_Some_elem_of, Hl.
Qed.

Lemma aggregateByPeriod_total (data : list row) (period : string) :
  period <> "day" -> period <> "week" ->
  exists out, aggregateByPeriod data period = Ok out.
Proof.
  intros Hday Hweek. unfold aggregateByPeriod.
  destruct (String.eqb_spec period "day"); [contradiction|].
  destruct (group_rows_total period data []) as [m Hm].
  { apply List.Forall_forall. intros d _. apply period_key_total, Hweek. }
  rewrite Hm. cbn [bind].
  pose proof (group_rows_grouped period data [] [] m (grouped_nil period) Hm)
    as (_ & _ & Hall).
  destruct (points_total m) as (pts & -> & _); [|cbn [bind]; eauto].
  eapply Forall_impl; [exact Hall|]. cbn. tauto.
Qed.

(** In a view other than the day view, [aggregateByPeriod] throws only
    in the week view; what it returns holds one point for each group,
    where the groups split the rows by key: no key twice, every row in
    one group, each group in table order.  The points are no more than
    the rows and, when every row has a valid date, in time order. *)
Theorem aggregateByPeriod_partition (data : list row) (period : string) :
  period <> "day" ->
  (period <> "week" -> exists out, aggregateByPeriod data period = Ok out)
  /\ (forall out,
        aggregateByPeriod data period = Ok out ->
        (exists m pts,
            grouped period data m
            /\ Forall2 (fun g p => aggregate_point (snd g) = Ok p) m pts
            /\ out ≡ₚ pts)
        /\ (length out <= length data)%nat
        /\ (Forall (fun r => valid_date r = true) data ->
            StronglySorted time_le out)).
Proof.
  intros Hday. split; [apply aggregateByPeriod_total, Hday|].
  intros out Hout.
  split.
  { destruct (aggregateByPeriod_groups data period out Hday Hout)
      as (m & pts & Hg & H2 & ->).
    exists m, pts. split; [exact Hg|]. split; [exact H2|].
    apply ParseFacts.sort_by_date_perm. }
  split; [apply (aggregateByPeriod_length data period out Hday Hout)|].
  intros Hvalid.
  pose proof (aggregateByPeriod_valid data period out Hday Hout Hvalid) as Hv.
  destruct (aggregateByPeriod_groups data period out Hday Hout)
    as (m & pts & _ & _ & ->).
  apply OrderFacts.sort_by_date_sorted.
  rewrite (ParseFacts.sort_by_date_perm pts) in Hv. exact Hv.
Qed.

End Groups.

End GroupFacts.

(** ** The keys of the periods *)

Module PeriodFacts.
Import JSNum JSVal JSDate Dashboard Notions.

Lemma aggregateByPeriod_partition_witness :
  exists out,
    @aggregateByPeriod DemoHost.cst
      (@parsed_rows DemoHost.cst Samples.gap_rows) "month" = Ok out.
Proof.
  apply (proj1 (@GroupFacts.aggregateByPeriod_partition DemoHost.cst
                  (@parsed_rows DemoHost.cst Samples.gap_rows) "month"
                  ltac:(discriminate))).
  discriminate.
Defined.

Section Periods.
Context `{Host}.

Lemma unknown_key (period : string) (d : row) :
  period <> "week" -> period <> "month" -> period <> "year" ->
  period_key period d = Ok None.
Proof.
  intros Hw Hm Hy. unfold period_key.
  destruct (String.eqb_spec period "week"); [contradiction|].
  destruct (String.eqb_spec period "month"); [contradiction|].
  destruct (String.eqb_spec period "year"); [contradiction|].
  reflexivity.
Qed.

Lemma one_group (period : string) (data arr : list row) :
  (forall d, period_key period d = Ok None) ->
  group_rows period data [(None, arr)] = Ok [(None, arr ++ data)].
Proof.
  intros Hk. revert arr. induction data as [|d data IH]; intros arr; cbn [group_rows].
  - rewrite app_nil_r. reflexivity.
  - rewrite Hk. cbn [bind group_push key_eqb]. rewrite IH, <- app_assoc. reflexivity.
Qed.

(** A period that is none of day, week, month and year puts every row
    under the key [undefined]: the rows collapse into one point, dated as
    the last row, and no row gives no point. *)
Theorem aggregateByPeriod_unknown_period (data : list row) (period : string) :
  period <> "day" -> period <> "week" -> period <> "month" -> period <> "year" ->
  (data = [] -> aggregateByPeriod data period = Ok [])
  /\ (data <> [] ->
      exists p l,
        aggregateByPeriod data period = Ok [p]
        /\ aggregate_point data = Ok p
        /\ last data = Some l /\ date p = date l).
Proof.
  intros Hd Hw Hm Hy. unfold aggregateByPeriod.
  destruct (String.eqb_spec period "day"); [contradiction|].
  split; [intros ->; reflexivity|].
  intros Hne. destruct data as [|d data]; [contradiction|].
  cbn [group_rows]. rewrite (unknown_key period d Hw Hm Hy).
  cbn [bind group_push].
  rewrite (one_group period data [d]) by (intros; apply unknown_key; assumption).
  cbn [bind mapM app].
  destruct (aggregate_point (d :: data)) as [p|e] eqn:Ep.
  - cbn [bind]. destruct (GroupFacts.point_date _ _ Ep) as (l & Hl & Hp).
    exists p, l. repeat split; assumption.
  - unfold aggregate_point in Ep.
    destruct (last (d :: data)) eqn:El; [discriminate|].
    apply last_None in El. discriminate.
Qed.

End Periods.

Lemma aggregateByPeriod_unknown_period_witness :
  exists p,
    @aggregateByPeriod DemoHost.cst
      (@parsed_rows DemoHost.cst Samples.three_rows) "quarter" = Ok [p].
Proof.
  destruct (proj2 (@aggregateByPeriod_unknown_period DemoHost.cst
                     (@parsed_rows DemoHost.cst Samples.three_rows) "quarter"
                     ltac:(discriminate) ltac:(discriminate)
                     ltac:(discriminate) ltac:(discriminate))
              ltac:(discriminate)) as (p & l & Hp & _).
  exists p. exact Hp.
Defined.

Section Week.
Context `{Host}.
Local Open Scope Z_scope.

Lemma civil_roundtrip (z : Z) :
  days_from_civil (fst (fst (civil_from_days z))) (snd (fst (civil_from_days z))) 1
  + snd (civil_from_days z) - 1 = z
  /\ 1 <= snd (fst (civil_from_days z)) <= 12.
Proof.
  unfold civil_from_days.
  set (z1 := z + 719468). set (era := z1 / 146097).
  set (doe := z1 - era * 146097).
  assert (Hdoe : 0 <= doe <= 146096)
    by (subst doe era; Z.div_mod_to_equations; lia).
  set (yoe := (doe - doe / 1460 + doe / 36524 - doe / 146096) / 365).
  assert (Hyoe : 0 <= yoe <= 399) by (subst yoe; Z.div_mod_to_equations; lia).
  set (doy := doe - (365 * yoe + yoe / 4 - yoe / 100)).
  assert (Hdoy : 0 <= doy <= 365)
    by (subst doy yoe; Z.div_mod_to_equations; lia).
  set (mp := (5 * doy + 2) / 153).
  assert (Hmp : 0 <= mp <= 11) by (subst mp; Z.div_mod_to_equations; lia).
  cbn [fst snd]. unfold days_from_civil.
  assert (Hera : (yoe + era * 400) / 400 = era)
    by (Z.div_mod_to_equations; lia).
  destruct (Z.ltb_spec mp 10) as [Hlt|Hge].
  - destruct (Z.leb_spec (mp + 3) 2); [lia|].
    destruct (Z.ltb_spec 2 (mp + 3)); [|lia].
    rewrite Hera. replace (mp + 3 - 3) with mp by lia.
    replace (yoe + era * 400 - era * 400) with yoe by lia.
    split; [subst doy doe z1; lia|lia].
  - destruct (Z.leb_spec (mp - 9) 2); [|lia].
    destruct (Z.ltb_spec 2 (mp - 9)); [lia|].
    replace (yoe + era * 400 + 1 - 1) with (yoe + era * 400) by lia.
    rewrite Hera. replace (mp - 9 + 9) with mp by lia.
    replace (yoe + era * 400 - era * 400) with yoe by lia.
    split; [subst doy doe z1; lia|lia].
Qed.

Lemma MakeDay_of_month (l dt : Z) :
  MakeDay (YearFromTime l) (MonthFromTime l) dt = Day l - DateFromTime l + dt.
Proof.
  unfold MakeDay, YearFromTime, MonthFromTime, DateFromTime.
  destruct (civil_roundtrip (Day l)) as [Hr Hm].
  set (m := snd (fst (civil_from_days (Day l)))) in *.
  replace ((m - 1) / 12) with 0 by (Z.div_mod_to_equations; lia).
  replace ((m - 1) mod 12 + 1) with m by (Z.div_mod_to_equations; lia).
  rewrite Z.add_0_r. lia.
Qed.

Lemma setDate_days_back (t k : Z) :
  setDate (Some t) (Some (DateFromTime (LocalTime t) - k))
  = TimeClip (UTC (LocalTime t - k * msPerDay)).
Proof.
  unfold setDate. do 2 f_equal. rewrite MakeDay_of_month.
  unfold MakeDate, TimeWithinDay, Day, msPerDay.
  Z.div_mod_to_equations. lia.
Qed.

(** In the week view the key of a row is found in local time: from the
    local time of the row, go back as many whole days as its weekday is
    after Monday.  That local time is a Monday at the same time of the
    day; the key is the UTC date of the instant that has this local
    time.  In a zone whose offset never changes the instant is that many
    days before the row's.  A row with an invalid date has no key:
    computing it throws. *)
Theorem week_key_is_monday (d : row) :
  (date d = None -> exists e, period_key "week" d = Throw e)
  /\ (forall t, date d = Some t ->
        let k := (WeekDay (LocalTime t) + 6) mod 7 in
        let monday := LocalTime t - k * msPerDay in
        0 <= k <= 6
        /\ WeekDay monday = 1
        /\ TimeWithinDay monday = TimeWithinDay (LocalTime t)
        /\ period_key "week" d
           = bind (toISOString_slice10 (TimeClip (UTC monday)))
               (fun key => Ok (Some key))
        /\ ((forall u b u' b', LocalTZA u b = LocalTZA u' b') ->
            UTC monday = t - k * msPerDay)).
Proof.
  split.
  - intros Hd. unfold period_key. rewrite Hd. cbn. eauto.
  - intros t Hd k monday.
    split; [subst k; Z.div_mod_to_equations; lia|].
    split.
    { subst monday k. unfold WeekDay, Day, msPerDay.
      Z.div_mod_to_equations. lia. }
    split.
    { subst monday k. unfold TimeWithinDay, msPerDay.
      Z.div_mod_to_equations. lia. }
    split.
    { unfold period_key. rewrite Hd.
      cbn [String.eqb Ascii.eqb Bool.eqb getDay getDate option_map].
      rewrite setDate_days_back. reflexivity. }
    intros Hconst. subst monday. unfold UTC, LocalTime.
    rewrite (Hconst (t + LocalTZA t true - k * msPerDay) false t true). lia.
Qed.

End Week.

(** Monday 2024-11-04 00:00 UTC is Sunday 19:00 in New York, a day after
    the end of daylight saving there.  Six days back in local time is
    Monday 2024-10-28 19:00, when daylight saving was in force: 23:00 UTC
    of that day, an hour less than six days before the row's instant. *)
Lemma week_key_is_monday_witness :
  @period_key DemoHost.new_york "week"
    (@parseRow DemoHost.new_york [("日期", VStr "2024-11-04")])
  = Ok (Some "2024-10-28").
Proof.
  rewrite (proj1 (proj2 (proj2 (proj2 (proj2 (@week_key_is_monday DemoHost.new_york
             (@parseRow DemoHost.new_york [("日期", VStr "2024-11-04")]))
             1730678400000%Z ltac:(reflexivity)))))).
  reflexivity.
Defined.

End PeriodFacts.

(** ** The series of the chart *)

Module SeriesFacts.
Import JSNum JSVal JSDate Dashboard Notions.

Lemma mapM_Forall2 {A B} (f : A -> res B) (l : list A) (ys : list B) :
  mapM f l = Ok ys -> Forall2 (fun x y => f x = Ok y) l ys.
Proof.
  revert ys. induction l as [|x l IH]; intros ys; cbn [mapM].
  - intros [= <-]. constructor.
  - destruct (f x) as [y|e] eqn:Ex; [|discriminate]. cbn [bind].
    destruct (mapM f l) as [ys'|e]; [|discriminate]. cbn [bind].
    intros [= <-]. constructor; [exact Ex|]. apply IH. reflexivity.
Qed.

Lemma mapM_total {A B} (f : A -> res B) (l : list A) :
  Forall (fun x => exists y, f x = Ok y) l -> exists ys, mapM f l = Ok ys.
Proof.
  induction 1 as [|x l [y Hy] _ [ys Hys]]; cbn [mapM]; [eauto|].
  rewrite Hy. cbn [bind]. rewrite Hys. cbn [bind]. eauto.
Qed.

Section Downsample.
Context {A : Type}.
Variable undef : A.
Variable same : A -> A -> bool.

Local Abbreviation downsampleEven := (Dashboard.downsampleEven undef same).

Lemma length_set_last (out : list A) (v : A) :
  length (set_last out v) = length out.
Proof. destruct out; [reflexivity|]. unfold set_last. apply length_insert. Qed.

Lemma downsampleEven_length (data : list A) (target : nat) :
  length (downsampleEven data target) = Nat.min (length data) target.
Proof.
  unfold Dashboard.downsampleEven.
  destruct (Nat.leb_spec (length data) target) as [Hle|Hgt]; [lia|].
  destruct (negb _); rewrite ?length_set_last, DownsampleFacts.length_pick; lia.
Qed.

Lemma position_gap (n target i : nat) :
  (0 < target)%nat ->
  (n / target <= S i * n / target - i * n / target <= n / target + 1)%nat.
Proof.
  intros Ht.
  pose proof (Nat.div_mod_eq n target) as Hn.
  pose proof (Nat.mod_upper_bound n target ltac:(lia)) as Hr.
  set (q := (n / target)%nat) in *. set (r := (n mod target)%nat) in *.
  replace (S i * n)%nat with (i * n + r + q * target)%nat by lia.
  rewrite Nat.div_add by lia.
  pose proof (Nat.Div0.div_le_mono (i * n) (i * n + r) target ltac:(lia)) as H1.
  pose proof (Nat.Div0.div_le_mono (i * n + r) (i * n + 1 * target) target
                ltac:(lia)) as H2.
  rewrite Nat.div_add in H2 by lia. lia.
Qed.

(** Of more rows than [target], [downsampleEven] keeps at position [i],
    the last position apart, the row at [floor (i * n / target)]: these
    rows are evenly spread, two neighbours being [floor (n / target)] or
    one more apart, and the first row is kept whenever [target] is 2 or
    more.  The result has [min n target] rows, so sampling it again to
    the same target changes nothing. *)
Theorem downsampleEven_evenly (data : list A) (target : nat) :
  length (downsampleEven data target) = Nat.min (length data) target
  /\ downsampleEven (downsampleEven data target) target
     = downsampleEven data target
  /\ (forall i, (target < length data)%nat -> (S i < target)%nat ->
        downsampleEven data target !! i = data !! (i * length data / target)%nat
        /\ (length data / target
            <= S i * length data / target - i * length data / target
            <= length data / target + 1)%nat).
Proof.
  split; [apply downsampleEven_length|].
  split.
  { unfold Dashboard.downsampleEven at 1.
    destruct (Nat.leb_spec (length (downsampleEven data target)) target) as [_|Hgt];
      [reflexivity|].
    rewrite downsampleEven_length in Hgt. lia. }
  intros i Hn Hi. split; [|apply position_gap; lia].
  destruct (DownsampleFacts.downsampleEven_shape undef same data target
              ltac:(lia) Hn) as (z & -> & _).
  rewrite lookup_app_l by (rewrite length_map, length_seq; lia).
  rewrite list_lookup_fmap, lookup_seq_lt by lia. cbn.
  pose proof (DownsampleFacts.position_lt (length data) target i
                ltac:(lia) ltac:(lia)) as Hp.
  destruct (lookup_lt_is_Some_2 data _ Hp) as [x Hx].
  rewrite Hx. f_equal. apply DownsampleFacts.index_lookup, Hx.
Qed.

End Downsample.

Lemma downsampleEven_evenly_witness :
  Dashboard.downsampleEven 0%nat Nat.eqb [10; 11; 12; 13; 14; 15; 16]%nat 3 !! 1%nat
  = Some 12%nat.
Proof.
  apply (proj1 (proj2 (proj2 (downsampleEven_evenly 0%nat Nat.eqb
                  [10; 11; 12; 13; 14; 15; 16]%nat 3)) 1%nat
                  ltac:(cbn; lia) ltac:(lia))).
Defined.

Section Series.
Context `{Host}.

Lemma downsample_defined {B} (series : list B) (target : nat) :
  Forall (fun p => exists pt, p = Some pt /\ pt ∈ series)
    (Dashboard.downsampleEven None (fun _ _ => false) (map Some series) target).
Proof.
  assert (Hidx : forall i, (i < length series)%nat ->
            exists pt, index None (map Some series) i = Some pt /\ pt ∈ series).
  { intros i Hi. destruct (lookup_lt_is_Some_2 series i Hi) as [pt Hpt].
    exists pt. split; [|eapply list_elem_of_lookup_2; exact Hpt].
    apply DownsampleFacts.index_lookup. rewrite list_lookup_fmap, Hpt. reflexivity. }
  assert (Hall : Forall (fun p : option B => exists pt, p = Some pt /\ pt ∈ series)
                   (map Some series)).
  { apply List.Forall_forall. intros p Hin. apply List.in_map_iff in Hin.
    destruct Hin as (pt & <- & Hin). exists pt. split; [reflexivity|].
    apply list_elem_of_In, Hin. }
  destruct (Nat.le_gt_cases (length (map Some series)) target) as [Hle|Hgt].
  { unfold Dashboard.downsampleEven.
    destruct (Nat.leb_spec (length (map Some series)) target); [exact Hall|lia]. }
  destruct target as [|target].
  { unfold Dashboard.downsampleEven.
    destruct (Nat.leb_spec (length (map Some series)) 0); [exact Hall|].
    cbn. constructor. }
  destruct (DownsampleFacts.downsampleEven_shape None (fun _ _ => false)
              (map Some series) (S target) ltac:(lia) Hgt) as (z & -> & Hz).
  rewrite length_map in Hgt, Hz.
  apply Forall_app. split.
  - apply List.Forall_forall. intros p Hin. apply List.in_map_iff in Hin.
    destruct Hin as (i & <- & Hin). apply in_seq in Hin. rewrite length_map.
    apply Hidx, DownsampleFacts.position_lt; lia.
  - repeat constructor. destruct Hz as [->|[_ Hz]]; [|discriminate].
    apply Hidx. lia.
Qed.

(** The memo [chartData] gives at most [maxPoints] points and no more
    than there are rows, each of them defined; in the day view each
    point carries the index, the closes and the raw cells of a row as they
    are, a missing index staying missing.  On rows with valid dates it
    throws in no view but the week view. *)
Theorem chartData_points (rows : list row) (view : string) (maxPoints : nat) :
  (Forall (fun r => valid_date r = true) rows -> view <> "week" ->
   exists pts, Chart.chartData rows view maxPoints = Ok pts)
  /\ (forall pts,
        Chart.chartData rows view maxPoints = Ok pts ->
        (length pts <= maxPoints)%nat /\ (length pts <= length rows)%nat
        /\ Forall (fun p => p <> None) pts
        /\ (view = "day" ->
            Forall (fun p => exists pt r,
                      p = Some pt /\ r ∈ rows
                      /\ Chart.escape pt = escape_index_0_100 r
                      /\ Chart.hs300_close pt = hs300_close r
                      /\ Chart.shanghai_close pt = shanghai_close r
                      /\ Chart.raw pt = raw r) pts)).
Proof.
  unfold Chart.chartData. split.
  - intros Hvalid Hweek.
    assert (Hagg : exists agg, aggregateByPeriod rows view = Ok agg
                               /\ Forall (fun r => valid_date r = true) agg).
    { destruct (String.eqb_spec view "day") as [->|Hday].
      - exists rows. split; [reflexivity|exact Hvalid].
      - destruct (GroupFacts.aggregateByPeriod_total rows view Hday Hweek)
          as (agg & Hagg).
        exists agg. split; [exact Hagg|].
        apply (GroupFacts.aggregateByPeriod_valid rows view agg Hday Hagg Hvalid). }
    destruct Hagg as (agg & -> & Hv). cbn [bind].
    destruct (mapM_total
                (fun d =>
                   bind (toISOString_slice10 (date d)) (fun s =>
                   Ok {| Chart.date := s;
                         Chart.escape := escape_index_0_100 d;
                         Chart.hs300_close := hs300_close d;
                         Chart.shanghai_close := shanghai_close d;
                         Chart.raw := raw d;
                         Chart.overlay := [] |})) agg) as [series ->].
    + eapply Forall_impl; [exact Hv|]. cbn. intros r Hr.
      unfold valid_date, getTime in Hr. destruct (date r) as [t|]; [|discriminate].
      unfold toISOString_slice10. destruct (civil_from_days (Day t)) as [[y m] dd].
      cbn [bind]. eauto.
    + cbn [bind]. eauto.
  - intros pts.
    destruct (aggregateByPeriod rows view) as [agg|e] eqn:Hagg; [|discriminate].
    cbn [bind].
    destruct (mapM _ agg) as [series|e] eqn:Hser; [|discriminate]. cbn [bind].
    intros [= <-].
    pose proof (mapM_Forall2 _ _ _ Hser) as H2.
    pose proof (Forall2_length _ _ _ H2) as Hlen.
    assert (Hagglen : (length agg <= length rows)%nat).
    { destruct (String.eqb_spec view "day") as [->|Hday].
      - cbn in Hagg. injection Hagg as <-. lia.
      - apply (GroupFacts.aggregateByPeriod_length rows view agg Hday Hagg). }
    rewrite SeriesFacts.downsampleEven_length, length_map.
    split; [lia|]. split; [lia|].
    pose proof (downsample_defined series maxPoints) as Hdef.
    split.
    { eapply Forall_impl; [exact Hdef|]. cbn. intros p (pt & -> & _). discriminate. }
    intros ->. cbn in Hagg. injection Hagg as <-.
    eapply Forall_impl; [exact Hdef|]. cbn. intros p (pt & -> & Hin).
    apply list_elem_of_lookup in Hin. destruct Hin as [i Hi].
    destruct (Forall2_lookup_r _ _ _ _ _ H2 Hi) as (r & Hr & Hpt).
    exists pt, r. split; [reflexivity|].
    split; [eapply list_elem_of_lookup_2; exact Hr|].
    destruct (toISOString_slice10 (date r)); [|discriminate].
    cbn [bind] in Hpt. injection Hpt as <-. repeat split.
Qed.

End Series.

Lemma chartData_points_witness :
  exists pts,
    @Chart.chartData DemoHost.cst (@parsed_rows DemoHost.cst Samples.three_rows)
      "month" 800 = Ok pts.
Proof.
  apply (proj1 (@chartData_points DemoHost.cst
                  (@parsed_rows DemoHost.cst Samples.three_rows) "month" 800)).
  - apply (@OrderFacts.parsed_rows_valid DemoHost.cst).
  - discriminate.
Defined.

Section Overlays.
Context `{Host}.
Variable Math_log : number -> number.

Local Abbreviation known :=
  (fun k => existsb (fun opt => String.eqb (Chart.key opt) k) Chart.OVERLAY_OPTIONS).

Lemma same_point_with_overlay (a : option Chart.chart_point)
  (p : Chart.chart_point) (k : string) (v : cell) :
  same_point a (Some p) -> same_point a (Some (Chart.with_overlay p k v)).
Proof.
  destruct a as [q|]; [|intros []]. cbn. unfold Chart.with_overlay.
  destruct (String.eqb k "hs300_close"); [exact (fun x => x)|].
  destruct (String.eqb k "shanghai_close"); exact (fun x => x).
Qed.

Lemma mapM_related {A B C} (R : C -> A -> Prop) (Q : C -> B -> Prop)
  (f : A -> res B) (cs : list C) (l : list A) :
  Forall2 R cs l ->
  (forall c a, R c a -> exists b, f a = Ok b /\ Q c b) ->
  exists out, mapM f l = Ok out /\ Forall2 Q cs out.
Proof.
  intros H2 Hf. induction H2 as [|c a cs l Hca _ (out & Hout & Hall)]; cbn [mapM].
  - exists []. split; [reflexivity|constructor].
  - destruct (Hf c a Hca) as (b & Hb & Hq). rewrite Hb. cbn [bind].
    rewrite Hout. cbn [bind]. exists (b :: out).
    split; [reflexivity|constructor; assumption].
Qed.

Lemma apply_overlay_defined (cd pd : list (option Chart.chart_point))
  (k : string) :
  Forall (fun p => p <> None) cd -> Forall2 same_point cd pd ->
  exists out,
    Chart.apply_overlay Math_log cd pd k = Ok out /\ Forall2 same_point cd out.
Proof.
  intros Hcd Hpd. unfold Chart.apply_overlay.
  destruct (List.find _ Chart.OVERLAY_OPTIONS) as [option|]; [|eauto].
  destruct (mapM_total (Chart.raw_value k) cd) as [raws ->].
  { eapply Forall_impl; [exact Hcd|]. cbn. intros [p|] Hp; [|contradiction].
    cbn. eauto. }
  cbn [bind]. destruct (length _ =? 0)%nat; [eauto|].
  assert (Hpd' : Forall2 (fun c a => c <> None /\ same_point c a) cd pd).
  { clear -Hcd Hpd. induction Hpd; inversion Hcd; subst; constructor; auto. }
  eapply mapM_related; [exact Hpd'|].
  intros c [p|] [Hne Hc]; [|destruct c; [destruct Hc|contradiction]].
  cbn [Chart.raw_value bind].
  destruct (Chart.missing _); eexists; (split; [reflexivity|]);
    apply same_point_with_overlay, Hc.
Qed.

Lemma apply_overlays_defined (cd pd : list (option Chart.chart_point))
  (selected : list string) :
  Forall (fun p => p <> None) cd -> Forall2 same_point cd pd ->
  exists out,
    Chart.apply_overlays Math_log cd pd selected = Ok out
    /\ Forall2 same_point cd out.
Proof.
  intros Hcd. revert pd.
  induction selected as [|k selected IH]; intros pd Hpd; cbn [Chart.apply_overlays].
  - eauto.
  - destruct (apply_overlay_defined cd pd k Hcd Hpd) as (pd' & -> & Hpd').
    cbn [bind]. apply IH, Hpd'.
Qed.

Lemma apply_overlay_unknown (cd pd : list (option Chart.chart_point))
  (k : string) :
  known k = false -> Chart.apply_overlay Math_log cd pd k = Ok pd.
Proof.
  intros Hk. unfold Chart.apply_overlay.
  destruct (List.find _ Chart.OVERLAY_OPTIONS) as [option|] eqn:E; [|reflexivity].
  apply List.find_some in E. destruct E as [Hin Heq].
  assert (known k = true); [|congruence].
  apply existsb_exists. exists option. split; assumption.
Qed.

Lemma apply_overlays_known (cd pd : list (option Chart.chart_point))
  (selected : list string) :
  Chart.apply_overlays Math_log cd pd (List.filter known selected)
  = Chart.apply_overlays Math_log cd pd selected.
Proof.
  revert pd. induction selected as [|k selected IH]; intros pd; [reflexivity|].
  cbn [List.filter Chart.apply_overlays]. destruct (known k) eqn:Hk.
  - cbn [Chart.apply_overlays].
    destruct (Chart.apply_overlay Math_log cd pd k); cbn [bind]; [apply IH|reflexivity].
  - rewrite (apply_overlay_unknown cd pd k Hk). cbn [bind]. apply IH.
Qed.

Lemma processedChartData_overlays (cd : list (option Chart.chart_point))
  (selected : list string) :
  Chart.processedChartData Math_log cd selected
  = Chart.apply_overlays Math_log cd cd selected.
Proof.
  unfold Chart.processedChartData. destruct selected; reflexivity.
Qed.

Lemma same_point_refl (cd : list (option Chart.chart_point)) :
  Forall2 same_point cd cd.
Proof.
  induction cd as [|[p|] cd IH]; constructor; cbn; auto.
Qed.

(** On the points of [chartData], whatever overlays are selected,
    [processedChartData] does not throw and gives as many points, each
    with the date, the index and the raw cells it had; a selected key
    that is no overlay of the table changes nothing. *)
Theorem processedChartData_keeps_series (rows : list row) (view : string)
  (maxPoints : nat) (cd : list (option Chart.chart_point))
  (selectedOverlays : list string) :
  Chart.chartData rows view maxPoints = Ok cd ->
  exists out,
    Chart.processedChartData Math_log cd selectedOverlays = Ok out
    /\ Forall2 same_point cd out
    /\ Chart.processedChartData Math_log cd
         (List.filter
            (fun k => existsb (fun opt => String.eqb (Chart.key opt) k)
                        Chart.OVERLAY_OPTIONS) selectedOverlays)
       = Ok out.
Proof.
  intros Hcd.
  assert (Hdef : Forall (fun p => p <> None) cd).
  { unfold Chart.chartData in Hcd.
    destruct (aggregateByPeriod rows view) as [agg|e]; [|discriminate].
    cbn [bind] in Hcd.
    destruct (mapM _ agg) as [series|e]; [|discriminate]. cbn [bind] in Hcd.
    injection Hcd as <-.
    eapply Forall_impl; [apply (downsample_defined series maxPoints)|].
    cbn. intros p (pt & -> & _). discriminate. }
  destruct (apply_overlays_defined cd cd selectedOverlays Hdef (same_point_refl cd))
    as (out & Hout & Hsame).
  exists out. rewrite !processedChartData_overlays, apply_overlays_known.
  repeat split; assumption.
Qed.

End Overlays.

Lemma processedChartData_keeps_series_witness :
  exists cd out,
    @Chart.chartData DemoHost.cst (@parsed_rows DemoHost.cst Samples.three_rows)
      "day" 800 = Ok cd
    /\ @Chart.processedChartData DemoHost.cst (fun x => x) cd
         ["hs300_close"; "volume"] = Ok out
    /\ Forall2 same_point cd out.
Proof.
  eexists.
  destruct (@processedChartData_keeps_series DemoHost.cst (fun x => x)
              (@parsed_rows DemoHost.cst Samples.three_rows) "day" 800 _
              ["hs300_close"; "volume"] ltac:(reflexivity))
    as (out & Hout & Hsame & _).
  exists out. split; [reflexivity|]. split; assumption.
Defined.

End SeriesFacts.

(** ** The labels of the generator and of the panel *)

Module LabelFacts.
Import JSNum JSVal NumFacts SpecTiers.

Lemma ge_above (v lo hi : number) :
  lt lo hi = true -> ge v hi = true -> gt v lo = true.
Proof. intros H1 H2. exact (lt_le_trans _ _ _ H1 H2). Qed.

Lemma gt_ge (v c : number) : gt v c = true -> ge v c = true.
Proof. apply lt_le. Qed.

Lemma gt_above (v lo hi : number) :
  lt lo hi = true -> gt v hi = true -> gt v lo = true.
Proof. intros H1 H2. apply (ge_above v lo hi H1), gt_ge, H2. Qed.

Lemma implb_intro (a b : bool) : (a = true -> b = true) -> implb a b = true.
Proof. destruct a, b; cbn; auto. Qed.

(** [getRiskLevel] is monotone: a value that is at least another gets a
    tier that is at least as high; NaN gets the lowest tier. *)
Theorem getRiskLevel_monotone (a b : number) :
  (le a b = true ->
   (rank (Stats.level (Stats.getRiskLevel a))
    <= rank (Stats.level (Stats.getRiskLevel b)))%nat)
  /\ Stats.level (Stats.getRiskLevel NaN) = "极低风险".
Proof.
  split; [|reflexivity]. intros Hab.
  assert (Hup : forall c, ge a c = true -> ge b c = true).
  { intros c Hc. exact (le_trans _ _ _ Hc Hab). }
  pose proof (implb_intro _ _ (Hup (of_Z 80))) as H80.
  pose proof (implb_intro _ _ (Hup (of_Z 70))) as H70.
  pose proof (implb_intro _ _ (Hup (of_Z 60))) as H60.
  pose proof (implb_intro _ _ (Hup (of_Z 40))) as H40.
  pose proof (implb_intro _ _ (TierFacts.ge_mono b (of_Z 70) (of_Z 80) eq_refl)) as B1.
  pose proof (implb_intro _ _ (TierFacts.ge_mono b (of_Z 60) (of_Z 70) eq_refl)) as B2.
  pose proof (implb_intro _ _ (TierFacts.ge_mono b (of_Z 40) (of_Z 60) eq_refl)) as B3.
  unfold Stats.getRiskLevel.
  destruct (ge a (of_Z 80)), (ge a (of_Z 70)), (ge a (of_Z 60)), (ge a (of_Z 40)),
    (ge b (of_Z 80)), (ge b (of_Z 70)), (ge b (of_Z 60)), (ge b (of_Z 40));
    try discriminate; vm_compute; lia.
Qed.

Lemma getRiskLevel_monotone_witness :
  (rank (Stats.level (Stats.getRiskLevel (of_Z 65)))
   <= rank (Stats.level (Stats.getRiskLevel (of_Z 72))))%nat.
Proof.
  apply (proj1 (getRiskLevel_monotone (of_Z 65) (of_Z 72))). reflexivity.
Defined.

(** Every row the generator can produce: with [Math.sin] from -1 to 1
    and [Math.random()] from 0 to below 1, the index before rounding is
    the sum of the base and the noise, from 5 to 55, and neither
    [Math.max(0, ...)] nor [Math.min(100, ...)] cuts it; so the signal
    is ["0"], the label is 中等风险 above 40 and 低风险 otherwise, and
    the published index is a finite number from 5 to 55. *)
Theorem mock_row_coherent (sine random : number) :
  Mock.is_sine sine = true -> Mock.is_random random = true ->
  let r := Mock.generate_cells sine random in
  let x := Mock.escapeIndex sine random in
  x = add (Mock.baseIndex sine) (Mock.noise random)
  /\ le (of_Z 5) x = true /\ le x (of_Z 55) = true
  /\ Mock.escape_signal r = "0"
  /\ Mock.escape_level r = (if gt x (of_Z 40) then "中等风险" else "低风险")
  /\ isFinite (Mock.escape_index_0_100 r) = true
  /\ le (of_Z 5) (Mock.escape_index_0_100 r) = true
  /\ le (Mock.escape_index_0_100 r) (of_Z 55) = true.
Proof.
  intros Hs Hr r x.
  destruct (MockFacts.generated_cells sine random Hs Hr)
    as ((k & Hk & Ek) & Hsig & Hlev).
  destruct (MockFacts.escapeIndex_range sine random Hs Hr) as (Ex & Gx & Vx).
  destruct (MockFacts.published_range k Hk) as (Hfin & H5 & H55).
  fold r in Ek, Hsig, Hlev. fold x in Ex, Gx, Vx.
  rewrite <- Ek in Hfin, H5, H55.
  assert (Hc5 : (Dyadic.val (of_Z 5) == 5)%Q) by (vm_compute; reflexivity).
  assert (Hc55 : (Dyadic.val (of_Z 55) == 55)%Q) by (vm_compute; reflexivity).
  split; [exact Ex|]. split.
  { apply (RoundFacts.le_val (of_Z 5) x eq_refl Gx). rewrite Hc5. apply Vx. }
  split.
  { apply (RoundFacts.le_val x (of_Z 55) Gx eq_refl). rewrite Hc55. apply Vx. }
  split; [exact Hsig|]. split; [|repeat split; assumption].
  subst r. unfold Mock.generate_cells, Mock.index_cells in *.
  cbn [Mock.escape_level Mock.escape_signal] in *. fold x in Hsig, Hlev |- *.
  destruct (gt x (of_Z 80)); [destruct Hlev; discriminate|].
  destruct (gt x (of_Z 60)); [destruct Hlev; discriminate|].
  reflexivity.
Qed.

Lemma mock_row_coherent_witness :
  let r := Mock.generate_cells (of_Z 1) (of_ratio 9 10) in
  Mock.escape_signal r = "0"
  /\ Mock.escape_level r = "中等风险"
  /\ Mock.escape_index_0_100 r = of_Z 54.
Proof.
  split; [|split; vm_compute; reflexivity].
  apply (proj1 (proj2 (proj2 (proj2
           (mock_row_coherent (of_Z 1) (of_ratio 9 10) eq_refl eq_refl))))).
Defined.

(** For the same number the label of the generator and the label of the
    panel are at most one tier apart, and they are the same tier only
    where both cuts agree: at 70 and above except at 80, at 60 and at
    40; between 60 and 70 the generator says 高风险 where the panel says
    中等风险. *)
Theorem mock_label_against_panel (v : number) :
  let g := rank (Mock.escape_level (Mock.index_cells v)) in
  let p := rank (Stats.level (Stats.getRiskLevel v)) in
  (g <= p + 1 /\ p <= g + 1)%nat
  /\ (gt v (of_Z 60) = true -> lt v (of_Z 70) = true ->
      Mock.escape_level (Mock.index_cells v) = "高风险"
      /\ Stats.level (Stats.getRiskLevel v) = "中等风险").
Proof.
  intros g p. subst g p. unfold Mock.index_cells, Stats.getRiskLevel.
  cbn [Mock.escape_level].
  pose proof (implb_intro _ _ (gt_ge v (of_Z 80))) as G1.
  pose proof (implb_intro _ _ (gt_ge v (of_Z 60))) as G2.
  pose proof (implb_intro _ _ (gt_ge v (of_Z 40))) as G3.
  pose proof (implb_intro _ _ (TierFacts.ge_mono v (of_Z 70) (of_Z 80) eq_refl)) as B1.
  pose proof (implb_intro _ _ (TierFacts.ge_mono v (of_Z 60) (of_Z 70) eq_refl)) as B2.
  pose proof (implb_intro _ _ (TierFacts.ge_mono v (of_Z 40) (of_Z 60) eq_refl)) as B3.
  pose proof (implb_intro _ _ (ge_above v (of_Z 60) (of_Z 70) eq_refl)) as A1.
  pose proof (implb_intro _ _ (ge_above v (of_Z 40) (of_Z 60) eq_refl)) as A2.
  pose proof (implb_intro _ _ (gt_above v (of_Z 60) (of_Z 80) eq_refl)) as A3.
  pose proof (implb_intro _ _ (gt_above v (of_Z 40) (of_Z 60) eq_refl)) as A4.
  split.
  - destruct (gt v (of_Z 80)), (gt v (of_Z 60)), (gt v (of_Z 40)),
      (ge v (of_Z 80)), (ge v (of_Z 70)), (ge v (of_Z 60)), (ge v (of_Z 40));
      try discriminate; vm_compute; lia.
  - intros H60 H70. rewrite H60.
    pose proof (lt_not_ge _ _ H70) as N70.
    pose proof (TierFacts.ge_mono_false v (of_Z 70) (of_Z 80) eq_refl N70) as N80.
    rewrite N70, N80 in *. rewrite (gt_ge _ _ H60).
    destruct (gt v (of_Z 80)); [discriminate|]. split; reflexivity.
Qed.

Lemma mock_label_against_panel_witness :
  Mock.escape_level (Mock.index_cells (of_Z 65)) = "高风险"
  /\ Stats.level (Stats.getRiskLevel (of_Z 65)) = "中等风险".
Proof.
  apply (proj2 (mock_label_against_panel (of_Z 65))); reflexivity.
Defined.

End LabelFacts.

(** ** The statistics and the sentiment panels *)

Module PanelFacts.
Import JSNum JSVal Dashboard Notions Sentiment.

Lemma or_zero_not_nan (c : cell) : is_nan (or_zero c) = false.
Proof. destruct c as [| |[| | |]]; reflexivity. Qed.

(** The statistics are [null] exactly when no row has an index other
    than [null].  Otherwise the current value is the index of the latest
    row, or 0 if the row has none: it is never NaN, and a latest row
    without an index is shown in the lowest tier. *)
Theorem compute_stats_current (data : list row) (latestData : row) :
  (Stats.compute_stats data latestData = None
   <-> Forall (fun r => escape_index_0_100 r = Null) data)
  /\ (forall s, Stats.compute_stats data latestData = Some s ->
        Stats.current s = or_zero (escape_index_0_100 latestData)
        /\ is_nan (Stats.current s) = false
        /\ (escape_index_0_100 latestData = Null ->
            Stats.level (Stats.getRiskLevel (Stats.current s)) = "极低风险")).
Proof.
  unfold Stats.compute_stats.
  set (values := List.filter Stats.not_null (map escape_index_0_100 data)).
  assert (Hvalues : values = [] <-> Forall (fun r => escape_index_0_100 r = Null) data).
  { subst values. induction data as [|r data IH]; cbn [map List.filter].
    - split; [constructor|reflexivity].
    - destruct (escape_index_0_100 r) eqn:E; cbn [Stats.not_null].
      + split; [discriminate|]. intros Hall. inversion Hall; congruence.
      + rewrite IH. split; [constructor; auto|].
        intros Hall. inversion Hall; assumption.
      + split; [discriminate|]. intros Hall. inversion Hall; congruence. }
  destruct values as [|v values'] eqn:Ev; cbn [length Nat.eqb].
  - split; [split; [intros _; apply Hvalues; reflexivity|reflexivity]|].
    discriminate.
  - split.
    + split; [discriminate|]. intros Hall. apply Hvalues in Hall. discriminate.
    + intros s [= <-]. cbn [Stats.current].
      split; [reflexivity|]. split; [apply or_zero_not_nan|].
      intros ->. reflexivity.
Qed.

Lemma compute_stats_current_witness :
  exists s,
    Stats.compute_stats (@parsed_rows DemoHost.cst Samples.three_rows)
      (@parseRow DemoHost.cst [("日期", VStr "2024-01-04")]) = Some s
    /\ Stats.level (Stats.getRiskLevel (Stats.current s)) = "极低风险".
Proof.
  eexists. split; [reflexivity|].
  apply (proj2 (compute_stats_current
                  (@parsed_rows DemoHost.cst Samples.three_rows)
                  (@parseRow DemoHost.cst [("日期", VStr "2024-01-04")])));
    reflexivity.
Defined.

Lemma findPrev_cases (field : row -> cell) (data : list row) (idx : nat) :
  (idx <= length data)%nat ->
  (findPrevWithValue field data idx = Ok Null
   /\ forall j d, (j < idx)%nat -> data !! j = Some d ->
                  has_value (field d) = false)
  \/ (exists j d,
        (j < idx)%nat /\ data !! j = Some d /\ has_value (field d) = true
        /\ findPrevWithValue field data idx = Ok (field d)
        /\ forall j' d', (j < j' < idx)%nat -> data !! j' = Some d' ->
                         has_value (field d') = false).
Proof.
  induction idx as [|i IH]; intros Hlen; cbn [findPrevWithValue].
  - left. split; [reflexivity|]. intros j d Hj. lia.
  - destruct (lookup_lt_is_Some_2 data i ltac:(lia)) as [d Hd]. rewrite Hd.
    destruct (has_value (field d)) eqn:Hv.
    + right. exists i, d. repeat split; try assumption; lia.
    + destruct (IH ltac:(lia)) as [[Hn Hall]|(j & dj & Hj & Hdj & Hvj & Hf & Hall)].
      * left. split; [exact Hn|]. intros j d' Hj Hd'.
        destruct (decide (j = i)) as [->|Hne].
        -- rewrite Hd in Hd'. injection Hd' as <-. exact Hv.
        -- apply (Hall j d'); [lia|exact Hd'].
      * right. exists j, dj. repeat split; try assumption; try lia.
        intros j' d' Hj' Hd'.
        destruct (decide (j' = i)) as [->|Hne].
        -- rewrite Hd in Hd'. injection Hd' as <-. exact Hv.
        -- apply (Hall j' d'); [lia|exact Hd'].
Qed.

(** [findPrevWithValue], asked for a position that is in the table or
    just after it, gives the value of the nearest earlier row that has
    one, or [null] when no earlier row has one; asked for a position
    further out, it throws. *)
Theorem findPrevWithValue_nearest (field : row -> cell) (data : list row)
  (idx : nat) :
  ((idx <= length data)%nat ->
   (findPrevWithValue field data idx = Ok Null
    /\ forall j d, (j < idx)%nat -> data !! j = Some d ->
                   has_value (field d) = false)
   \/ (exists j d,
         (j < idx)%nat /\ data !! j = Some d /\ has_value (field d) = true
         /\ findPrevWithValue field data idx = Ok (field d)
         /\ forall j' d', (j < j' < idx)%nat -> data !! j' = Some d' ->
                          has_value (field d') = false))
  /\ ((length data < idx)%nat ->
      exists e, findPrevWithValue field data idx = Throw e).
Proof.
  split; [apply findPrev_cases|].
  intros Hlen. destruct idx as [|i]; [lia|]. cbn [findPrevWithValue].
  rewrite (lookup_ge_None_2 data i) by lia. eauto.
Qed.

Lemma findPrevWithValue_nearest_witness :
  exists e,
    findPrevWithValue douyin_search
      (@parsed_rows DemoHost.cst Samples.three_rows) 5 = Throw e.
Proof.
  apply (proj2 (findPrevWithValue_nearest douyin_search
                  (@parsed_rows DemoHost.cst Samples.three_rows) 5)).
  vm_compute. lia.
Defined.

Lemma findPrev_finite (field : row -> cell) (data : list row) (idx : nat) :
  (idx <= length data)%nat ->
  Forall (fun r => finite_cell (field r)) data ->
  exists c, findPrevWithValue field data idx = Ok c /\ finite_cell c.
Proof.
  intros Hlen Hall.
  destruct (findPrev_cases field data idx Hlen)
    as [[Hn _]|(j & d & _ & Hd & _ & Hf & _)].
  - exists Null. split; [exact Hn|]. intros n. discriminate.
  - exists (field d). split; [exact Hf|].
    rewrite List.Forall_forall in Hall. apply Hall, list_elem_of_In.
    eapply list_elem_of_lookup_2. exact Hd.
Qed.

Lemma change_numbers (c p : cell) :
  finite_cell c -> finite_cell p ->
  is_nan (change (calculateChange c p)) = false
  /\ is_nan (percent (calculateChange c p)) = false.
Proof.
  intros Hc Hp. unfold calculateChange.
  destruct c as [| |c]; try (split; reflexivity).
  destruct p as [| |p]; try (split; reflexivity).
  cbn [change percent].
  pose proof (ArithFacts.sub_finite c p (Hc _ eq_refl) (Hp _ eq_refl)) as Hsub.
  split; [exact Hsub|].
  destruct (JSNum.strict_eq p (of_Z 0)) eqn:E; cbn [negb]; [reflexivity|].
  specialize (Hp _ eq_refl).
  destruct p as [sp|sp| |sp mp ep]; try discriminate.
  apply ArithFacts.times_100_not_nan, ArithFacts.div_by_finite, Hsub.
Qed.

(** [calculateChange] gives the change 0 and no trend when either value
    is missing, and the percentage 0 when the earlier value is 0; on
    finite values neither the change nor the percentage is NaN. *)
Theorem calculateChange_numbers (currentVal prevVal : cell) :
  (has_value currentVal = false \/ has_value prevVal = false ->
   calculateChange currentVal prevVal
   = {| change := of_Z 0; percent := of_Z 0; trend := "flat" |})
  /\ (forall s, prevVal = Num (S754_zero s) ->
        percent (calculateChange currentVal prevVal) = of_Z 0)
  /\ (finite_cell currentVal -> finite_cell prevVal ->
      is_nan (change (calculateChange currentVal prevVal)) = false
      /\ is_nan (percent (calculateChange currentVal prevVal)) = false).
Proof.
  split; [|split; [|apply change_numbers]].
  - unfold calculateChange.
    destruct currentVal, prevVal; cbn; intros [?|?]; try discriminate; reflexivity.
  - intros s ->. unfold calculateChange.
    destruct currentVal; reflexivity.
Qed.

Lemma calculateChange_numbers_witness :
  is_nan (percent (calculateChange (Num (of_Z 120)) (Num (of_Z 100)))) = false.
Proof.
  apply (proj2 (proj2 (calculateChange_numbers (Num (of_Z 120)) (Num (of_Z 100)))));
    intros n [= <-]; reflexivity.
Defined.

Lemma latest_with_douyin_spec (filtered : list row) :
  match latest_with_douyin filtered with
  | None => Forall (fun r => has_value (douyin_search r) = false) filtered
  | Some (i, r) =>
      filtered !! i = Some r /\ has_value (douyin_search r) = true
      /\ forall j d, (i < j)%nat -> filtered !! j = Some d ->
                     has_value (douyin_search d) = false
  end.
Proof.
  induction filtered as [|d rest IH]; cbn [latest_with_douyin]; [constructor|].
  destruct (latest_with_douyin rest) as [[i r]|].
  - destruct IH as (Hi & Hv & Hlater). split; [exact Hi|]. split; [exact Hv|].
    intros j d' Hj Hd'. destruct j as [|j]; [lia|].
    apply (Hlater j d'); [lia|exact Hd'].
  - destruct (has_value (douyin_search d)) eqn:Hv.
    + split; [reflexivity|]. split; [exact Hv|].
      intros j d' Hj Hd'. destruct j as [|j]; [lia|]. cbn in Hd'.
      rewrite List.Forall_forall in IH. apply IH, list_elem_of_In.
      eapply list_elem_of_lookup_2. exact Hd'.
    + constructor; assumption.
Qed.

(** The sentiment panel of the dashboard is given the latest row of the
    range that has a heat value, and none if no row has one.  For that
    row, on cells as [parseRow] leaves them, the memo [sentiment] does
    not throw, and none of its four percentages is NaN. *)
Theorem sentiment_of_latest (filtered : list row) :
  Forall finite_cells filtered ->
  match latest_with_douyin filtered with
  | None => Forall (fun r => has_value (douyin_search r) = false) filtered
  | Some (i, r) =>
      filtered !! i = Some r /\ has_value (douyin_search r) = true
      /\ (forall j d, (i < j)%nat -> filtered !! j = Some d ->
                      has_value (douyin_search d) = false)
      /\ exists s,
           compute_sentiment filtered r i = Ok s
           /\ is_nan (percent (douyin s)) = false
           /\ is_nan (percent (margin s)) = false
           /\ is_nan (percent (turnover s)) = false
           /\ is_nan (percent (crowding s)) = false
  end.
Proof.
  intros Hfin. pose proof (latest_with_douyin_spec filtered) as Hspec.
  destruct (latest_with_douyin filtered) as [[i r]|]; [|exact Hspec].
  destruct Hspec as (Hi & Hv & Hlater).
  split; [exact Hi|]. split; [exact Hv|]. split; [exact Hlater|].
  pose proof (lookup_lt_Some _ _ _ Hi) as Hlt.
  assert (Hr : finite_cells r).
  { rewrite List.Forall_forall in Hfin. apply Hfin, list_elem_of_In.
    eapply list_elem_of_lookup_2. exact Hi. }
  destruct Hr as (R1 & R2 & R3 & R4).
  unfold compute_sentiment.
  destruct (findPrev_finite douyin_search filtered i ltac:(lia)) as (c1 & -> & F1).
  { eapply Forall_impl; [exact Hfin|]. cbn. intros x Hx. apply Hx. }
  destruct (findPrev_finite margin_total filtered i ltac:(lia)) as (c2 & -> & F2).
  { eapply Forall_impl; [exact Hfin|]. cbn. intros x Hx. apply Hx. }
  destruct (findPrev_finite hs300_turnover_rate filtered i ltac:(lia))
    as (c3 & -> & F3).
  { eapply Forall_impl; [exact Hfin|]. cbn. intros x Hx. apply Hx. }
  destruct (findPrev_finite crowding_z filtered i ltac:(lia)) as (c4 & -> & F4).
  { eapply Forall_impl; [exact Hfin|]. cbn. intros x Hx. apply Hx. }
  cbn [bind]. eexists. split; [reflexivity|].
  cbn [douyin margin turnover crowding].
  repeat split; apply change_numbers; assumption.
Qed.

Lemma parsed_rows_finite_cells `{Host} (data : list object) :
  Forall finite_cells (parsed_rows data).
Proof.
  unfold parsed_rows. rewrite (ParseFacts.sort_by_date_perm _).
  apply List.Forall_forall. intros r Hin.
  apply List.filter_In in Hin. destruct Hin as [Hin _].
  apply List.in_map_iff in Hin. destruct Hin as (o & <- & _).
  repeat split; intros n; cbn; apply ViewFacts.safeNum_finite.
Qed.

Lemma sentiment_of_latest_witness :
  exists r s,
    latest_with_douyin (@parsed_rows DemoHost.cst Samples.three_rows)
    = Some (2%nat, r)
    /\ compute_sentiment (@parsed_rows DemoHost.cst Samples.three_rows) r 2 = Ok s
    /\ is_nan (percent (douyin s)) = false.
Proof.
  pose proof (sentiment_of_latest (@parsed_rows DemoHost.cst Samples.three_rows)
                (@parsed_rows_finite_cells DemoHost.cst Samples.three_rows)) as Hs.
  destruct (latest_with_douyin (@parsed_rows DemoHost.cst Samples.three_rows))
    as [[i r]|] eqn:E; [|discriminate E].
  injection E as <- <-.
  destruct Hs as (_ & _ & _ & s & Hs & Hd & _).
  eexists. exists s. split; [reflexivity|]. split; [exact Hs|exact Hd].
Defined.

End PanelFacts.

(** ** What a fetch leaves in the dashboard *)

Module FetchFacts.
Import JSNum JSVal JSDate Server Dashboard View Notions.

Section Fetch.
Context `{Host}.

Lemma parsed_rows_nil (rows : list object) :
  parsed_rows rows = []
  <-> Forall (fun o => valid_date (parseRow o) = false) rows.
Proof.
  unfold parsed_rows. split.
  - intros Hnil.
    assert (Hf : List.filter valid_date (map parseRow rows) = []).
    { apply Permutation_nil_r. rewrite <- Hnil.
      symmetry. apply ParseFacts.sort_by_date_perm. }
    clear Hnil. induction rows as [|o rows IH]; [constructor|].
    cbn [map List.filter] in Hf.
    destruct (valid_date (parseRow o)) eqn:E; [discriminate|].
    constructor; [exact E|apply IH, Hf].
  - intros Hall.
    assert (Hf : List.filter valid_date (map parseRow rows) = []).
    { induction Hall as [|o rows Ho _ IH]; [reflexivity|].
      cbn [map List.filter]. rewrite Ho. exact IH. }
    rewrite Hf. reflexivity.
Qed.

Lemma some_or_none {A} (p : A -> bool) (l : list A) :
  (Exists (fun a => p a = true) l /\ ~ Forall (fun a => p a = false) l)
  \/ (Forall (fun a => p a = false) l /\ ~ Exists (fun a => p a = true) l).
Proof.
  induction l as [|a l [[He Hn]|[Hf Hn]]].
  - right. split; [constructor|]. intros He. inversion He.
  - left. split; [right; exact He|]. intros Hf. inversion Hf; auto.
  - destruct (p a) eqn:E.
    + left. split; [left; exact E|]. intros Hf'. inversion Hf'; congruence.
    + right. split; [constructor; assumption|].
      intros He. inversion He; [congruence|auto].
Qed.

Lemma last_dated (rows : list object) (latest : row) :
  last (parsed_rows rows) = Some latest -> exists t, date latest = Some t.
Proof.
  intros Hl. pose proof (OrderFacts.parsed_rows_valid rows) as Hv.
  rewrite List.Forall_forall in Hv.
  specialize (Hv latest (proj1 (list_elem_of_In _ _) (last_Some_elem_of _ _ Hl))).
  unfold valid_date, getTime in Hv. destruct (date latest) as [t|]; [eauto|discriminate].
Qed.

Lemma toISOString_dated (t : Z) : exists s, toISOString_slice10 (Some t) = Ok s.
Proof.
  unfold toISOString_slice10. destruct (civil_from_days (Day t)) as [[y m] dd]. eauto.
Qed.

(** A fetch that fails in any way leaves the table and the range as they
    were and sets an error.  A fetch that delivers rows replaces the
    table by the dated rows in time order.  The error stays unset, and
    the range becomes the year that ends at the latest row, exactly when
    there is a latest row and the same day a year before it is still a
    date; a latest row too near the earliest date leaves an error with
    the table and the end of the range set.  When no row has a valid
    date the table is there with no row and the range is as it was, so
    that there is no latest row and the memo [filtered] throws unless
    both ends of the range were set. *)
Theorem fetchData_outcomes (o : fetch_outcome) (st : view_state) :
  ((forall rows, o <> Data rows) ->
   rawData (fetchData o st) = rawData st
   /\ rangeStart (fetchData o st) = rangeStart st
   /\ rangeEnd (fetchData o st) = rangeEnd st
   /\ error (fetchData o st) <> None)
  /\ (forall rows, o = Data rows ->
        rawData (fetchData o st) = Some (parsed_rows rows)
        /\ (forall latest, last (parsed_rows rows) = Some latest ->
              let start :=
                setFullYear (date latest)
                  (option_map (fun y => (y - 1)%Z) (getFullYear (date latest))) in
              (exists end_,
                  toISOString_slice10 (date latest) = Ok end_
                  /\ rangeEnd (fetchData o st) = Some end_)
              /\ (start = None ->
                  error (fetchData o st) <> None
                  /\ rangeStart (fetchData o st) = rangeStart st)
              /\ (start <> None ->
                  error (fetchData o st) = None
                  /\ exists s0,
                       toISOString_slice10 start = Ok s0
                       /\ rangeStart (fetchData o st) = Some s0))
        /\ (Forall (fun r => valid_date (parseRow r) = false) rows ->
            rawData (fetchData o st) = Some []
            /\ error (fetchData o st) <> None
            /\ rangeStart (fetchData o st) = rangeStart st
            /\ rangeEnd (fetchData o st) = rangeEnd st
            /\ latestSummary (rawData (fetchData o st)) = None
            /\ (falsy (rangeStart st) \/ falsy (rangeEnd st) ->
                exists e,
                  filtered (rawData (fetchData o st)) (rangeStart (fetchData o st))
                    (rangeEnd (fetchData o st)) = Throw e))).
Proof.
  split.
  - intros Hno. destruct o as [message|status| |rows]; cbn;
      try (repeat split; discriminate).
    exfalso. exact (Hno rows eq_refl).
  - intros rows ->. cbn [fetchData].
    split.
    { destruct (last (parsed_rows rows)) as [l|]; [|reflexivity].
      destruct (toISOString_slice10 (date l)); [|reflexivity].
      destruct (toISOString_slice10 _); reflexivity. }
    split.
    + intros latest Hl. rewrite Hl.
      destruct (last_dated rows latest Hl) as [t Ht]. rewrite Ht.
      destruct (toISOString_dated t) as [end_ ->].
      destruct (setFullYear (Some t) _) as [u|] eqn:Eu.
      * destruct (toISOString_dated u) as [s0 Hs0]. rewrite Hs0. cbn.
        split; [eauto|]. split; [discriminate|]. intros _.
        split; [reflexivity|eauto].
      * cbn. split; [eauto|]. split; [|intros Hc; contradiction].
        intros _. split; [discriminate|reflexivity].
    + intros Hall. rewrite (proj2 (parsed_rows_nil rows) Hall). cbn.
      repeat split; try discriminate.
      intros Hf.
      destruct (proj1 (ViewFacts.filtered_throws [] (rangeStart st) (rangeEnd st)))
        as [e He]; [|eauto].
      split; [reflexivity|exact Hf].
Qed.

End Fetch.

(** A failed request after a table that held no row. *)
Lemma fetchData_outcomes_witness :
  rawData (@fetchData DemoHost.cst (HttpStatus 500)
             {| rawData := Some []; rangeStart := None; rangeEnd := None;
                error := None |}) = Some []
  /\ error (@fetchData DemoHost.cst (HttpStatus 500)
              {| rawData := Some []; rangeStart := None; rangeEnd := None;
                 error := None |}) <> None.
Proof.
  destruct (proj1 (@fetchData_outcomes DemoHost.cst (HttpStatus 500)
                     {| rawData := Some []; rangeStart := None; rangeEnd := None;
                        error := None |}) ltac:(discriminate))
    as (Hr & _ & _ & He).
  split; [exact Hr|exact He].
Defined.

(** The earliest time value is a valid date, but the same day a year
    before is none: the table holds the row and the end of the range is
    set, and yet the fetch ends with an error. *)
Lemma fetchData_earliest_date :
  let st := @fetchData DemoHost.cst
              (Data [[("日期", VNum (of_Z (-8640000000000000)))]])
              {| rawData := None; rangeStart := None; rangeEnd := None;
                 error := None |} in
  option_map (@length row) (rawData st) = Some 1%nat
  /\ rangeStart st = None /\ rangeEnd st = Some "-271821-04"
  /\ error st = Some "Invalid time value".
Proof. vm_compute. repeat split. Qed.

Section Columnar.
Context `{Host}.

Local Abbreviation is_digit :=
  (fun a : ascii => (48 <= nat_of_ascii a <= 57)%nat).

Lemma pretty_N_char_digit (x : N) : is_digit (pretty_N_char x).
Proof.
  unfold pretty_N_char.
  destruct x as [|p]; [vm_compute; lia|].
  destruct p as [p|p|]; try (vm_compute; lia);
    destruct p as [p|p|]; try (vm_compute; lia);
    destruct p as [p|p|]; try (vm_compute; lia);
    destruct p as [p|p|]; vm_compute; lia.
Qed.

Lemma pretty_N_go_digits (x : N) (s : string) :
  Forall (fun a => is_digit a) (list_ascii_of_string s) ->
  Forall (fun a => is_digit a) (list_ascii_of_string (pretty_N_go x s)).
Proof.
  revert s. induction (N.lt_wf_0 x) as [x _ IH]. intros s Hs.
  destruct (decide (x = 0%N)) as [->|Hne].
  - rewrite pretty_N_go_0. exact Hs.
  - rewrite pretty_N_go_step by lia. apply IH.
    + apply N.div_lt; lia.
    + cbn [list_ascii_of_string]. constructor; [apply pretty_N_char_digit|exact Hs].
Qed.

Lemma pretty_nat_digits (i : nat) :
  Forall (fun a => is_digit a) (list_ascii_of_string (pretty i)).
Proof.
  unfold pretty, pretty_nat, pretty, pretty_N.
  destruct (decide (N.of_nat i = 0%N)).
  - repeat constructor; vm_compute; lia.
  - apply pretty_N_go_digits. constructor.
Qed.

Lemma date_key_no_digits (l p q : list ascii) :
  Forall (fun a => is_digit a) l ->
  l <> p ++ list_ascii_of_string date_key ++ q.
Proof.
  intros Hl ->. apply Forall_app in Hl. destruct Hl as [_ Hl].
  cbn in Hl. inversion Hl as [|? ? Hd _]; subst. vm_compute in Hd. lia.
Qed.

Lemma array_keys (cells : list jsval) (k : string) :
  k ∈ keys (array_object cells) -> exists i : nat, k = pretty i.
Proof.
  unfold keys, array_object. intros Hin.
  apply list_elem_of_fmap in Hin. destruct Hin as ([k' v] & -> & Hin).
  apply elem_of_lookup_imap_1 in Hin. destruct Hin as (i & y & [= -> ->] & _).
  eauto.
Qed.

Lemma get_absent (o : object) (k : string) :
  k ∉ keys o -> get o k = VUndef.
Proof.
  induction o as [|[k' v] o IH]; intros Hk; cbn [get]; [reflexivity|].
  destruct (String.eqb_spec k' k) as [->|Hne].
  - exfalso. apply Hk. left.
  - apply IH. intros Hin. apply Hk. right. exact Hin.
Qed.

Lemma array_row_undated (cells : list jsval) :
  valid_date (parseRow (array_object cells)) = false.
Proof.
  assert (Hkey : forall i : nat, pretty i <> date_key).
  { intros i E.
    apply (date_key_no_digits (list_ascii_of_string (pretty i)) [] []
             (pretty_nat_digits i)).
    rewrite E, app_nil_r. reflexivity. }
  assert (Htrim : forall i : nat, trim (pretty i) <> date_key).
  { intros i E.
    destruct (RoutesFacts.trim_spec (pretty i)) as (p & q & Hpq & _).
    rewrite E in Hpq.
    exact (date_key_no_digits _ p q (pretty_nat_digits i) Hpq). }
  unfold valid_date, parseRow. cbn [date].
  assert (Hfind : List.find (fun k => String.eqb (trim k) date_key)
                    (keys (array_object cells)) = None).
  { destruct (List.find _ _) as [k|] eqn:E; [|reflexivity].
    apply List.find_some in E. destruct E as [Hin Hk].
    apply String.eqb_eq in Hk. apply list_elem_of_In, array_keys in Hin.
    destruct Hin as [i ->]. exfalso. exact (Htrim i Hk). }
  rewrite Hfind.
  rewrite get_absent; [reflexivity|].
  intros Hin. apply array_keys in Hin. destruct Hin as [i Hi].
  exact (Hkey i (eq_sym Hi)).
Qed.

(** The dashboard maps [parseRow] over [json.data].  The rows in the
    [data] of the columnar payload are arrays, whose keys are their
    indices: none has a date cell.  So the dashboard keeps no row of such
    a payload, whatever it holds, and ends with an empty table and an
    error. *)
Theorem columnar_payload_keeps_no_row (data : list (list jsval))
  (st : view_state) :
  Forall (fun cells => valid_date (parseRow (array_object cells)) = false) data
  /\ parsed_rows (map array_object data) = []
  /\ rawData (fetchData (Data (map array_object data)) st) = Some []
  /\ error (fetchData (Data (map array_object data)) st) <> None.
Proof.
  assert (Hall : Forall (fun cells =>
                    valid_date (parseRow (array_object cells)) = false) data).
  { apply List.Forall_forall. intros cells _. apply array_row_undated. }
  assert (Hnil : parsed_rows (map array_object data) = []).
  { apply parsed_rows_nil, Forall_map. exact Hall. }
  split; [exact Hall|]. split; [exact Hnil|].
  cbn [fetchData]. rewrite Hnil. cbn.
  split; [reflexivity|discriminate].
Qed.

End Columnar.

End FetchFacts.
